(** * Running variance and standard deviation over a circular buffer

    A shallow embedding of [sqlite-stddev-extension.c]: the growable circular
    buffer of doubles ([WindowStatsData]), the running [sum] and [sum_sq], the
    four statistics, and the SQLite callbacks [stats_step], [stats_inverse],
    [stats_value_helper] and [stats_final_helper].

    The C [double] is an interface ([Double]) with two instances: [exact]
    (rational arithmetic without rounding, plus the NAN constant) and
    [binary64] (IEEE 754 double precision, from the Standard Library's
    [SpecFloat]).  The C [int] is a 32-bit two's complement integer carried
    in [Z], with its wrap-around written out. *)

From Stdlib Require Import ZArith QArith Qcanon Lia Ascii String.
From Stdlib Require Import Floats.SpecFloat.
From stdpp Require Import base option list.

Local Open Scope Z_scope.

(** ** Machine integers *)

Module Int.

Definition INT_MIN : Z := -2147483648.
Definition INT_MAX : Z := 2147483647.
(** [malloc] refuses a request above [PTRDIFF_MAX] bytes. *)
Definition PTRDIFF_MAX : Z := 9223372036854775807.

(** A mathematical integer stored in an [int]. *)
Definition wrap (z : Z) : Z := (z + 2147483648) mod 4294967296 - 2147483648.

Definition add (a b : Z) : Z := wrap (a + b).
Definition sub (a b : Z) : Z := wrap (a - b).
Definition mul (a b : Z) : Z := wrap (a * b).
(** C's [%] truncates towards zero. *)
Definition rem (a b : Z) : Z := Z.rem a b.

(** Conversion of an [int] to [size_t] (64 bits, unsigned), and the
    product computed in [size_t]. *)
Definition to_size (a : Z) : Z := a mod 18446744073709551616.
Definition size_mul (a b : Z) : Z := (a * b) mod 18446744073709551616.

End Int.

(** ** The numeric interface of the C [double] *)

Class Double (F : Type) : Type := {
  d_zero : F;                 (* 0.0 *)
  d_nan : F;                  (* NAN *)
  d_add : F -> F -> F;
  d_sub : F -> F -> F;
  d_mul : F -> F -> F;
  d_div : F -> F -> F;
  d_of_int : Z -> F;          (* (double) i *)
  d_isnan : F -> bool;        (* isnan *)
  d_isinf : F -> bool         (* isinf *)
}.

(** [sqrt] from [math.h], used by the two standard deviations only. *)
Class DoubleSqrt (F : Type) : Type := { d_sqrt : F -> F }.

(** ** SQLite's side of the interface

    [sqlite3ext.h] is not part of the repository: the value types, the return
    codes and the result setters are modelled by what the callbacks use. *)

Inductive value_type : Type :=
  | SQLITE_INTEGER | SQLITE_FLOAT | SQLITE_TEXT | SQLITE_BLOB | SQLITE_NULL.

Inductive return_code : Type := SQLITE_OK | SQLITE_NOMEM.

Section Embedding.

Context {F : Type} `{Double F}.

(** An argument of a callback. *)
Inductive sqlite3_value : Type :=
  | SqlInteger (i : Z)
  | SqlFloat (f : F)
  | SqlText (s : string)
  | SqlBlob (b : list Z)
  | SqlNull.

Definition sqlite3_value_type (v : sqlite3_value) : value_type :=
  match v with
  | SqlInteger _ => SQLITE_INTEGER
  | SqlFloat _ => SQLITE_FLOAT
  | SqlText _ => SQLITE_TEXT
  | SqlBlob _ => SQLITE_BLOB
  | SqlNull => SQLITE_NULL
  end.

(** [sqlite3_value_double]; [stats_step] calls it on INTEGER and FLOAT
    values only, the other cases are never read. *)
Definition sqlite3_value_double (v : sqlite3_value) : F :=
  match v with
  | SqlInteger i => d_of_int i
  | SqlFloat f => f
  | _ => d_zero
  end.

(** What a callback has reported through [sqlite3_result_*]. *)
Inductive sqlite3_context : Type :=
  | ResultUnset
  | ResultNull
  | ResultDouble (r : F)
  | ResultError (msg : string)
  | ResultNomem.

(** What the host answers to the allocations of one callback: whether
    [sqlite3_aggregate_context] can allocate the context, and, when [malloc]
    succeeds, the uninitialised contents of the block it returns. *)
Record host : Type := {
  aggregate_context_ok : bool;
  malloc_block : option (nat -> F)
}.

Definition malloc (h : host) (size : Z) : option (list F) :=
  if size <=? Int.PTRDIFF_MAX
  then g ← malloc_block h; Some (g <$> seq 0 (Z.to_nat (size / 8)))
  else None.

(** *** The data model *)

Record WindowStatsData : Type := {
  values : option (list F);   (* NULL, or the circular buffer *)
  count : Z;
  capacity : Z;
  head : Z;
  tail : Z;
  sum : F;
  sum_sq : F
}.

(** [StatsWindowContext] has the single field [data]: it is its
    [WindowStatsData]. The aggregate context of a group is absent until
    [sqlite3_aggregate_context] allocates it, zeroed. *)
Definition StatsWindowContext : Type := WindowStatsData.

Definition zeroed : StatsWindowContext :=
  {| values := None; count := 0; capacity := 0; head := 0; tail := 0;
     sum := d_zero; sum_sq := d_zero |}.

Definition sizeof_StatsWindowContext : Z := 40.

(** [sqlite3_aggregate_context]: the context if the group has one; else a
    fresh zeroed one when [nbytes] is positive and the host can allocate
    it ([ok]); else NULL. With [nbytes = 0] nothing is ever allocated. *)
Definition sqlite3_aggregate_context (ok : bool) (agg : option StatsWindowContext)
    (nbytes : Z) : option StatsWindowContext :=
  match agg with
  | Some ctx => Some ctx
  | None => if (0 <? nbytes) && ok then Some zeroed else None
  end.

(** Array access. An index outside the block is undefined behaviour in C;
    here a read gives 0.0 and a write is dropped. *)
Definition load (p : option (list F)) (i : Z) : F :=
  match p with
  | Some a => if 0 <=? i then default d_zero (a !! Z.to_nat i) else d_zero
  | None => d_zero
  end.

Definition store (p : option (list F)) (i : Z) (v : F) : option (list F) :=
  match p with
  | Some a => if 0 <=? i then Some (<[Z.to_nat i := v]> a) else Some a
  | None => None
  end.

(** *** Circular buffer and calculation helpers *)

Definition get_circular_value (data : WindowStatsData) (logical_index : Z) : F :=
  let physical_index :=
    Int.rem (Int.add (head data) logical_index) (capacity data) in
  load (values data) physical_index.

Definition add_to_circular_buffer (data : WindowStatsData) (value : F)
    : WindowStatsData :=
  {| values := store (values data) (tail data) value;
     count := Int.add (count data) 1;
     capacity := capacity data;
     head := head data;
     tail := Int.rem (Int.add (tail data) 1) (capacity data);
     sum := sum data;
     sum_sq := sum_sq data |}.

Definition remove_from_circular_buffer (data : WindowStatsData)
    : F * WindowStatsData :=
  if count data =? 0 then (d_zero, data)
  else
    let removed_value := load (values data) (head data) in
    (removed_value,
     {| values := values data;
        count := Int.sub (count data) 1;
        capacity := capacity data;
        head := Int.rem (Int.add (head data) 1) (capacity data);
        tail := tail data;
        sum := sum data;
        sum_sq := sum_sq data |}).

Definition calculate_variance_sample (data : WindowStatsData) : F :=
  if count data <? 2 then d_nan
  else
    let mean := d_div (sum data) (d_of_int (count data)) in
    let variance_pop :=
      d_sub (d_div (sum_sq data) (d_of_int (count data))) (d_mul mean mean) in
    d_mul variance_pop
      (d_div (d_of_int (count data)) (d_of_int (Int.sub (count data) 1))).

Definition calculate_variance_population (data : WindowStatsData) : F :=
  if count data <? 1 then d_nan
  else
    let mean := d_div (sum data) (d_of_int (count data)) in
    d_sub (d_div (sum_sq data) (d_of_int (count data))) (d_mul mean mean).

Context `{DoubleSqrt F}.

Definition calculate_stddev_sample (data : WindowStatsData) : F :=
  let variance := calculate_variance_sample data in
  if d_isnan variance then d_nan else d_sqrt variance.

Definition calculate_stddev_population (data : WindowStatsData) : F :=
  let variance := calculate_variance_population data in
  if d_isnan variance then d_nan else d_sqrt variance.

(** *** Context management and result handling *)

Definition INITIAL_CAPACITY : Z := 100.
Definition CAPACITY_GROWTH_FACTOR : Z := 2.
Definition sizeof_double : Z := 8.

Definition init_window_stats_data (h : host) (context : sqlite3_context)
    (data : WindowStatsData) : return_code * sqlite3_context * WindowStatsData :=
  let capacity' := INITIAL_CAPACITY in
  match malloc h (Int.size_mul (Int.to_size capacity') sizeof_double) with
  | None =>
      (SQLITE_NOMEM, ResultNomem,
       {| values := None; count := count data; capacity := capacity';
          head := head data; tail := tail data;
          sum := sum data; sum_sq := sum_sq data |})
  | Some block =>
      (SQLITE_OK, context,
       {| values := Some block; count := 0; capacity := capacity';
          head := 0; tail := 0; sum := d_zero; sum_sq := d_zero |})
  end.

(** The copy loop of [grow_stats_buffer], for [i] from 0 below [count]. *)
Definition copy_logical (data : WindowStatsData) (new_values : list F) : list F :=
  foldl (fun nv i => <[Z.to_nat i := get_circular_value data i]> nv)
        new_values (seqZ 0 (count data)).

Definition grow_stats_buffer (h : host) (context : sqlite3_context)
    (data : WindowStatsData) : return_code * sqlite3_context * WindowStatsData :=
  let new_capacity := Int.mul (capacity data) CAPACITY_GROWTH_FACTOR in
  match malloc h (Int.size_mul (Int.to_size new_capacity) sizeof_double) with
  | None => (SQLITE_NOMEM, ResultNomem, data)
  | Some new_values =>
      (SQLITE_OK, context,
       {| values := Some (copy_logical data new_values);
          count := count data;
          capacity := new_capacity;
          head := 0;
          tail := count data;
          sum := sum data;
          sum_sq := sum_sq data |})
  end.

Definition set_result (context : sqlite3_context) (result : F) : sqlite3_context :=
  if d_isnan result || d_isinf result then ResultNull else ResultDouble result.

(** *** The callbacks

    A callback receives the aggregate context of its group and its own
    [sqlite3_context]; it returns both as it leaves them. *)

Definition is_null (p : option (list F)) : bool :=
  match p with None => true | Some _ => false end.

Definition stats_step (h : host) (agg : option StatsWindowContext)
    (context : sqlite3_context) (argv : list sqlite3_value)
    : option StatsWindowContext * sqlite3_context :=
  match argv with
  | [arg] =>
      match sqlite3_aggregate_context (aggregate_context_ok h) agg
              sizeof_StatsWindowContext with
      | None => (agg, ResultNomem)
      | Some ctx =>
          let '(rc, context, ctx) :=
            if is_null (values ctx) then init_window_stats_data h context ctx
            else (SQLITE_OK, context, ctx) in
          match rc with
          | SQLITE_NOMEM => (Some ctx, context)
          | SQLITE_OK =>
              match sqlite3_value_type arg with
              | SQLITE_NULL => (Some ctx, context)
              | SQLITE_INTEGER | SQLITE_FLOAT =>
                  let '(rc, context, ctx) :=
                    if capacity ctx <=? count ctx then grow_stats_buffer h context ctx
                    else (SQLITE_OK, context, ctx) in
                  match rc with
                  | SQLITE_NOMEM => (Some ctx, context)
                  | SQLITE_OK =>
                      let value := sqlite3_value_double arg in
                      let ctx := add_to_circular_buffer ctx value in
                      (Some {| values := values ctx; count := count ctx;
                               capacity := capacity ctx;
                               head := head ctx; tail := tail ctx;
                               sum := d_add (sum ctx) value;
                               sum_sq := d_add (sum_sq ctx) (d_mul value value) |},
                       context)
                  end
              | _ =>
                  (Some ctx,
                   ResultError "Invalid data type, expected numeric value.")
              end
          end
      end
  | _ => (agg, ResultError "Statistics functions require exactly 1 argument")
  end.

Definition stats_inverse (agg : option StatsWindowContext)
    (context : sqlite3_context) (argv : list sqlite3_value)
    : option StatsWindowContext * sqlite3_context :=
  match sqlite3_aggregate_context false agg 0 with
  | None => (agg, context)
  | Some ctx =>
      if is_null (values ctx) || (count ctx <=? 0) then (agg, context)
      else
        match argv with
        | arg :: _ =>
            match sqlite3_value_type arg with
            | SQLITE_NULL => (agg, context)
            | _ =>
                let '(removed_value, ctx) := remove_from_circular_buffer ctx in
                (Some {| values := values ctx; count := count ctx;
                         capacity := capacity ctx;
                         head := head ctx; tail := tail ctx;
                         sum := d_sub (sum ctx) removed_value;
                         sum_sq := d_sub (sum_sq ctx)
                                     (d_mul removed_value removed_value) |},
                 context)
            end
        | [] => (agg, context)
        end
  end.

Definition stats_func : Type := WindowStatsData -> F.

Definition stats_value_helper (agg : option StatsWindowContext)
    (context : sqlite3_context) (func : stats_func) (min_count : Z)
    : sqlite3_context :=
  match sqlite3_aggregate_context false agg 0 with
  | None => ResultNull
  | Some ctx =>
      if is_null (values ctx) || (count ctx <? min_count) then ResultNull
      else set_result context (func ctx)
  end.

Definition stats_final_helper (agg : option StatsWindowContext)
    (context : sqlite3_context) (func : stats_func) (min_count : Z)
    : option StatsWindowContext * sqlite3_context :=
  let context :=
    match sqlite3_aggregate_context false agg 0 with
    | Some ctx =>
        if negb (is_null (values ctx)) && (min_count <=? count ctx)
        then set_result context (func ctx) else ResultNull
    | None => ResultNull
    end in
  match sqlite3_aggregate_context false agg 0 with
  | Some ctx =>
      if negb (is_null (values ctx))
      then (Some {| values := None; count := count ctx; capacity := capacity ctx;
                    head := head ctx; tail := tail ctx;
                    sum := sum ctx; sum_sq := sum_sq ctx |}, context)
      else (agg, context)
  | None => (agg, context)
  end.

Definition stddev_samp_value agg context :=
  stats_value_helper agg context calculate_stddev_sample 2.
Definition stddev_pop_value agg context :=
  stats_value_helper agg context calculate_stddev_population 1.
Definition variance_samp_value agg context :=
  stats_value_helper agg context calculate_variance_sample 2.
Definition variance_pop_value agg context :=
  stats_value_helper agg context calculate_variance_population 1.

Definition stddev_samp_final agg context :=
  stats_final_helper agg context calculate_stddev_sample 2.
Definition stddev_pop_final agg context :=
  stats_final_helper agg context calculate_stddev_population 1.
Definition variance_samp_final agg context :=
  stats_final_helper agg context calculate_variance_sample 2.
Definition variance_pop_final agg context :=
  stats_final_helper agg context calculate_variance_population 1.

End Embedding.

Arguments sqlite3_value : clear implicits.
Arguments sqlite3_context : clear implicits.
Arguments host : clear implicits.
Arguments WindowStatsData : clear implicits.
Arguments StatsWindowContext : clear implicits.

(** ** Runs of the callbacks, and what the specification speaks of *)

Section Runs.

Context {F : Type} `{Double F}.

(** The calls SQLite makes on one group: [xStep] and [xInverse]. *)
Inductive call : Type :=
  | Step (h : host F) (argv : list (sqlite3_value F))
  | Inverse (argv : list (sqlite3_value F)).

Definition exec (agg : option (StatsWindowContext F)) (c : call)
    : option (StatsWindowContext F) * sqlite3_context F :=
  match c with
  | Step h argv => stats_step h agg ResultUnset argv
  | Inverse argv => stats_inverse agg ResultUnset argv
  end.

Definition run (agg : option (StatsWindowContext F)) (calls : list call)
    : option (StatsWindowContext F) :=
  foldl (fun a c => fst (exec a c)) agg calls.

(** What each call of a run reported. *)
Fixpoint trace (agg : option (StatsWindowContext F)) (calls : list call)
    : list (sqlite3_context F) :=
  match calls with
  | [] => []
  | c :: calls => snd (exec agg c) :: trace (fst (exec agg c)) calls
  end.

(** The values in the buffer, oldest first. Logical index [i] is physical
    index [(head + i) mod capacity], computed in the integers;
    [get_circular_value] computes it in [int]. *)
Definition peek_logical (data : WindowStatsData F) (i : Z) : F :=
  load (values data) ((head data + i) mod capacity data).

Definition buffered_data (data : WindowStatsData F) : list F :=
  peek_logical data <$> seqZ 0 (count data).

Definition buffered (agg : option (StatsWindowContext F)) : list F :=
  match agg with
  | Some ctx => buffered_data ctx
  | None => []
  end.

Definition initialised (agg : option (StatsWindowContext F)) : bool :=
  match agg with
  | Some ctx => negb (is_null (values ctx))
  | None => false
  end.

Definition is_numeric (v : sqlite3_value F) : bool :=
  match sqlite3_value_type v with
  | SQLITE_INTEGER | SQLITE_FLOAT => true
  | _ => false
  end.

Definition is_sql_null (v : sqlite3_value F) : bool :=
  match sqlite3_value_type v with
  | SQLITE_NULL => true
  | _ => false
  end.

(** A growth event: a call that finds a backing array and leaves one of
    another capacity. *)
Definition grew (before after : option (StatsWindowContext F)) : bool :=
  match before, after with
  | Some b, Some a =>
      negb (is_null (values b)) && negb (capacity a =? capacity b)
  | _, _ => false
  end.

Fixpoint growth_events (agg : option (StatsWindowContext F)) (calls : list call)
    : nat :=
  match calls with
  | [] => 0%nat
  | c :: calls =>
      ((if grew agg (fst (exec agg c)) then 1 else 0)
       + growth_events (fst (exec agg c)) calls)%nat
  end.

(** The running totals of a group; a group without a context has none. *)
Definition running_sum (agg : option (StatsWindowContext F)) : F :=
  match agg with Some ctx => sum ctx | None => d_zero end.

Definition running_sum_sq (agg : option (StatsWindowContext F)) : F :=
  match agg with Some ctx => sum_sq ctx | None => d_zero end.

Definition buffered_count (agg : option (StatsWindowContext F)) : Z :=
  match agg with Some ctx => count ctx | None => 0 end.

(** The first part of [stats_step], up to the type check: the context is
    obtained and, on the first call, initialised. [None] when
    [sqlite3_aggregate_context] returns NULL. *)
Definition initialise (h : host F) (agg : option (StatsWindowContext F))
    : option (return_code * sqlite3_context F * WindowStatsData F) :=
  match sqlite3_aggregate_context (aggregate_context_ok h) agg
          sizeof_StatsWindowContext with
  | None => None
  | Some ctx =>
      Some (if is_null (values ctx)
            then init_window_stats_data h ResultUnset ctx
            else (SQLITE_OK, ResultUnset, ctx))
  end.

(** The end of [stats_step]: the value is appended and added to the
    running totals. *)
Definition write_value (ctx : WindowStatsData F) (value : F) : WindowStatsData F :=
  let ctx := add_to_circular_buffer ctx value in
  {| values := values ctx; count := count ctx; capacity := capacity ctx;
     head := head ctx; tail := tail ctx;
     sum := d_add (sum ctx) value;
     sum_sq := d_add (sum_sq ctx) (d_mul value value) |}.

(** The capacity a group has, or will have once its buffer is allocated. *)
Definition buffer_capacity (agg : option (StatsWindowContext F)) : Z :=
  match agg with
  | Some ctx => if is_null (values ctx) then INITIAL_CAPACITY else capacity ctx
  | None => INITIAL_CAPACITY
  end.

(** Step calls that each pass one value, with the host of each call. *)
Definition inserts (steps : list (host F * sqlite3_value F)) : list call :=
  (fun p => Step p.1 [p.2]) <$> steps.

(** The error [stats_step] reports on a value that is not numeric. *)
Definition InvalidInput : sqlite3_context F :=
  ResultError "Invalid data type, expected numeric value.".

Definition all_numeric (steps : list (host F * sqlite3_value F)) : bool :=
  forallb (fun p : host F * sqlite3_value F => is_numeric p.2) steps.

Definition inserted_values (steps : list (host F * sqlite3_value F)) : list F :=
  (fun p : host F * sqlite3_value F => sqlite3_value_double p.2) <$> steps.

(** The three effects a call can have on what is buffered and on the
    running totals. *)
Definition kept (agg agg' : option (StatsWindowContext F)) : Prop :=
  buffered agg' = buffered agg /\
  running_sum agg' = running_sum agg /\
  running_sum_sq agg' = running_sum_sq agg.

Definition pushed (agg agg' : option (StatsWindowContext F)) (x : F) : Prop :=
  buffered agg' = buffered agg ++ [x] /\
  running_sum agg' = d_add (running_sum agg) x /\
  running_sum_sq agg' = d_add (running_sum_sq agg) (d_mul x x).

Definition popped (agg agg' : option (StatsWindowContext F)) : Prop :=
  match buffered agg with
  | [] => kept agg agg'
  | x :: q =>
      buffered agg' = q /\
      running_sum agg' = d_sub (running_sum agg) x /\
      running_sum_sq agg' = d_sub (running_sum_sq agg) (d_mul x x)
  end.

Definition effect (agg : option (StatsWindowContext F)) (c : call)
    (reported : sqlite3_context F) (agg' : option (StatsWindowContext F)) : Prop :=
  match c, reported with
  | Step _ [v], ResultUnset =>
      if is_numeric v then pushed agg agg' (sqlite3_value_double v)
      else kept agg agg'
  | Step _ _, _ => kept agg agg'
  | Inverse (v :: _), _ => if is_sql_null v then kept agg agg' else popped agg agg'
  | Inverse [], _ => kept agg agg'
  end.

(** *** The queue of the specification

    [push_back] appends, [pop_front] removes the oldest value. A call
    pushes when it is a step with one numeric argument that reported
    nothing (no OutOfMemory); it pops when it is an inverse whose argument
    is not NULL. *)
Definition push_back (q : list F) (v : F) : list F := q ++ [v].
Definition pop_front (q : list F) : list F := drop 1 q.

Definition fifo_call (q : list F) (c : call) (reported : sqlite3_context F)
    : list F :=
  match c, reported with
  | Step _ [v], ResultUnset =>
      if is_numeric v then push_back q (sqlite3_value_double v) else q
  | Step _ _, _ => q
  | Inverse (v :: _), _ => if is_sql_null v then q else pop_front q
  | Inverse [], _ => q
  end.

Fixpoint fifo (q : list F) (calls : list call)
    (reports : list (sqlite3_context F)) : list F :=
  match calls, reports with
  | c :: calls, r :: reports => fifo (fifo_call q c r) calls reports
  | _, _ => q
  end.

(** *** The direct (textbook) statistics of a list of values *)

Definition sum_of (xs : list F) : F := foldr d_add d_zero xs.

Definition sum_sq_of (xs : list F) : F :=
  foldr (fun x acc => d_add (d_mul x x) acc) d_zero xs.

Definition mean_of (xs : list F) : F :=
  d_div (sum_of xs) (d_of_int (Z.of_nat (length xs))).

Definition squared_deviations (xs : list F) : F :=
  sum_of ((fun x => d_mul (d_sub x (mean_of xs)) (d_sub x (mean_of xs))) <$> xs).

Definition direct_variance_sample (xs : list F) : F :=
  d_div (squared_deviations xs) (d_of_int (Z.of_nat (length xs) - 1)).

Definition direct_variance_population (xs : list F) : F :=
  d_div (squared_deviations xs) (d_of_int (Z.of_nat (length xs))).

(** *** The representation invariant of an initialised buffer *)

Record buffer_ok (data : WindowStatsData F) : Prop := {
  ok_block : exists a, values data = Some a /\ Z.of_nat (length a) = capacity data;
  ok_capacity : 0 < capacity data <= Int.INT_MAX;
  ok_count : 0 <= count data <= capacity data;
  ok_head : 0 <= head data < capacity data;
  ok_tail : tail data = (head data + count data) mod capacity data
}.

(** The context of a group: absent, allocated without a buffer (the first
    [malloc] failed), or holding a well-formed buffer. *)
Definition context_ok (agg : option (StatsWindowContext F)) : Prop :=
  match agg with
  | None => True
  | Some ctx =>
      match values ctx with
      | None => count ctx = 0 /\ sum ctx = d_zero /\ sum_sq ctx = d_zero
      | Some _ => buffer_ok ctx
      end
  end.

End Runs.

Arguments call : clear implicits.

(** ** Exact arithmetic: the rationals, with the NAN constant *)

Inductive exact : Type :=
  | Exact (q : Qc)
  | ExactNaN.

Definition exact_lift2 (op : Qc -> Qc -> Qc) (x y : exact) : exact :=
  match x, y with
  | Exact a, Exact b => Exact (op a b)
  | _, _ => ExactNaN
  end.

(** A quotient by zero has no value. *)
Definition exact_div (x y : exact) : exact :=
  match x, y with
  | Exact a, Exact b => if Qc_eq_dec b 0%Qc then ExactNaN else Exact (a / b)%Qc
  | _, _ => ExactNaN
  end.

#[export] Instance exact_double : Double exact := {|
  d_zero := Exact 0%Qc;
  d_nan := ExactNaN;
  d_add := exact_lift2 Qcplus;
  d_sub := exact_lift2 Qcminus;
  d_mul := exact_lift2 Qcmult;
  d_div := exact_div;
  d_of_int := fun z => Exact (Q2Qc (inject_Z z));
  d_isnan := fun x => match x with ExactNaN => true | Exact _ => false end;
  d_isinf := fun _ => false
|}.

Definition is_exact (x : exact) : bool :=
  match x with Exact _ => true | ExactNaN => false end.

(** SQLite stores no NaN: a value handed to a callback is a number. *)
Definition value_exact (v : sqlite3_value exact) : bool :=
  match v with
  | SqlFloat f => is_exact f
  | _ => true
  end.

Definition call_exact (c : call exact) : bool :=
  match c with
  | Step _ argv => forallb value_exact argv
  | Inverse _ => true
  end.

(** Sums of rationals, and the invariant of the running totals. *)
Definition Qsum (qs : list Qc) : Qc := foldr Qcplus 0%Qc qs.
Definition Qsum_sq (qs : list Qc) : Qc := foldr (fun q acc => (q * q + acc)%Qc) 0%Qc qs.
Definition Qn (n : nat) : Qc := Q2Qc (inject_Z (Z.of_nat n)).

Definition sums_exact (agg : option (StatsWindowContext exact)) : Prop :=
  exists qs, buffered agg = Exact <$> qs /\
             running_sum agg = Exact (Qsum qs) /\
             running_sum_sq agg = Exact (Qsum_sq qs).

(** A host whose allocations succeed; the fresh block holds NAN. *)
Definition exact_host : host exact :=
  {| aggregate_context_ok := true; malloc_block := Some (fun _ => ExactNaN) |}.

(** ** IEEE 754 double precision *)

Definition binary64 : Type := spec_float.

Definition prec : Z := 53.
Definition emax : Z := 1024.

#[export] Instance binary64_double : Double binary64 := {|
  d_zero := S754_zero false;
  d_nan := S754_nan;
  d_add := SFadd prec emax;
  d_sub := SFsub prec emax;
  d_mul := SFmul prec emax;
  d_div := SFdiv prec emax;
  d_of_int := fun z => binary_normalize prec emax z 0 false;
  d_isnan := fun x => match x with S754_nan => true | _ => false end;
  d_isinf := fun x => match x with S754_infinity _ => true | _ => false end
|}.

#[export] Instance binary64_sqrt : DoubleSqrt binary64 := {|
  d_sqrt := SFsqrt prec emax
|}.

Definition is_negative (x : binary64) : bool :=
  match x with
  | S754_finite true _ _ => true
  | _ => false
  end.

Definition is_finite (x : binary64) : bool :=
  match x with
  | S754_zero _ | S754_finite _ _ _ => true
  | _ => false
  end.

(** The double 1.0, which is [(double) 1]. *)
Definition one : binary64 := S754_finite false 4503599627370496 (-52).

(** A REAL that SQLite hands over is a double: its mantissa and exponent
    are those of the format. An INTEGER is converted by [d_of_int]. *)
Definition value_valid (v : sqlite3_value binary64) : bool :=
  match v with
  | SqlFloat f => valid_binary prec emax f
  | _ => true
  end.

(** A host whose allocations succeed (the fresh block holds NAN), and one
    whose allocations fail. *)
Definition binary64_host : host binary64 :=
  {| aggregate_context_ok := true; malloc_block := Some (fun _ => S754_nan) |}.

Definition failing_host : host binary64 :=
  {| aggregate_context_ok := false; malloc_block := None |}.

(** The doubles 0.2 and 2^600. *)
Definition two_tenths : binary64 := S754_finite false 7205759403792794 (-55).
Definition two_to_600 : binary64 := S754_finite false 4503599627370496 548.

(** Sample runs: the sliding window of the specification (1 to 5 inserted,
    then the oldest evicted), a single value, a buffer filled to its initial
    capacity, and 0.2 three times. *)
Definition window_calls : list (call exact) :=
  [Step exact_host [SqlInteger 1]; Step exact_host [SqlInteger 2];
   Step exact_host [SqlInteger 3]; Step exact_host [SqlInteger 4];
   Step exact_host [SqlInteger 5]; Inverse [SqlInteger 1]].

Definition single_call : list (call exact) := [Step exact_host [SqlInteger 7]].

Definition full_steps : list (host binary64 * sqlite3_value binary64) :=
  (fun i => (binary64_host, SqlInteger i)) <$> seqZ 1 100.

Definition full_buffer : WindowStatsData binary64 :=
  default zeroed (run None (inserts full_steps)).

Definition three_two_tenths : WindowStatsData binary64 :=
  default zeroed (run None [Step binary64_host [SqlFloat two_tenths];
                            Step binary64_host [SqlFloat two_tenths];
                            Step binary64_host [SqlFloat two_tenths]]).

(** ** The four statistics *)

Inductive statistic : Type :=
  | StddevSample | StddevPopulation | VarianceSample | VariancePopulation.

Section Statistics.

Context {F : Type} `{Double F} `{DoubleSqrt F}.

Definition calculate (s : statistic) : stats_func :=
  match s with
  | StddevSample => calculate_stddev_sample
  | StddevPopulation => calculate_stddev_population
  | VarianceSample => calculate_variance_sample
  | VariancePopulation => calculate_variance_population
  end.

Definition value_callback (s : statistic) (agg : option (StatsWindowContext F))
    (context : sqlite3_context F) : sqlite3_context F :=
  match s with
  | StddevSample => stddev_samp_value agg context
  | StddevPopulation => stddev_pop_value agg context
  | VarianceSample => variance_samp_value agg context
  | VariancePopulation => variance_pop_value agg context
  end.

Definition final_callback (s : statistic) (agg : option (StatsWindowContext F))
    (context : sqlite3_context F)
    : option (StatsWindowContext F) * sqlite3_context F :=
  match s with
  | StddevSample => stddev_samp_final agg context
  | StddevPopulation => stddev_pop_final agg context
  | VarianceSample => variance_samp_final agg context
  | VariancePopulation => variance_pop_final agg context
  end.

End Statistics.

(** The error [stats_step] reports on a call without exactly one argument. *)
Definition WrongArgumentCount {F : Type} : sqlite3_context F :=
  ResultError "Statistics functions require exactly 1 argument".

(** ** Registration of the functions

    [sqlite3_create_window_function] belongs to SQLite. A call is recorded
    with its arguments and with the code the host returned for it; [pApp] is
    always 0 and [xDestroy] always NULL. The codes and flags are those of
    [sqlite3.h]. *)

Definition RC_OK : Z := 0.
Definition RC_NOMEM : Z := 7.
Definition SQLITE_UTF8 : Z := 1.
Definition SQLITE_DETERMINISTIC : Z := 2048.
Definition SQLITE_INNOCUOUS : Z := 2097152.

(** The functions whose addresses are registered. *)
Inductive callback : Type :=
  | Ptr_stats_step
  | Ptr_stats_inverse
  | Ptr_value (s : statistic)
  | Ptr_final (s : statistic).

Record registration : Type := {
  reg_zName : string;
  reg_nArg : Z;
  reg_eTextRep : Z;
  reg_xStep : callback;
  reg_xFinal : callback;
  reg_xValue : callback;
  reg_xInverse : callback
}.

(** The calls made on a database connection so far, each with the code it
    returned, oldest first. *)
Definition sqlite3 : Type := list (registration * Z).

(** What the host answers during registration: the code of a call of
    [sqlite3_create_window_function], and whether [malloc] finds room for a
    name of the given size; both may depend on what happened before. *)
Record registrar : Type := {
  create_window_function_rc : sqlite3 -> registration -> Z;
  malloc_name_ok : sqlite3 -> Z -> bool
}.

Definition sqlite3_create_window_function (h : registrar) (db : sqlite3)
    (r : registration) : Z * sqlite3 :=
  let rc := create_window_function_rc h db r in (rc, db ++ [(r, rc)]).

(** One turn of the loop over [upper_name]: a letter from ['a'] to ['z']
    becomes [c - 'a' + 'A']. *)
Definition upper_char (c : ascii) : ascii :=
  let n := N_of_ascii c in
  if ((97 <=? n) && (n <=? 122))%N then ascii_of_N (n - 97 + 65) else c.

(** The copy of [name] after the loop, which runs to the terminating NUL. *)
Fixpoint upper_name (name : string) : string :=
  match name with
  | EmptyString => EmptyString
  | String c rest => String (upper_char c) (upper_name rest)
  end.

Definition register_unified_stats_function (h : registrar) (db : sqlite3)
    (name : string) (xFinal xValue : callback) : Z * sqlite3 :=
  let '(rc, db) :=
    sqlite3_create_window_function h db
      {| reg_zName := name; reg_nArg := 1;
         reg_eTextRep := Z.lor SQLITE_UTF8 SQLITE_DETERMINISTIC;
         reg_xStep := Ptr_stats_step; reg_xFinal := xFinal;
         reg_xValue := xValue; reg_xInverse := Ptr_stats_inverse |} in
  if negb (rc =? RC_OK) then (rc, db)
  else if negb (malloc_name_ok h db (Z.of_nat (String.length name) + 1))
  then (RC_NOMEM, db)
  else
    sqlite3_create_window_function h db
      {| reg_zName := upper_name name; reg_nArg := 1;
         reg_eTextRep :=
           Z.lor (Z.lor SQLITE_UTF8 SQLITE_DETERMINISTIC) SQLITE_INNOCUOUS;
         reg_xStep := Ptr_stats_step; reg_xFinal := xFinal;
         reg_xValue := xValue; reg_xInverse := Ptr_stats_inverse |}.

Record StatsFunctionGroup : Type := {
  names : list string;
  name_count : Z;
  xValue : callback;
  xFinal : callback
}.

Definition stddev_samp_names : list string :=
  ["stddev_samp"%string; "stddev_sample"%string; "stdev_samp"%string;
   "stdev_sample"%string; "stddev"%string; "stdev"%string; "std_dev"%string;
   "standard_deviation"%string].
Definition stddev_pop_names : list string :=
  ["stddev_pop"%string; "stddev_population"%string; "stdev_pop"%string;
   "stdev_population"%string].
Definition variance_samp_names : list string :=
  ["variance_samp"%string; "variance_sample"%string; "var_samp"%string;
   "var_sample"%string; "variance"%string; "var"%string].
Definition variance_pop_names : list string :=
  ["variance_pop"%string; "variance_population"%string; "var_pop"%string;
   "var_population"%string].

(** [sizeof(a) / sizeof(a[0])] of an array of names. *)
Definition array_length (a : list string) : Z := Z.of_nat (length a).

Definition functions_to_register : list StatsFunctionGroup :=
  [ {| names := stddev_samp_names; name_count := array_length stddev_samp_names;
       xValue := Ptr_value StddevSample; xFinal := Ptr_final StddevSample |};
    {| names := stddev_pop_names; name_count := array_length stddev_pop_names;
       xValue := Ptr_value StddevPopulation; xFinal := Ptr_final StddevPopulation |};
    {| names := variance_samp_names; name_count := array_length variance_samp_names;
       xValue := Ptr_value VarianceSample; xFinal := Ptr_final VarianceSample |};
    {| names := variance_pop_names; name_count := array_length variance_pop_names;
       xValue := Ptr_value VariancePopulation;
       xFinal := Ptr_final VariancePopulation |} ].

(** The inner loop of [sqlite3_extension_init], over the names [j], [j+1],
    ... of a group; it returns at the first code that is not [SQLITE_OK]. *)
Fixpoint register_names (h : registrar) (db : sqlite3) (ns : list string)
    (xFinal xValue : callback) : Z * sqlite3 :=
  match ns with
  | [] => (RC_OK, db)
  | name :: ns =>
      let '(rc, db) := register_unified_stats_function h db name xFinal xValue in
      if negb (rc =? RC_OK) then (rc, db)
      else register_names h db ns xFinal xValue
  end.

(** The outer loop, over the groups. *)
Fixpoint register_groups (h : registrar) (db : sqlite3)
    (groups : list StatsFunctionGroup) : Z * sqlite3 :=
  match groups with
  | [] => (RC_OK, db)
  | group :: groups =>
      let '(rc, db) :=
        register_names h db (take (Z.to_nat (name_count group)) (names group))
          (xFinal group) (xValue group) in
      if negb (rc =? RC_OK) then (rc, db)
      else register_groups h db groups
  end.

Definition sqlite3_extension_init (h : registrar) (db : sqlite3) : Z * sqlite3 :=
  register_groups h db functions_to_register.

(** The calls a complete registration makes: every name, then its upper
    case. *)
Definition lower_registration (name : string) (xFinal xValue : callback)
    : registration :=
  {| reg_zName := name; reg_nArg := 1;
     reg_eTextRep := Z.lor SQLITE_UTF8 SQLITE_DETERMINISTIC;
     reg_xStep := Ptr_stats_step; reg_xFinal := xFinal;
     reg_xValue := xValue; reg_xInverse := Ptr_stats_inverse |}.

Definition upper_registration (name : string) (xFinal xValue : callback)
    : registration :=
  {| reg_zName := upper_name name; reg_nArg := 1;
     reg_eTextRep :=
       Z.lor (Z.lor SQLITE_UTF8 SQLITE_DETERMINISTIC) SQLITE_INNOCUOUS;
     reg_xStep := Ptr_stats_step; reg_xFinal := xFinal;
     reg_xValue := xValue; reg_xInverse := Ptr_stats_inverse |}.

Definition registrations_of (name : string) (xFinal xValue : callback)
    : list registration :=
  [lower_registration name xFinal xValue; upper_registration name xFinal xValue].

Definition group_registrations (group : StatsFunctionGroup) : list registration :=
  names group ≫= (fun name => registrations_of name (xFinal group) (xValue group)).

Definition all_registrations : list registration :=
  functions_to_register ≫= group_registrations.

(** The name and the statistic behind each alias. *)
Definition alias_table : list (string * statistic) :=
  ((fun n => (n, StddevSample)) <$> stddev_samp_names)
  ++ ((fun n => (n, StddevPopulation)) <$> stddev_pop_names)
  ++ ((fun n => (n, VarianceSample)) <$> variance_samp_names)
  ++ ((fun n => (n, VariancePopulation)) <$> variance_pop_names).

Definition is_lower (c : ascii) : bool :=
  ((97 <=? N_of_ascii c) && (N_of_ascii c <=? 122))%N.

Definition calls_of (db : sqlite3) : list registration := fst <$> db.
Definition codes_of (db : sqlite3) : list Z := snd <$> db.

(** How a registration that was to make the calls [full] ended: the calls
    made are the first of [full], in order; all but the last returned
    SQLITE_OK; the code returned is SQLITE_OK exactly when all of [full] was
    called and accepted, and is otherwise the code of the last call, or
    SQLITE_NOMEM after an accepted call. *)
Definition registration_outcome (rc : Z) (made : sqlite3)
    (full : list registration) : Prop :=
  calls_of made `prefix_of` full /\
  Forall (fun c => c = RC_OK) (take (length made - 1) (codes_of made)) /\
  (rc = RC_OK <->
   calls_of made = full /\ Forall (fun c => c = RC_OK) (codes_of made)) /\
  (rc <> RC_OK ->
   last (codes_of made) = Some rc \/
   (rc = RC_NOMEM /\ last (codes_of made) = Some RC_OK)).

(** Calls that were all accepted. *)
Definition accepted_calls (rs : list registration) : sqlite3 :=
  (fun r => (r, RC_OK)) <$> rs.

(** Two names that SQLite takes for one: equal when letter case is ignored. *)
Definition same_function_name (a b : string) : Prop :=
  upper_name a = upper_name b.

#[local] Instance statistic_eq_dec : EqDecision statistic.
Proof. solve_decision. Defined.
#[local] Instance callback_eq_dec : EqDecision callback.
Proof. solve_decision. Defined.
#[local] Instance name_eq_dec : EqDecision string := String.string_dec.

(** A registrar that accepts everything. *)
Definition accepting : registrar :=
  {| create_window_function_rc := fun _ _ => RC_OK;
     malloc_name_ok := fun _ _ => true |}.

(** ** What of a context can be observed

    The fields of a context and the buffered values, oldest first; not the
    slots of the block that hold no buffered value. *)

Section Shapes.

Context {F : Type} `{Double F}.

Definition shape (ctx : WindowStatsData F)
    : bool * Z * Z * Z * Z * F * F * list F :=
  (is_null (values ctx), count ctx, capacity ctx, head ctx, tail ctx,
   sum ctx, sum_sq ctx, buffered_data ctx).

(** Whether [malloc] succeeds for the blocks the callbacks ask for. *)
Definition allocates (h : host F) : bool :=
  match malloc_block h with Some _ => true | None => false end.

(** Two hosts whose allocations succeed and fail alike; what a fresh block
    holds may differ. *)
Definition same_allocations (h1 h2 : host F) : Prop :=
  aggregate_context_ok h1 = aggregate_context_ok h2 /\
  allocates h1 = allocates h2.

Definition same_call (c1 c2 : call F) : Prop :=
  match c1, c2 with
  | Step h1 argv1, Step h2 argv2 => same_allocations h1 h2 /\ argv1 = argv2
  | Inverse argv1, Inverse argv2 => argv1 = argv2
  | _, _ => False
  end.

(** The numbers among the arguments of the rows, in the order of the rows. *)
Definition numeric_arguments (steps : list (host F * sqlite3_value F)) : list F :=
  sqlite3_value_double <$> filter (fun v => is_numeric v = true) (snd <$> steps).

End Shapes.

(** A host whose allocations succeed; the fresh block holds 0.0. *)
Definition zero_host : host binary64 :=
  {| aggregate_context_ok := true; malloc_block := Some (fun _ => S754_zero false) |}.

(** Three rows, the second one NULL. *)
Definition rows_with_null : list (host binary64 * sqlite3_value binary64) :=
  [(binary64_host, SqlInteger 1); (binary64_host, SqlNull);
   (binary64_host, SqlInteger 2)].

(** * Properties *)

(** ** Machine integers *)

Lemma wrap_small z : Int.INT_MIN <= z <= Int.INT_MAX -> Int.wrap z = z.
Proof.
  unfold Int.wrap, Int.INT_MIN, Int.INT_MAX. intros Hz.
  rewrite Z.mod_small by lia. lia.
Qed.

Lemma rem_nonneg a b : 0 <= a -> 0 < b -> Int.rem a b = a mod b.
Proof. intros Ha Hb. unfold Int.rem. apply Z.rem_mod_nonneg; lia. Qed.

Lemma mod_once x c :
  0 <= x < 2 * c -> x mod c = if x <? c then x else x - c.
Proof.
  intros Hx. destruct (Z.ltb_spec x c).
  - apply Z.mod_small. lia.
  - symmetry. apply (Z.mod_unique x c 1); lia.
Qed.

(** A doubled capacity that [malloc] accepts has not wrapped. *)
Lemma doubled_capacity_fits c :
  0 < c <= Int.INT_MAX ->
  Int.size_mul (Int.to_size (Int.mul c 2)) 8 <= Int.PTRDIFF_MAX ->
  Int.mul c 2 = 2 * c /\ 2 * c <= Int.INT_MAX /\
  Int.size_mul (Int.to_size (Int.mul c 2)) 8 / 8 = 2 * c.
Proof.
  unfold Int.mul, Int.wrap, Int.size_mul, Int.to_size, Int.INT_MAX, Int.PTRDIFF_MAX.
  intros Hc Hsz.
  destruct (Z.le_gt_cases (c * 2) 2147483647) as [Hfit|Hwrap].
  - rewrite (Z.mod_small (c * 2 + 2147483648)) in * by lia.
    replace (c * 2 + 2147483648 - 2147483648) with (2 * c) in * by lia.
    rewrite (Z.mod_small (2 * c)) by lia.
    rewrite (Z.mod_small (2 * c * 8)) by lia.
    repeat split; try lia. apply Z.div_mul. lia.
  - exfalso.
    assert (Hm : (c * 2 + 2147483648) mod 4294967296 = c * 2 - 2147483648).
    { symmetry. apply (Z.mod_unique _ _ 1); lia. }
    rewrite Hm in Hsz.
    assert (Hs : (c * 2 - 2147483648 - 2147483648) mod 18446744073709551616
                 = c * 2 - 4294967296 + 18446744073709551616).
    { symmetry. apply (Z.mod_unique _ _ (-1)); lia. }
    rewrite Hs in Hsz.
    assert (Hb : ((c * 2 - 4294967296 + 18446744073709551616) * 8)
                   mod 18446744073709551616
                 = (c * 2 - 4294967296) * 8 + 18446744073709551616).
    { symmetry. apply (Z.mod_unique _ _ 7); lia. }
    rewrite Hb in Hsz. lia.
Qed.

(** ** The circular buffer *)

Section BufferFacts.

Context {F : Type} `{Double F}.
Implicit Types (data : WindowStatsData F) (a : list F) (v : F).

Lemma load_block a i :
  0 <= i -> load (Some a) i = default d_zero (a !! Z.to_nat i).
Proof. intros Hi. unfold load. destruct (Z.leb_spec 0 i); [done | lia]. Qed.

Lemma store_block a i v :
  0 <= i -> store (Some a) i v = Some (<[Z.to_nat i := v]> a).
Proof. intros Hi. unfold store. destruct (Z.leb_spec 0 i); [done | lia]. Qed.

Lemma peek_logical_block data a i :
  values data = Some a -> 0 < capacity data ->
  peek_logical data i
  = default d_zero (a !! Z.to_nat ((head data + i) mod capacity data)).
Proof.
  intros Ha Hc. unfold peek_logical. rewrite Ha. apply load_block.
  apply Z.mod_pos_bound. lia.
Qed.

Lemma buffered_data_length data :
  length (buffered_data data) = Z.to_nat (count data).
Proof. unfold buffered_data. by rewrite length_fmap, length_seqZ. Qed.

(** [get_circular_value] is [peek_logical] as long as [head + i] fits an
    [int], which it does whenever twice the capacity does. *)
Lemma get_circular_value_peek data i :
  buffer_ok data -> 0 <= i <= capacity data -> 2 * capacity data <= Int.INT_MAX ->
  get_circular_value data i = peek_logical data i.
Proof.
  intros [_ Hc _ Hh _] Hi Hfit. unfold get_circular_value, peek_logical.
  unfold Int.add. rewrite wrap_small by (unfold Int.INT_MIN; lia).
  rewrite rem_nonneg by lia. done.
Qed.

Lemma malloc_Some (h : host F) size block :
  malloc h size = Some block ->
  size <= Int.PTRDIFF_MAX /\ length block = Z.to_nat (size / 8).
Proof.
  unfold malloc. destruct (Z.leb_spec size Int.PTRDIFF_MAX); [|done].
  destruct (malloc_block h) as [g|]; simpl; [|done].
  intros [= <-]. by rewrite length_fmap, length_seq.
Qed.

(** *** Appending at the tail *)

Lemma add_to_circular_buffer_ok data v :
  buffer_ok data -> count data < capacity data ->
  buffer_ok (add_to_circular_buffer data v).
Proof.
  intros [(a & Ha & Hlen) Hc Hn Hh Ht] Hroom.
  assert (Htl : 0 <= tail data < capacity data).
  { rewrite Ht. apply Z.mod_pos_bound. lia. }
  split; simpl.
  - exists (<[Z.to_nat (tail data) := v]> a). rewrite Ha, store_block by lia.
    by rewrite length_insert.
  - done.
  - unfold Int.add. rewrite wrap_small by (unfold Int.INT_MIN, Int.INT_MAX in *; lia).
    lia.
  - done.
  - unfold Int.add.
    rewrite !wrap_small by (unfold Int.INT_MIN, Int.INT_MAX in *; lia).
    rewrite rem_nonneg by lia. rewrite Ht.
    rewrite Z.add_mod_idemp_l by lia. f_equal. lia.
Qed.

Lemma add_to_circular_buffer_buffered data v :
  buffer_ok data -> count data < capacity data ->
  buffered_data (add_to_circular_buffer data v) = buffered_data data ++ [v].
Proof.
  intros [(a & Ha & Hlen) Hc Hn Hh Ht] Hroom.
  assert (Htl : 0 <= tail data < capacity data).
  { rewrite Ht. apply Z.mod_pos_bound. lia. }
  unfold buffered_data. simpl.
  unfold Int.add at 1. rewrite wrap_small by (unfold Int.INT_MIN, Int.INT_MAX in *; lia).
  rewrite seqZ_app, fmap_app by lia. f_equal.
  - apply list_fmap_ext. intros k i [-> Hi]%lookup_seqZ.
    unfold peek_logical. simpl. rewrite Ha, store_block by lia.
    rewrite !load_block by (apply Z.mod_pos_bound; lia).
    rewrite list_lookup_insert_ne; [done|].
    rewrite Ht.
    rewrite !(mod_once _ (capacity data)) by lia.
    repeat case_match; lia.
  - rewrite Z.add_0_l, seqZ_cons, seqZ_nil by lia. simpl. f_equal.
    unfold peek_logical. simpl. rewrite Ha, store_block by lia.
    rewrite <- Ht, load_block by lia.
    rewrite list_lookup_insert_eq by lia. done.
Qed.

(** *** Removing at the head *)

Lemma remove_from_circular_buffer_ok data :
  buffer_ok data -> 0 < count data ->
  buffer_ok (snd (remove_from_circular_buffer data)).
Proof.
  intros [(a & Ha & Hlen) Hc Hn Hh Ht] Hpos.
  unfold remove_from_circular_buffer.
  destruct (Z.eqb_spec (count data) 0); [lia|]. simpl.
  assert (Hhd : Int.rem (Int.add (head data) 1) (capacity data)
                = (head data + 1) mod capacity data).
  { unfold Int.add. rewrite wrap_small by (unfold Int.INT_MIN, Int.INT_MAX in *; lia).
    apply rem_nonneg; lia. }
  split; simpl.
  - by exists a.
  - done.
  - unfold Int.sub. rewrite wrap_small by (unfold Int.INT_MIN, Int.INT_MAX in *; lia).
    lia.
  - rewrite Hhd. apply Z.mod_pos_bound. lia.
  - rewrite Hhd, Ht. unfold Int.sub.
    rewrite wrap_small by (unfold Int.INT_MIN, Int.INT_MAX in *; lia).
    rewrite Z.add_mod_idemp_l by lia. f_equal. lia.
Qed.

Lemma remove_from_circular_buffer_buffered data :
  buffer_ok data -> 0 < count data ->
  buffered_data data
  = fst (remove_from_circular_buffer data)
    :: buffered_data (snd (remove_from_circular_buffer data)).
Proof.
  intros [(a & Ha & Hlen) Hc Hn Hh Ht] Hpos.
  unfold remove_from_circular_buffer.
  destruct (Z.eqb_spec (count data) 0); [lia|]. simpl.
  unfold buffered_data. simpl.
  unfold Int.sub. rewrite wrap_small by (unfold Int.INT_MIN, Int.INT_MAX in *; lia).
  rewrite (seqZ_cons 0 (count data)) by lia. simpl. f_equal.
  - unfold peek_logical. rewrite Z.add_0_r, Z.mod_small by lia. done.
  - replace (Z.pred (count data)) with (count data - 1) by lia.
    rewrite <- (fmap_add_seqZ 1 0), <- list_fmap_compose.
    apply list_fmap_ext. intros k i _. simpl.
    unfold peek_logical. simpl. f_equal.
    unfold Int.add. rewrite wrap_small by (unfold Int.INT_MIN, Int.INT_MAX in *; lia).
    rewrite rem_nonneg by lia.
    rewrite Z.add_mod_idemp_l by lia. f_equal. lia.
Qed.

End BufferFacts.

(** ** Growth *)

Section GrowthFacts.

Context {F : Type} `{Double F}.
Implicit Types (data : WindowStatsData F) (a : list F) (v : F).

(** The copy loop writes [f 0 .. f (n-1)] over the first [n] slots. *)
Lemma copy_loop (f : Z -> F) a (n : nat) :
  (n <= length a)%nat ->
  foldl (fun nv i => <[Z.to_nat i := f i]> nv) a (seqZ 0 (Z.of_nat n))
  = (f <$> seqZ 0 (Z.of_nat n)) ++ drop n a.
Proof.
  induction n as [|n IH]; intros Hn.
  - by rewrite seqZ_nil.
  - rewrite seqZ_S, foldl_app, fmap_app, IH by lia. simpl.
    rewrite Z.add_0_l, Nat2Z.id, <- (assoc_L (++)). simpl.
    destruct (lookup_lt_is_Some_2 a n) as [x Hx]; [lia|].
    rewrite (drop_S a x n Hx).
    rewrite insert_app_r_alt by (rewrite length_fmap, length_seqZ; lia).
    rewrite length_fmap, length_seqZ, Nat2Z.id, Nat.sub_diag. done.
Qed.

Lemma copy_logical_spec data a :
  0 <= count data -> (Z.to_nat (count data) <= length a)%nat ->
  copy_logical data a
  = (get_circular_value data <$> seqZ 0 (count data))
    ++ drop (Z.to_nat (count data)) a.
Proof.
  intros Hn Hlen. unfold copy_logical.
  rewrite <- (Z2Nat.id (count data)) at 1 2 by done.
  by rewrite copy_loop.
Qed.

Lemma grow_stats_buffer_NOMEM h context data context' data' :
  grow_stats_buffer h context data = (SQLITE_NOMEM, context', data') ->
  context' = ResultNomem /\ data' = data.
Proof.
  unfold grow_stats_buffer. destruct (malloc h _); [done|]. by intros [= <- <-].
Qed.

Lemma grow_stats_buffer_OK h context data context' data' :
  buffer_ok data ->
  grow_stats_buffer h context data = (SQLITE_OK, context', data') ->
  context' = context /\ buffer_ok data' /\
  capacity data' = 2 * capacity data /\ count data' = count data /\
  head data' = 0 /\ tail data' = count data /\
  sum data' = sum data /\ sum_sq data' = sum_sq data /\
  (forall i, 0 <= i < count data ->
     load (values data') i = peek_logical data i) /\
  buffered_data data' = buffered_data data.
Proof.
  intros Hok. pose proof Hok as [(a & Ha & Hlen) Hc Hn Hh Ht].
  unfold grow_stats_buffer, CAPACITY_GROWTH_FACTOR, sizeof_double.
  destruct (malloc h _) as [block|] eqn:Hm; [|done].
  apply malloc_Some in Hm as [Hsz Hblock].
  destruct (doubled_capacity_fits _ Hc Hsz) as (Hmul & Hfit & Hdiv).
  rewrite Hdiv in Hblock. rewrite Hmul.
  intros [= <- <-]. simpl.
  assert (Hcopy : copy_logical data block
                  = buffered_data data ++ drop (Z.to_nat (count data)) block).
  { rewrite copy_logical_spec by lia. f_equal. unfold buffered_data.
    apply list_fmap_ext. intros k i [-> Hi]%lookup_seqZ.
    apply get_circular_value_peek; [done | lia | lia]. }
  assert (Hslot : forall i, 0 <= i < count data ->
            load (Some (copy_logical data block)) i = peek_logical data i).
  { intros i Hi. rewrite load_block, Hcopy by lia.
    rewrite lookup_app_l by (rewrite buffered_data_length; lia).
    unfold buffered_data. rewrite list_lookup_fmap.
    rewrite lookup_seqZ_lt by lia. simpl. f_equal. lia. }
  repeat split; try done; simpl; try lia.
  - exists (copy_logical data block). split; [done|].
    rewrite Hcopy, length_app, buffered_data_length, length_drop. lia.
  - rewrite Z.add_0_l, Z.mod_small; lia.
  - unfold buffered_data at 1. simpl.
    unfold buffered_data. apply list_fmap_ext. intros k i [-> Hi]%lookup_seqZ.
    unfold peek_logical at 1. simpl.
    rewrite Z.add_0_l, Z.mod_small by lia. apply Hslot. lia.
Qed.

End GrowthFacts.

(** ** The callbacks, one call at a time *)

Section CallFacts.

Context {F : Type} `{Double F}.
Implicit Types (data ctx : WindowStatsData F) (agg : option (StatsWindowContext F)).
Implicit Types (arg : sqlite3_value F) (h : host F).

Lemma init_window_stats_data_NOMEM h context data context' data' :
  init_window_stats_data h context data = (SQLITE_NOMEM, context', data') ->
  context' = ResultNomem /\ values data' = None /\ count data' = count data /\
  sum data' = sum data /\ sum_sq data' = sum_sq data.
Proof.
  unfold init_window_stats_data. destruct (malloc h _); [done|].
  by intros [= <- <-].
Qed.

Lemma init_window_stats_data_OK h context data context' data' :
  init_window_stats_data h context data = (SQLITE_OK, context', data') ->
  context' = context /\ buffer_ok data' /\ capacity data' = INITIAL_CAPACITY /\
  count data' = 0 /\ sum data' = d_zero /\ sum_sq data' = d_zero.
Proof.
  unfold init_window_stats_data. destruct (malloc h _) as [block|] eqn:Hm; [|done].
  apply malloc_Some in Hm as [_ Hlen]. intros [= <- <-].
  repeat split; simpl; try done.
  exists block. split; [done|]. rewrite Hlen. by vm_compute.
Qed.

(** [stats_step] with one argument, split at the type check. *)
Lemma stats_step_unfold h agg arg :
  stats_step h agg ResultUnset [arg]
  = match initialise h agg with
    | None => (agg, ResultNomem)
    | Some (SQLITE_NOMEM, context, ctx) => (Some ctx, context)
    | Some (SQLITE_OK, context, ctx) =>
        match sqlite3_value_type arg with
        | SQLITE_NULL => (Some ctx, context)
        | SQLITE_INTEGER | SQLITE_FLOAT =>
            let '(rc, context, ctx) :=
              if capacity ctx <=? count ctx then grow_stats_buffer h context ctx
              else (SQLITE_OK, context, ctx) in
            match rc with
            | SQLITE_NOMEM => (Some ctx, context)
            | SQLITE_OK =>
                let value := sqlite3_value_double arg in
                let ctx := add_to_circular_buffer ctx value in
                (Some {| values := values ctx; count := count ctx;
                         capacity := capacity ctx;
                         head := head ctx; tail := tail ctx;
                         sum := d_add (sum ctx) value;
                         sum_sq := d_add (sum_sq ctx) (d_mul value value) |},
                 context)
            end
        | _ => (Some ctx, ResultError "Invalid data type, expected numeric value.")
        end
    end.
Proof.
  unfold stats_step, initialise.
  destruct (sqlite3_aggregate_context _ agg _) as [ctx|]; [|done].
  destruct (if is_null (values ctx) then _ else _) as [[[] context] ctx']; done.
Qed.

(** What [initialise] leaves: no context, a context without a buffer
    (OutOfMemory), or a well-formed buffer; what was buffered and the
    running totals are as before. *)
Lemma initialise_spec h agg :
  context_ok agg ->
  match initialise h agg with
  | None => agg = None
  | Some (rc, context, ctx) =>
      kept agg (Some ctx) /\ count ctx = buffered_count agg /\
      match rc with
      | SQLITE_NOMEM =>
          context = ResultNomem /\ initialised agg = false /\
          context_ok (Some ctx) /\ values ctx = None
      | SQLITE_OK =>
          context = ResultUnset /\ buffer_ok ctx /\
          (initialised agg = true -> agg = Some ctx) /\
          (initialised agg = false -> capacity ctx = INITIAL_CAPACITY)
      end
  end.
Proof.
  intros Hok. unfold initialise, sqlite3_aggregate_context.
  assert (Hfresh : forall ctx : WindowStatsData F,
            count ctx = 0 -> buffered_data ctx = []).
  { intros ctx Hn. unfold buffered_data. by rewrite Hn. }
  destruct agg as [ctx|]; simpl.
  - destruct (values ctx) as [a|] eqn:Ha; simpl.
    + simpl in Hok. rewrite Ha in Hok. split_and!; done.
    + simpl in Hok. rewrite Ha in Hok. destruct Hok as (Hn & Hs & Hq).
      destruct (init_window_stats_data h ResultUnset ctx) as [[[] context] ctx'] eqn:Hi.
      * apply init_window_stats_data_OK in Hi as (-> & Hb & Hc & Hn' & Hs' & Hq').
        unfold kept. simpl. rewrite !Hfresh by done.
        split_and!; try done; congruence.
      * apply init_window_stats_data_NOMEM in Hi as (-> & Hv & Hn' & Hs' & Hq').
        unfold kept. simpl. rewrite !Hfresh by congruence. rewrite Hv.
        split_and!; try done; congruence.
  - destruct (aggregate_context_ok h); simpl; [|done].
    destruct (init_window_stats_data h ResultUnset zeroed) as [[[] context] ctx'] eqn:Hi.
    * apply init_window_stats_data_OK in Hi as (-> & Hb & Hc & Hn' & Hs' & Hq').
      unfold kept. simpl. rewrite !Hfresh by done.
      split_and!; try done; congruence.
    * apply init_window_stats_data_NOMEM in Hi as (-> & Hv & Hn' & Hs' & Hq').
      unfold kept. simpl in *. rewrite !Hfresh by congruence. rewrite Hv.
      split_and!; try done; congruence.
Qed.

End CallFacts.

Section CallEffects.

Context {F : Type} `{Double F}.
Implicit Types (data ctx : WindowStatsData F) (agg : option (StatsWindowContext F)).
Implicit Types (arg : sqlite3_value F) (h : host F).

Lemma kept_refl agg : kept agg agg.
Proof. by split_and!. Qed.

Lemma context_ok_buffer ctx : buffer_ok ctx -> context_ok (Some ctx).
Proof. intros Hb. pose proof Hb as [(a & Ha & _) _ _ _ _]. simpl. by rewrite Ha. Qed.

(** The write of [stats_step] once there is room. *)
Lemma step_write_effect agg ctx x :
  buffer_ok ctx -> count ctx < capacity ctx -> kept agg (Some ctx) ->
  let ctx' := add_to_circular_buffer ctx x in
  let ctx'' :=
    {| values := values ctx'; count := count ctx'; capacity := capacity ctx';
       head := head ctx'; tail := tail ctx';
       sum := d_add (sum ctx') x;
       sum_sq := d_add (sum_sq ctx') (d_mul x x) |} in
  context_ok (Some ctx'') /\ pushed agg (Some ctx'') x.
Proof.
  intros Hb Hroom (Hq & Hs & Hsq) ctx' ctx''.
  pose proof (add_to_circular_buffer_ok ctx x Hb Hroom) as Hb'.
  pose proof (add_to_circular_buffer_buffered ctx x Hb Hroom) as Hq'.
  split.
  - apply context_ok_buffer. destruct Hb'. split; simpl; assumption.
  - unfold pushed. simpl in *. rewrite <- Hq, <- Hs, <- Hsq, <- Hq'. done.
Qed.

Lemma stats_step_effect h agg argv :
  context_ok agg ->
  context_ok (fst (stats_step h agg ResultUnset argv)) /\
  effect agg (Step h argv) (snd (stats_step h agg ResultUnset argv))
         (fst (stats_step h agg ResultUnset argv)).
Proof.
  intros Hok.
  destruct argv as [|arg [|arg' argv]];
    [by split; [|apply kept_refl] | | by split; [|apply kept_refl]].
  rewrite stats_step_unfold. pose proof (initialise_spec h agg Hok) as Hinit.
  destruct (initialise h agg) as [[[rc context] ctx]|].
  2:{ subst agg. simpl. split; [done | apply kept_refl]. }
  destruct Hinit as (Hkept & Hcount & Hrc).
  destruct rc.
  2:{ destruct Hrc as (-> & _ & Hok' & _). simpl. by split. }
  destruct Hrc as (-> & Hb & _ & _).
  unfold effect, is_numeric.
  destruct (sqlite3_value_type arg) eqn:Hty; simpl;
    try (split; [by apply context_ok_buffer | done]).
  all: destruct (Z.leb_spec (capacity ctx) (count ctx)) as [Hfull|Hroom].
  all: try (apply step_write_effect; done).
  all: destruct (grow_stats_buffer h ResultUnset ctx) as [[[] context'] ctx'] eqn:Hg.
  all: try (apply grow_stats_buffer_NOMEM in Hg as [-> ->]; simpl;
            split; [by apply context_ok_buffer | done]).
  all: apply (grow_stats_buffer_OK _ _ _ _ _ Hb) in Hg
         as (-> & Hb' & Hcap & Hn & _ & _ & Hs & Hsq & _ & Hq).
  all: apply step_write_effect; [done | destruct Hb; lia |].
  all: destruct Hkept as (Hk1 & Hk2 & Hk3); split_and!; simpl in *; congruence.
Qed.

Lemma stats_inverse_effect agg argv :
  context_ok agg ->
  context_ok (fst (stats_inverse agg ResultUnset argv)) /\
  effect agg (Inverse argv) (snd (stats_inverse agg ResultUnset argv))
         (fst (stats_inverse agg ResultUnset argv)).
Proof.
  intros Hok. unfold stats_inverse, sqlite3_aggregate_context, effect.
  assert (Hnone : buffered agg = [] -> forall agg', kept agg agg' -> popped agg agg').
  { intros Hq agg' Hk. unfold popped. by rewrite Hq. }
  destruct agg as [ctx|]; simpl.
  2:{ split; [done|]. destruct argv as [|arg argv]; [apply kept_refl|].
      destruct (is_sql_null arg); [apply kept_refl|].
      apply Hnone; [done | apply kept_refl]. }
  destruct (values ctx) as [a|] eqn:Ha; simpl.
  2:{ split; [done|]. simpl in Hok. rewrite Ha in Hok. destruct Hok as (Hn & _).
      destruct argv as [|arg argv]; [apply kept_refl|].
      destruct (is_sql_null arg); [apply kept_refl|].
      apply Hnone; [|apply kept_refl]. simpl. unfold buffered_data. by rewrite Hn. }
  simpl in Hok. rewrite Ha in Hok.
  destruct (Z.leb_spec (count ctx) 0) as [Hempty|Hpos]; simpl.
  { split; [by apply context_ok_buffer|].
    destruct argv as [|arg argv]; [apply kept_refl|].
    destruct (is_sql_null arg); [apply kept_refl|].
    apply Hnone; [|apply kept_refl]. simpl. unfold buffered_data.
    by rewrite seqZ_nil. }
  destruct argv as [|arg argv]; simpl.
  { split; [by apply context_ok_buffer | apply kept_refl]. }
  unfold is_sql_null.
  destruct (sqlite3_value_type arg) eqn:Hty; simpl;
    try (split; [by apply context_ok_buffer | apply kept_refl]).
  all: pose proof (remove_from_circular_buffer_ok ctx Hok Hpos) as Hb'.
  all: pose proof (remove_from_circular_buffer_buffered ctx Hok Hpos) as Hq.
  all: destruct (remove_from_circular_buffer ctx) as [removed ctx'] eqn:Hr.
  all: cbn [fst snd] in *; split;
    [ apply context_ok_buffer; destruct Hb'; split; simpl; assumption
    | unfold popped; simpl; rewrite Hq; simpl; split_and!; try done ].
  all: unfold remove_from_circular_buffer in Hr;
    destruct (Z.eqb_spec (count ctx) 0); [lia|]; by injection Hr as <- <-.
Qed.

Lemma exec_effect agg c :
  context_ok agg ->
  context_ok (fst (exec agg c)) /\ effect agg c (snd (exec agg c)) (fst (exec agg c)).
Proof.
  destruct c as [h argv|argv]; simpl.
  - apply stats_step_effect.
  - apply stats_inverse_effect.
Qed.

Lemma run_context_ok agg calls : context_ok agg -> context_ok (run agg calls).
Proof.
  revert agg. induction calls as [|c calls IH]; intros agg Hok; [done|].
  simpl. apply IH. by apply exec_effect.
Qed.

(** In any order of calls the buffer is the queue of the specification. *)
Lemma effect_fifo agg c r agg' :
  effect agg c r agg' -> buffered agg' = fifo_call (buffered agg) c r.
Proof.
  unfold effect, fifo_call, popped, pushed, kept, push_back, pop_front.
  destruct c as [h [|v [|w argv]]|[|v argv]]; try by intros (-> & _).
  - destruct r; try by intros (-> & _).
    destruct (is_numeric v); by intros (-> & _).
  - destruct (is_sql_null v); [by intros (-> & _)|].
    destruct (buffered agg); by intros (-> & _).
Qed.

Lemma run_fifo agg calls :
  context_ok agg ->
  buffered (run agg calls) = fifo (buffered agg) calls (trace agg calls).
Proof.
  revert agg. induction calls as [|c calls IH]; intros agg Hok; [done|].
  simpl. destruct (exec_effect agg c Hok) as [Hok' Heff].
  rewrite (IH _ Hok'). f_equal. by apply effect_fifo.
Qed.

Lemma context_ok_count agg :
  context_ok agg -> buffered_count agg = Z.of_nat (length (buffered agg)).
Proof.
  destruct agg as [ctx|]; simpl; [|done].
  rewrite buffered_data_length.
  destruct (values ctx); [intros [_ _ Hn _ _]; lia | intros (-> & _); done].
Qed.

End CallEffects.

(** ** Exact arithmetic: the running totals *)

Section ExactFacts.

Implicit Types (agg : option (StatsWindowContext exact)) (qs : list Qc).

Lemma Qn_S n : Qn (S n) = (Qn n + 1)%Qc.
Proof.
  unfold Qn. rewrite Nat2Z.inj_succ, <- Z.add_1_r.
  apply Qc_is_canon. unfold Qcplus, Q2Qc. cbn [this].
  rewrite !Qred_correct, inject_Z_plus. reflexivity.
Qed.

Lemma Qn_pos n : (0 < n)%nat -> Qn n <> 0%Qc.
Proof.
  intros Hn Heq. assert (Hq : (this (Qn n) == 0)%Q) by (by rewrite Heq).
  unfold Qn in Hq. simpl in Hq. rewrite Qred_correct in Hq.
  unfold Qeq in Hq. simpl in Hq. lia.
Qed.

Lemma Qsum_app qs1 qs2 : Qsum (qs1 ++ qs2) = (Qsum qs1 + Qsum qs2)%Qc.
Proof. induction qs1 as [|q qs1 IH]; simpl; [ring | rewrite IH; ring]. Qed.

Lemma Qsum_sq_app qs1 qs2 : Qsum_sq (qs1 ++ qs2) = (Qsum_sq qs1 + Qsum_sq qs2)%Qc.
Proof. induction qs1 as [|q qs1 IH]; simpl; [ring | rewrite IH; ring]. Qed.

Lemma sum_of_exact qs : sum_of (Exact <$> qs) = Exact (Qsum qs).
Proof.
  induction qs as [|q qs IH]; [done|]. rewrite fmap_cons.
  change (sum_of (Exact q :: (Exact <$> qs)))
    with (d_add (Exact q) (sum_of (Exact <$> qs))).
  by rewrite IH.
Qed.

Lemma sum_sq_of_exact qs : sum_sq_of (Exact <$> qs) = Exact (Qsum_sq qs).
Proof.
  induction qs as [|q qs IH]; [done|]. rewrite fmap_cons.
  change (sum_sq_of (Exact q :: (Exact <$> qs)))
    with (d_add (d_mul (Exact q) (Exact q)) (sum_sq_of (Exact <$> qs))).
  by rewrite IH.
Qed.

(** Expanding the squared deviations from any centre [c]. *)
Lemma Qsum_deviations qs (c : Qc) :
  Qsum ((fun q => (q - c) * (q - c))%Qc <$> qs)
  = (Qsum_sq qs - 2 * c * Qsum qs + Qn (length qs) * c * c)%Qc.
Proof.
  induction qs as [|q qs IH].
  - assert (H0 : Qn 0 = 0%Qc) by (apply Qc_is_canon; reflexivity).
    rewrite fmap_nil. change (length (@nil Qc)) with 0%nat. rewrite H0.
    unfold Qsum, Qsum_sq. cbn [foldr]. ring.
  - rewrite fmap_cons. cbn [length]. rewrite Qn_S.
    unfold Qsum, Qsum_sq in *. cbn [foldr]. rewrite IH. ring.
Qed.

Lemma value_exact_double (v : sqlite3_value exact) :
  value_exact v = true -> exists q, sqlite3_value_double v = Exact q.
Proof. destruct v as [i|[q|]| | |]; simpl; intros Hv; try done; eauto. Qed.

Lemma sums_exact_None : sums_exact None.
Proof. by exists []. Qed.

Lemma exec_sums_exact agg c :
  context_ok agg -> sums_exact agg -> call_exact c = true ->
  sums_exact (fst (exec agg c)).
Proof.
  intros Hok (qs & Hq & Hs & Hsq) Hc.
  destruct (exec_effect agg c Hok) as [_ Heff].
  assert (Hkept : forall agg', kept agg agg' -> sums_exact agg').
  { intros agg' (Hk1 & Hk2 & Hk3). exists qs. by rewrite Hk1, Hk2, Hk3. }
  unfold effect in Heff.
  destruct c as [h [|v [|w argv]]|[|v argv]]; try by apply Hkept.
  - destruct (snd (exec agg (Step h [v]))); try by apply Hkept.
    destruct (is_numeric v); [|by apply Hkept].
    simpl in Hc. apply andb_true_iff in Hc as [Hv _].
    destruct (value_exact_double v Hv) as [q Hx]. rewrite Hx in Heff.
    destruct Heff as (Hp1 & Hp2 & Hp3). exists (qs ++ [q]).
    rewrite Hp1, Hp2, Hp3, Hq, Hs, Hsq, fmap_app, Qsum_app, Qsum_sq_app. simpl.
    split_and!; [done | f_equal; ring | f_equal; ring].
  - destruct (is_sql_null v); [by apply Hkept|].
    unfold popped in Heff. rewrite Hq in Heff.
    destruct qs as [|q qs]; [by apply Hkept|].
    rewrite fmap_cons in Heff.
    destruct Heff as (Hp1 & Hp2 & Hp3). exists qs.
    rewrite Hp1, Hp2, Hp3, Hs, Hsq. simpl.
    split_and!; [done | f_equal; ring | f_equal; ring].
Qed.

Lemma run_sums_exact agg calls :
  context_ok agg -> sums_exact agg -> forallb call_exact calls = true ->
  sums_exact (run agg calls).
Proof.
  revert agg. induction calls as [|c calls IH]; intros agg Hok Hsum Hc; [done|].
  simpl in Hc. apply andb_true_iff in Hc as [Hc Hcs].
  simpl. apply IH; [by apply exec_effect | by apply exec_sums_exact | done].
Qed.

End ExactFacts.

(** ** Exact arithmetic: the variances *)

Section ExactVariance.

Implicit Types (ctx : WindowStatsData exact) (qs : list Qc).

Lemma exact_div_nonzero (a b : Qc) :
  b <> 0%Qc -> exact_div (Exact a) (Exact b) = Exact (a / b)%Qc.
Proof. intros Hb. unfold exact_div. by destruct (Qc_eq_dec b 0%Qc). Qed.

Lemma d_of_int_exact (n : nat) : d_of_int (Z.of_nat n) = Exact (Qn n).
Proof. done. Qed.

Lemma mean_of_exact qs :
  (0 < length qs)%nat ->
  mean_of (Exact <$> qs) = Exact (Qsum qs / Qn (length qs))%Qc.
Proof.
  intros Hn. unfold mean_of.
  rewrite sum_of_exact, length_fmap, d_of_int_exact.
  apply exact_div_nonzero. by apply Qn_pos.
Qed.

Lemma squared_deviations_exact qs :
  (0 < length qs)%nat ->
  squared_deviations (Exact <$> qs)
  = Exact (Qsum_sq qs - Qsum qs * Qsum qs / Qn (length qs))%Qc.
Proof.
  intros Hn. unfold squared_deviations. rewrite mean_of_exact by done.
  rewrite <- list_fmap_compose.
  rewrite (list_fmap_ext _
    (Exact ∘ (fun q => (q - Qsum qs / Qn (length qs))
                       * (q - Qsum qs / Qn (length qs)))%Qc) qs) by done.
  rewrite list_fmap_compose, sum_of_exact, Qsum_deviations. f_equal.
  field. by apply Qn_pos.
Qed.

Lemma calculate_variance_population_exact ctx qs :
  count ctx = Z.of_nat (length qs) -> (1 <= length qs)%nat ->
  sum ctx = Exact (Qsum qs) -> sum_sq ctx = Exact (Qsum_sq qs) ->
  calculate_variance_population ctx = direct_variance_population (Exact <$> qs) /\
  is_exact (direct_variance_population (Exact <$> qs)) = true.
Proof.
  intros Hn Hlen Hs Hsq.
  pose proof (Qn_pos (length qs) ltac:(lia)) as HN.
  unfold calculate_variance_population, direct_variance_population.
  destruct (Z.ltb_spec (count ctx) 1); [lia|].
  rewrite squared_deviations_exact, length_fmap, Hs, Hsq, Hn, !d_of_int_exact by lia.
  rewrite !exact_div_nonzero by done. simpl. split; [|done].
  f_equal. by field.
Qed.

Lemma calculate_variance_sample_exact ctx qs :
  count ctx = Z.of_nat (length qs) -> (2 <= length qs)%nat ->
  count ctx <= Int.INT_MAX ->
  sum ctx = Exact (Qsum qs) -> sum_sq ctx = Exact (Qsum_sq qs) ->
  calculate_variance_sample ctx = direct_variance_sample (Exact <$> qs) /\
  is_exact (direct_variance_sample (Exact <$> qs)) = true.
Proof.
  intros Hn Hlen Hmax Hs Hsq.
  pose proof (Qn_pos (length qs) ltac:(lia)) as HN.
  pose proof (Qn_pos (length qs - 1) ltac:(lia)) as HN1.
  unfold calculate_variance_sample, direct_variance_sample.
  destruct (Z.ltb_spec (count ctx) 2); [lia|].
  unfold Int.sub. rewrite wrap_small by (unfold Int.INT_MIN, Int.INT_MAX in *; lia).
  rewrite squared_deviations_exact, length_fmap, Hs, Hsq, Hn by lia.
  replace (Z.of_nat (length qs) - 1) with (Z.of_nat (length qs - 1)) by lia.
  rewrite !d_of_int_exact. rewrite !exact_div_nonzero by done. simpl.
  split; [|done]. f_equal. by field.
Qed.

End ExactVariance.

(** ** Reachable groups in exact arithmetic *)

Section ExactClaims.

Implicit Types (calls : list (call exact)).

Lemma reachable_exact calls :
  forallb call_exact calls = true ->
  context_ok (run None calls) /\ sums_exact (run None calls).
Proof.
  intros Hc. split.
  - by apply run_context_ok.
  - by apply run_sums_exact; [| apply sums_exact_None |].
Qed.

(** What a group with at least one buffered value looks like. *)
Lemma reachable_nonempty calls :
  forallb call_exact calls = true -> 1 <= buffered_count (run None calls) ->
  exists ctx qs,
    run None calls = Some ctx /\ is_null (values ctx) = false /\
    buffered_data ctx = Exact <$> qs /\
    count ctx = Z.of_nat (length qs) /\ count ctx <= Int.INT_MAX /\
    sum ctx = Exact (Qsum qs) /\ sum_sq ctx = Exact (Qsum_sq qs).
Proof.
  intros Hc Hn. destruct (reachable_exact calls Hc) as [Hok (qs & Hq & Hs & Hsq)].
  pose proof (context_ok_count _ Hok) as Hlen.
  destruct (run None calls) as [ctx|]; simpl in *; [|lia].
  exists ctx, qs. rewrite Hq, length_fmap in Hlen.
  destruct (values ctx) as [a|]; [|lia].
  destruct Hok as [_ Hcap Hcnt _ _]. split_and!; try done. lia.
Qed.

End ExactClaims.

(** C1: in exact arithmetic, after any sequence of step and inverse calls on
    a fresh group, the values in the buffer are numbers, [sum] is their sum
    and [sum_sq] is the sum of their squares. *)
Theorem incremental_sums (calls : list (call exact)) :
  forallb call_exact calls = true ->
  forallb is_exact (buffered (run None calls)) = true /\
  running_sum (run None calls) = sum_of (buffered (run None calls)) /\
  running_sum_sq (run None calls) = sum_sq_of (buffered (run None calls)).
Proof.
  intros Hc. destruct (reachable_exact calls Hc) as [_ (qs & Hq & Hs & Hsq)].
  rewrite Hq, Hs, Hsq, sum_of_exact, sum_sq_of_exact. split_and!; try done.
  apply forallb_forall. intros x Hx. apply in_map_iff in Hx as (q & <- & _). done.
Qed.

(** C2: in exact arithmetic, with at least two values buffered, the sample
    variance query reports the textbook value: the sum of the squared
    deviations from the mean, divided by [n - 1]. *)
Theorem sample_variance_direct (calls : list (call exact)) :
  forallb call_exact calls = true ->
  2 <= buffered_count (run None calls) ->
  variance_samp_value (run None calls) ResultUnset
  = ResultDouble (direct_variance_sample (buffered (run None calls))) /\
  is_exact (direct_variance_sample (buffered (run None calls))) = true.
Proof.
  intros Hc Hn.
  destruct (reachable_nonempty calls Hc ltac:(lia))
    as (ctx & qs & Hrun & Hv & Hq & Hcount & Hmax & Hs & Hsq).
  rewrite Hrun in *. simpl in Hn. simpl buffered. rewrite Hq.
  destruct (calculate_variance_sample_exact ctx qs) as [Hvar Hex]; try done; [lia|].
  split; [|done].
  unfold variance_samp_value, stats_value_helper, sqlite3_aggregate_context.
  rewrite Hv. destruct (Z.ltb_spec (count ctx) 2); [lia|]. cbn [orb].
  rewrite Hvar. unfold set_result.
  by destruct (direct_variance_sample (Exact <$> qs)).
Qed.

(** C3, as the code has it. In every arithmetic, after any interleaving of
    calls the buffer is the queue of the specification: a step that is
    accepted appends, an inverse removes the oldest value, whatever the
    positions of head and tail in the array; and [count] is the number of
    values. In exact arithmetic, with [k >= 1] values left, the population
    variance query reports the direct computation over them. *)
Theorem fifo_window_variance :
  (forall (F : Type) (D : Double F) (calls : list (call F)),
     buffered (run None calls) = fifo [] calls (trace None calls) /\
     Z.of_nat (length (buffered (run None calls))) = buffered_count (run None calls)) /\
  (forall calls : list (call exact),
     forallb call_exact calls = true ->
     1 <= buffered_count (run None calls) ->
     variance_pop_value (run None calls) ResultUnset
     = ResultDouble (direct_variance_population (buffered (run None calls))) /\
     is_exact (direct_variance_population (buffered (run None calls))) = true).
Proof.
  split.
  - intros F D calls. split; [by apply (run_fifo None calls)|].
    symmetry. by apply context_ok_count, run_context_ok.
  - intros calls Hc Hn.
    destruct (reachable_nonempty calls Hc Hn)
      as (ctx & qs & Hrun & Hv & Hq & Hcount & Hmax & Hs & Hsq).
    rewrite Hrun in *. simpl in Hn. simpl buffered. rewrite Hq.
    destruct (calculate_variance_population_exact ctx qs) as [Hvar Hex];
      try done; [lia|].
    split; [|done].
    unfold variance_pop_value, stats_value_helper, sqlite3_aggregate_context.
    rewrite Hv. destruct (Z.ltb_spec (count ctx) 1); [lia|]. cbn [orb].
    rewrite Hvar. unfold set_result.
    by destruct (direct_variance_population (Exact <$> qs)).
Qed.

(** ** Growth seen from [stats_step] *)

Section InsertFacts.

Context {F : Type} `{Double F}.
Implicit Types (data ctx : WindowStatsData F) (agg : option (StatsWindowContext F)).
Implicit Types (arg : sqlite3_value F) (h : host F).

Lemma run_app agg (calls1 calls2 : list (call F)) :
  run agg (calls1 ++ calls2) = run (run agg calls1) calls2.
Proof. unfold run. apply foldl_app. Qed.

Lemma trace_app agg (calls1 calls2 : list (call F)) :
  trace agg (calls1 ++ calls2) = trace agg calls1 ++ trace (run agg calls1) calls2.
Proof.
  revert agg. induction calls1 as [|c calls1 IH]; intros agg; [done|].
  simpl. by rewrite IH.
Qed.

Lemma growth_events_app agg (calls1 calls2 : list (call F)) :
  growth_events agg (calls1 ++ calls2)
  = (growth_events agg calls1 + growth_events (run agg calls1) calls2)%nat.
Proof.
  revert agg. induction calls1 as [|c calls1 IH]; intros agg; [done|].
  simpl. rewrite IH. lia.
Qed.

(** A step that reports nothing on a numeric argument has initialised the
    context if needed, grown the buffer if it was full, and written. *)
Lemma stats_step_inserted h agg arg agg' :
  context_ok agg -> is_numeric arg = true ->
  stats_step h agg ResultUnset [arg] = (agg', ResultUnset) ->
  exists ctx g,
    initialise h agg = Some (SQLITE_OK, ResultUnset, ctx) /\ buffer_ok ctx /\
    (capacity ctx <= count ctx ->
       grow_stats_buffer h ResultUnset ctx = (SQLITE_OK, ResultUnset, g)) /\
    (count ctx < capacity ctx -> g = ctx) /\
    agg' = Some (write_value g (sqlite3_value_double arg)).
Proof.
  intros Hok Hnum. rewrite stats_step_unfold.
  pose proof (initialise_spec h agg Hok) as Hinit.
  destruct (initialise h agg) as [[[rc context] ctx]|]; [|done].
  destruct Hinit as (_ & _ & Hrc).
  destruct rc; [|by destruct Hrc as (-> & _)].
  destruct Hrc as (-> & Hb & _).
  unfold is_numeric in Hnum.
  destruct (sqlite3_value_type arg); try done.
  all: destruct (Z.leb_spec (capacity ctx) (count ctx)) as [Hfull|Hroom].
  all: try (intros [= <-]; exists ctx, ctx; split_and!; try done; lia).
  all: destruct (grow_stats_buffer h ResultUnset ctx) as [[[] context'] g] eqn:Hg;
    [|by apply grow_stats_buffer_NOMEM in Hg as [-> _]].
  all: pose proof (grow_stats_buffer_OK _ _ _ _ _ Hb Hg) as (-> & _).
  all: intros [= <-]; exists ctx, g; split_and!; try done; lia.
Qed.

Lemma write_value_is_null ctx x :
  is_null (values (write_value ctx x)) = is_null (values ctx).
Proof. simpl. unfold store. destruct (values ctx); [|done]. by case_match. Qed.

(** The same, in terms of what is buffered, the count and the capacity. *)
Lemma stats_step_inserted_view h agg arg agg' :
  context_ok agg -> is_numeric arg = true ->
  stats_step h agg ResultUnset [arg] = (agg', ResultUnset) ->
  context_ok agg' /\
  buffered agg' = buffered agg ++ [sqlite3_value_double arg] /\
  buffered_count agg' = buffered_count agg + 1 /\
  (buffered_count agg < buffer_capacity agg ->
     buffer_capacity agg' = buffer_capacity agg /\ grew agg agg' = false) /\
  (buffer_capacity agg <= buffered_count agg ->
     buffer_capacity agg' = 2 * buffer_capacity agg /\ grew agg agg' = true).
Proof.
  intros Hok Hnum Hstep.
  destruct (stats_step_effect h agg [arg] Hok) as [Hok' Heff].
  rewrite Hstep in Hok', Heff. simpl in Hok', Heff. rewrite Hnum in Heff.
  destruct Heff as (Hq & _).
  pose proof (context_ok_count _ Hok) as Hn.
  pose proof (context_ok_count _ Hok') as Hn'.
  rewrite Hq, length_app in Hn'. simpl in Hn'.
  split_and!; try done; [lia| |].
  all: destruct (stats_step_inserted h agg arg agg' Hok Hnum Hstep)
         as (ctx & g & Hinit & Hb & Hgrow & Hsame & ->).
  all: pose proof (initialise_spec h agg Hok) as Hspec; rewrite Hinit in Hspec.
  all: destruct Hspec as (_ & Hcount & _ & _ & Hold & Hnew).
  all: pose proof Hb as [(a & Ha & _) Hcap Hcnt _ _].
  all: assert (Hbc : buffer_capacity agg = capacity ctx).
  1,3: (destruct (initialised agg) eqn:Hi;
        [ rewrite (Hold eq_refl); simpl; by rewrite Ha
        | rewrite (Hnew eq_refl); destruct agg as [c|]; simpl in *; [|done];
          by destruct (values c) ]).
  all: rewrite Hbc, <- Hcount; intros Hcmp.
  - rewrite (Hsame Hcmp). unfold buffer_capacity, grew.
    rewrite write_value_is_null, Ha. simpl. split; [done|].
    destruct agg as [c|]; [|done].
    destruct (initialised (Some c)) eqn:Hi.
    + injection (Hold eq_refl) as ->. rewrite Z.eqb_refl. by rewrite andb_false_r.
    + simpl in Hi. by destruct (values c).
  - pose proof (grow_stats_buffer_OK _ _ _ _ _ Hb (Hgrow Hcmp))
      as (_ & Hbg & Hcg & _).
    pose proof Hbg as [(ag & Hag & _) _ _ _ _].
    unfold buffer_capacity at 1. unfold grew.
    rewrite write_value_is_null, Hag. simpl. split; [done|].
    destruct (initialised agg) eqn:Hi.
    + rewrite (Hold eq_refl). rewrite Ha. simpl.
      destruct (Z.eqb_spec (capacity g) (capacity ctx)); [lia|done].
    + rewrite (Hnew eq_refl) in Hcmp. unfold INITIAL_CAPACITY in Hcmp.
      destruct agg as [c|]; simpl in *; [|lia].
      destruct (values c); [done|]. destruct Hok as (? & _). lia.
Qed.

End InsertFacts.

Section InsertRuns.

Context {F : Type} `{Double F}.
Implicit Types (agg : option (StatsWindowContext F)).
Implicit Types (steps : list (host F * sqlite3_value F)).

Lemma trace_length agg (calls : list (call F)) :
  length (trace agg calls) = length calls.
Proof.
  revert agg. induction calls as [|c calls IH]; intros agg; [done|].
  simpl. by rewrite IH.
Qed.

Lemma step_reported h agg (v : sqlite3_value F) r :
  (stats_step h agg ResultUnset [v]).2 = r ->
  stats_step h agg ResultUnset [v] = ((stats_step h agg ResultUnset [v]).1, r).
Proof. intros <-. by destruct (stats_step h agg ResultUnset [v]). Qed.

(** Inserting while there is room: no growth event. *)
Lemma run_inserts_room steps agg :
  context_ok agg -> all_numeric steps = true ->
  trace agg (inserts steps) = replicate (length steps) ResultUnset ->
  buffered_count agg + Z.of_nat (length steps) <= buffer_capacity agg ->
  context_ok (run agg (inserts steps)) /\
  buffered (run agg (inserts steps)) = buffered agg ++ inserted_values steps /\
  buffered_count (run agg (inserts steps))
  = buffered_count agg + Z.of_nat (length steps) /\
  buffer_capacity (run agg (inserts steps)) = buffer_capacity agg /\
  growth_events agg (inserts steps) = 0%nat.
Proof.
  revert agg. induction steps as [|[h v] steps IH]; intros agg Hok Hnum Htr Hroom.
  - simpl. rewrite app_nil_r. split_and!; try done. lia.
  - simpl in Hnum. apply andb_true_iff in Hnum as [Hv Hnum].
    cbn [inserts fmap list_fmap trace replicate length] in Htr.
    injection Htr as Hr Htr. cbn [fst snd exec] in Hr, Htr.
    cbn [length] in Hroom.
    pose proof (step_reported _ _ _ _ Hr) as Hstep.
    destruct (stats_step_inserted_view h agg v _ Hok Hv Hstep)
      as (Hok' & Hq & Hn & Hsame & _).
    destruct (Hsame ltac:(lia)) as [Hcap Hgrew].
    destruct (IH _ Hok' Hnum Htr ltac:(lia)) as (Hok'' & Hq' & Hn' & Hcap' & Hg).
    change (inserts ((h, v) :: steps)) with (Step h [v] :: inserts steps).
    change (inserted_values ((h, v) :: steps))
      with (sqlite3_value_double v :: inserted_values steps).
    cbn [run foldl growth_events exec fst snd length].
    fold (run (stats_step h agg ResultUnset [v]).1 (inserts steps)).
    rewrite Hgrew, Hg, Hq', Hq, Hn', Hn, Hcap', Hcap, <- (assoc_L (++)).
    split_and!; try done. lia.
Qed.

End InsertRuns.

(** C7: on a full buffer, a step that writes has first grown the buffer,
    once: the new array has twice the capacity, holds the [N] buffered values
    in slots [0 .. N-1] in logical order, with [head = 0] and [tail = N], and
    every logical index reads as before; the write then appends. Hence
    [INITIAL_CAPACITY + 1] inserts on a fresh group make exactly one growth
    event and leave the values in insertion order. *)
Theorem growth_transparency {F : Type} `{Double F} :
  (forall (calls : list (call F)) (h : host F) (arg : sqlite3_value F)
          (ctx : WindowStatsData F) (agg' : option (StatsWindowContext F)),
     run None calls = Some ctx -> is_null (values ctx) = false ->
     count ctx = capacity ctx -> is_numeric arg = true ->
     stats_step h (Some ctx) ResultUnset [arg] = (agg', ResultUnset) ->
     exists g,
       grow_stats_buffer h ResultUnset ctx = (SQLITE_OK, ResultUnset, g) /\
       capacity g = 2 * capacity ctx /\ count g = count ctx /\
       head g = 0 /\ tail g = count ctx /\
       sum g = sum ctx /\ sum_sq g = sum_sq ctx /\
       (forall i, 0 <= i < count ctx ->
          load (values g) i = peek_logical ctx i /\
          peek_logical g i = peek_logical ctx i) /\
       agg' = Some (write_value g (sqlite3_value_double arg)) /\
       buffered agg' = buffered_data ctx ++ [sqlite3_value_double arg] /\
       grew (Some ctx) agg' = true) /\
  (forall steps : list (host F * sqlite3_value F),
     Z.of_nat (length steps) = INITIAL_CAPACITY + 1 ->
     all_numeric steps = true ->
     trace None (inserts steps) = replicate (length steps) ResultUnset ->
     growth_events None (inserts steps) = 1%nat /\
     buffered (run None (inserts steps)) = inserted_values steps /\
     buffer_capacity (run None (inserts steps)) = 2 * INITIAL_CAPACITY).
Proof.
  split.
  - intros calls h arg ctx agg' Hrun Hv Hfull Hnum Hstep.
    assert (Hok : context_ok (Some ctx)).
    { rewrite <- Hrun. by apply run_context_ok. }
    assert (Hb : buffer_ok ctx).
    { simpl in Hok. by destruct (values ctx). }
    destruct (stats_step_inserted h _ arg agg' Hok Hnum Hstep)
      as (ctx0 & g & Hinit & _ & Hgrow & _ & ->).
    unfold initialise in Hinit. simpl in Hinit. rewrite Hv in Hinit.
    injection Hinit as <-.
    specialize (Hgrow ltac:(lia)).
    pose proof (grow_stats_buffer_OK _ _ _ _ _ Hb Hgrow)
      as (_ & Hbg & Hcap & Hn & Hh & Ht & Hs & Hsq & Hslot & Hq).
    destruct (stats_step_inserted_view h _ arg _ Hok Hnum Hstep)
      as (_ & Hq' & _ & _ & Hgrew).
    exists g. split_and!; try done.
    + intros i Hi. split; [by apply Hslot|].
      unfold peek_logical at 1. rewrite Hh, Hcap, Z.add_0_l, Z.mod_small.
      * by apply Hslot.
      * destruct Hb. lia.
    + apply Hgrew. simpl. rewrite Hv. lia.
  - intros steps Hlen Hnum Htr.
    destruct (exists_last (l := steps)) as (front & [h v] & ->).
    { intros ->. simpl in Hlen. unfold INITIAL_CAPACITY in Hlen. lia. }
    rewrite length_app in Hlen, Htr. simpl in Hlen.
    unfold all_numeric in Hnum. rewrite forallb_app in Hnum.
    apply andb_true_iff in Hnum as [Hfront Hv]. simpl in Hv.
    rewrite andb_true_r in Hv.
    unfold inserts, inserted_values in *. rewrite !fmap_app, !list_fmap_singleton in *.
    fold (inserts front) in *. fold (inserted_values front).
    cbn [fst snd] in *.
    rewrite trace_app, replicate_add in Htr.
    apply app_inj_1 in Htr as [Htr1 Htr2];
      [|by rewrite trace_length, length_replicate; unfold inserts; rewrite length_fmap].
    destruct (run_inserts_room front None) as (Hok & Hq & Hn & Hcap & Hg); try done.
    { simpl. unfold INITIAL_CAPACITY in *. lia. }
    simpl in Htr2. injection Htr2 as Hr.
    pose proof (step_reported _ _ _ _ Hr) as Hstep.
    destruct (stats_step_inserted_view h _ v _ Hok Hv Hstep)
      as (_ & Hq' & _ & _ & Hgrow).
    destruct (Hgrow ltac:(simpl in *; unfold INITIAL_CAPACITY in *; lia))
      as [Hcap' Hgrew].
    rewrite growth_events_app, run_app, Hg.
    cbn [growth_events run foldl exec fst snd].
    rewrite Hgrew, Hq', Hq, Hcap', Hcap. done.
Qed.

(** C8: when the allocation of [grow_stats_buffer] fails, the step reports
    OutOfMemory and leaves the context exactly as it was. *)
Theorem growth_failure_atomic {F : Type} `{Double F}
    (h : host F) (ctx : WindowStatsData F) (arg : sqlite3_value F)
    (context : sqlite3_context F) :
  is_null (values ctx) = false -> is_numeric arg = true ->
  capacity ctx <= count ctx ->
  malloc h (Int.size_mul
              (Int.to_size (Int.mul (capacity ctx) CAPACITY_GROWTH_FACTOR))
              sizeof_double) = None ->
  grow_stats_buffer h context ctx = (SQLITE_NOMEM, ResultNomem, ctx) /\
  stats_step h (Some ctx) context [arg] = (Some ctx, ResultNomem).
Proof.
  intros Hv Hnum Hfull Hm.
  assert (Hg : grow_stats_buffer h context ctx = (SQLITE_NOMEM, ResultNomem, ctx)).
  { unfold grow_stats_buffer. by rewrite Hm. }
  split; [done|].
  unfold stats_step, sqlite3_aggregate_context. rewrite Hv.
  unfold is_numeric in Hnum.
  destruct (sqlite3_value_type arg); try done.
  all: destruct (Z.leb_spec (capacity ctx) (count ctx)); [|lia].
  all: by rewrite Hg.
Qed.

(** C9, as the code has it: a step call on a reachable group either reports
    OutOfMemory, which happens only while the context is initialised (before
    the type check) or while a full buffer grows, and then nothing is
    inserted; or else a NULL argument is skipped without an error, an
    argument that is neither INTEGER nor FLOAT is rejected with InvalidInput,
    and a numeric argument is appended and added to the running totals. *)
Theorem step_contract {F : Type} `{Double F}
    (calls : list (call F)) (h : host F) (arg : sqlite3_value F) :
  let agg := run None calls in
  let agg' := (stats_step h agg ResultUnset [arg]).1 in
  let r := (stats_step h agg ResultUnset [arg]).2 in
  match r with
  | ResultNomem =>
      kept agg agg' /\
      (initialised agg = false \/
       (is_numeric arg = true /\ buffer_capacity agg <= buffered_count agg))
  | _ =>
      match sqlite3_value_type arg with
      | SQLITE_NULL => r = ResultUnset /\ kept agg agg'
      | SQLITE_INTEGER | SQLITE_FLOAT =>
          r = ResultUnset /\ pushed agg agg' (sqlite3_value_double arg)
      | _ => r = InvalidInput /\ kept agg agg'
      end
  end.
Proof.
  intros agg agg' r.
  assert (Hok : context_ok agg) by (by apply run_context_ok).
  destruct (stats_step_effect h agg [arg] Hok) as [_ Heff].
  fold agg' r in Heff. unfold effect, is_numeric in Heff.
  pose proof (initialise_spec h agg Hok) as Hinit.
  assert (Hfull : forall ctx,
            initialise h agg = Some (SQLITE_OK, ResultUnset, ctx) ->
            capacity ctx <= count ctx ->
            initialised agg = false \/ buffer_capacity agg <= buffered_count agg).
  { intros ctx Hi Hcmp. rewrite Hi in Hinit.
    destruct Hinit as (_ & Hn & _ & Hb & Hold & _).
    destruct (initialised agg) eqn:Hag; [right|by left].
    rewrite (Hold eq_refl) in *. simpl.
    destruct Hb as [(a & -> & _) _ _ _ _]. done. }
  subst agg' r. revert Heff. rewrite stats_step_unfold.
  destruct (initialise h agg) as [[[rc context] ctx]|] eqn:Hi.
  2:{ subst agg. rewrite Hinit. simpl. intros _. split; [apply kept_refl | by left]. }
  destruct Hinit as (Hkept & Hcount & Hrc).
  destruct rc.
  2:{ destruct Hrc as (-> & Hun & _). simpl. intros _. split; [done | by left]. }
  destruct Hrc as (-> & Hb & Hold & Hnew).
  destruct (sqlite3_value_type arg) eqn:Hty; simpl; try done.
  all: destruct (Z.leb_spec (capacity ctx) (count ctx)) as [Hcmp|Hroom]; [|done].
  all: destruct (grow_stats_buffer h ResultUnset ctx) as [[[] context'] g] eqn:Hg.
  all: try (pose proof (grow_stats_buffer_OK _ _ _ _ _ Hb Hg) as (-> & _); done).
  all: apply grow_stats_buffer_NOMEM in Hg as [-> ->]; simpl.
  all: intros Hk; split; [done|].
  all: destruct (Hfull ctx eq_refl Hcmp);
    [by left | right; split; [unfold is_numeric; by rewrite Hty | done]].
Qed.

(** The claim C9 as it is written fails on a first call that SQLite cannot
    give a context: a NULL argument then makes the step report OutOfMemory. *)
Lemma null_step_can_report_nomem :
  (stats_step failing_host None ResultUnset [SqlNull]).2 = ResultNomem /\
  (stats_step failing_host None ResultUnset [SqlNull]).2 <> ResultUnset.
Proof. split; [reflexivity | discriminate]. Qed.


(** ** The value and final callbacks *)

Section QueryFacts.

Context {F : Type} `{Double F}.
Implicit Types (agg : option (StatsWindowContext F)) (ctx : WindowStatsData F).

Lemma stats_value_helper_initialised ctx context func min_count :
  is_null (values ctx) = false -> min_count <= count ctx ->
  stats_value_helper (Some ctx) context func min_count
  = set_result context (func ctx).
Proof.
  intros Hv Hn. unfold stats_value_helper, sqlite3_aggregate_context.
  rewrite Hv. by destruct (Z.ltb_spec (count ctx) min_count); [lia|].
Qed.

Lemma stats_value_helper_few agg context func min_count :
  Z.of_nat (length (buffered agg)) < min_count ->
  stats_value_helper agg context func min_count = ResultNull.
Proof.
  intros Hn. unfold stats_value_helper, sqlite3_aggregate_context.
  destruct agg as [ctx|]; [|done]. simpl in Hn.
  rewrite buffered_data_length in Hn.
  destruct (is_null (values ctx)); [done|].
  by destruct (Z.ltb_spec (count ctx) min_count); [|lia].
Qed.

(** The final callback reports what the value callback reports. *)
Lemma stats_final_helper_result agg context func min_count :
  (stats_final_helper agg context func min_count).2
  = stats_value_helper agg context func min_count.
Proof.
  unfold stats_final_helper, stats_value_helper, sqlite3_aggregate_context.
  destruct agg as [ctx|]; [|done].
  destruct (is_null (values ctx)); [done|]. simpl.
  by destruct (Z.leb_spec min_count (count ctx)), (Z.ltb_spec (count ctx) min_count);
    try lia.
Qed.

End QueryFacts.

(** ** Double precision: a single value *)

Section Binary64Facts.

Implicit Types (m : positive) (e : Z).

Lemma digits2_pos_size m : digits2_pos m = Pos.size m.
Proof. induction m as [m IH|m IH|]; simpl; by rewrite ?IH. Qed.

Lemma digits2_pos_bounds m :
  2 ^ (Z.pos (digits2_pos m) - 1) <= Z.pos m < 2 ^ Z.pos (digits2_pos m).
Proof.
  rewrite digits2_pos_size. split.
  - pose proof (Pos.size_le m) as Hle.
    assert (H2 : 2 ^ Z.pos (Pos.size m) <= 2 * Z.pos m).
    { change 2 with (Z.pos 2) at 1. rewrite <- Pos2Z.inj_pow. 
      change (2 * Z.pos m) with (Z.pos m~0). by apply Pos2Z.pos_le_pos. }
    replace (Z.pos (Pos.size m)) with (Z.succ (Z.pos (Pos.size m) - 1)) in H2 by lia.
    rewrite Z.pow_succ_r in H2 by lia. lia.
  - pose proof (Pos.size_gt m) as Hgt.
    change 2 with (Z.pos 2). rewrite <- Pos2Z.inj_pow. by apply Pos2Z.pos_lt_pos.
Qed.

Lemma digits2_pos_unique m d :
  2 ^ (d - 1) <= Z.pos m < 2 ^ d -> Z.pos (digits2_pos m) = d.
Proof.
  intros [Hlo Hhi]. pose proof (digits2_pos_bounds m) as [Hlo' Hhi'].
  assert (0 < d).
  { destruct (Z.lt_ge_cases 0 d); [done|].
    assert (2 ^ d <= 1).
    { destruct (Z.eq_dec d 0) as [->|]; [done|]. rewrite Z.pow_neg_r; lia. }
    lia. }
  destruct (Z.lt_trichotomy (Z.pos (digits2_pos m)) d) as [Hlt|[Heq|Hgt]]; [|done|].
  - assert (2 ^ Z.pos (digits2_pos m) <= 2 ^ (d - 1)) by (apply Z.pow_le_mono_r; lia).
    lia.
  - assert (2 ^ d <= 2 ^ (Z.pos (digits2_pos m) - 1)) by (apply Z.pow_le_mono_r; lia).
    lia.
Qed.

Lemma fexp_eq z : fexp prec emax z = Z.max (z - 53) (-1074).
Proof. reflexivity. Qed.

Lemma bounded_inv m e :
  bounded prec emax m e = true ->
  e <= 971 /\
  ((Z.pos (digits2_pos m) = 53 /\ -1074 <= e) \/
   (Z.pos (digits2_pos m) <= 53 /\ e = -1074)).
Proof.
  unfold bounded, canonical_mantissa. rewrite fexp_eq.
  intros [Hc He]%andb_true_iff. apply Z.eqb_eq in Hc. apply Z.leb_le in He.
  change (emax - prec) with 971 in He. lia.
Qed.

Lemma div_eucl_exact a b : 0 < b -> Z.div_eucl (a * b) b = (a, 0).
Proof.
  intros Hb. destruct (Z.div_eucl (a * b) b) as [q r] eqn:Hqr.
  assert (Hq : q = a * b / b) by (unfold Z.div; by rewrite Hqr).
  assert (Hr : r = (a * b) mod b) by (unfold Z.modulo; by rewrite Hqr).
  rewrite Z.div_mul in Hq by lia. rewrite Z.mod_mul in Hr by lia. by subst.
Qed.

(** A canonical mantissa is left alone by rounding. *)
Lemma binary_round_aux_canonical sx m e :
  bounded prec emax m e = true ->
  binary_round_aux prec emax sx (Z.pos m) e loc_Exact = S754_finite sx m e.
Proof.
  intros Hb. pose proof Hb as [Hc He]%andb_true_iff.
  unfold canonical_mantissa in Hc. apply Z.eqb_eq in Hc.
  unfold binary_round_aux, shr_fexp. cbn [Zdigits2 shr_record_of_loc].
  rewrite Hc, Z.sub_diag. cbn [shr shr_m loc_of_shr_record round_nearest_even].
  cbn [Zdigits2 shr_record_of_loc].
  rewrite Hc, Z.sub_diag. cbn [shr shr_m]. by rewrite He.
Qed.

(** Twice a canonical mantissa of full length, one exponent lower, rounds
    back to it. *)
Lemma binary_round_aux_doubled sx m e :
  bounded prec emax m e = true -> Z.pos (digits2_pos m) = 53 ->
  binary_round_aux prec emax sx (Z.pos m~0) (e - 1) loc_Exact = S754_finite sx m e.
Proof.
  intros Hb Hd. pose proof (bounded_inv m e Hb) as [He _].
  pose proof Hb as [Hc He']%andb_true_iff.
  unfold canonical_mantissa in Hc. apply Z.eqb_eq in Hc.
  unfold binary_round_aux, shr_fexp. cbn [Zdigits2 shr_record_of_loc digits2_pos].
  rewrite Pos2Z.inj_succ.
  replace (Z.succ (Z.pos (digits2_pos m)) + (e - 1)) with (Z.pos (digits2_pos m) + e) by lia.
  rewrite Hc. replace (e - (e - 1)) with 1 by lia.
  cbn [shr SpecFloat.iter_pos shr_1 shr_m loc_of_shr_record round_nearest_even orb].
  replace (e - 1 + 1) with e by lia.
  cbn [Zdigits2 shr_record_of_loc].
  rewrite Hc, Z.sub_diag. cbn [shr shr_m]. by rewrite He'.
Qed.

Lemma SFdiv_one s m e :
  bounded prec emax m e = true ->
  SFdiv prec emax (S754_finite s m e) one = S754_finite s m e.
Proof.
  intros Hb. pose proof (bounded_inv m e Hb) as [He Hcase].
  unfold one, SFdiv, SFdiv_core_binary.
  change (Zdigits2 (Z.pos 4503599627370496)) with 53.
  cbn [Zdigits2]. rewrite fexp_eq, xorb_false_r.
  destruct (Z.eq_dec e (-1074)) as [->|Hne].
  - replace (Z.min _ _) with (-1074) by lia.
    change (-1074 - -52 - -1074) with 52.
    rewrite Z.shiftl_mul_pow2 by lia.
    rewrite div_eucl_exact by lia.
    change (new_location (Z.pos 4503599627370496) 0) with loc_Exact.
    by apply binary_round_aux_canonical.
  - destruct Hcase as [[Hd Hlo]|[_ ->]]; [|done].
    rewrite Hd. replace (Z.min _ _) with (e - 1) by lia.
    replace (e - -52 - (e - 1)) with 53 by lia.
    rewrite Z.shiftl_mul_pow2 by lia.
    change (2 ^ 53) with (2 * 4503599627370496). rewrite Z.mul_assoc.
    rewrite div_eucl_exact by lia.
    change (new_location (Z.pos 4503599627370496) 0) with loc_Exact.
    replace (Z.pos m * 2) with (Z.pos m~0) by lia.
    by apply binary_round_aux_doubled.
Qed.

(** *** Shifting right and rounding *)

Lemma iter_pos_nat {A : Type} (f : A -> A) (p : positive) (x : A) :
  SpecFloat.iter_pos f p x = Nat.iter (Pos.to_nat p) f x.
Proof.
  revert x. induction p as [p IH|p IH|]; intros x; cbn [SpecFloat.iter_pos].
  - rewrite !IH, Pos2Nat.inj_xI.
    rewrite <- Nat.iter_succ_r, <- Nat.iter_add. f_equal. lia.
  - rewrite !IH, Pos2Nat.inj_xO, <- Nat.iter_add. f_equal. lia.
  - done.
Qed.

Lemma shr_1_m mrs : 0 <= shr_m mrs -> shr_m (shr_1 mrs) = shr_m mrs / 2.
Proof.
  destruct mrs as [m r t]. simpl. intros Hm. rewrite <- Z.div2_div.
  by destruct m as [|[p|p|]|p].
Qed.

Lemma iter_shr_1_m (n : nat) mrs :
  0 <= shr_m mrs ->
  shr_m (Nat.iter n shr_1 mrs) = shr_m mrs / 2 ^ Z.of_nat n.
Proof.
  intros Hm. induction n as [|n IH].
  - simpl. by rewrite Z.div_1_r.
  - cbn [Nat.iter nat_rect]. rewrite shr_1_m.
    + change (nat_rect _ mrs (fun _ => shr_1) n) with (Nat.iter n shr_1 mrs).
      rewrite IH, Z.div_div, Nat2Z.inj_succ, Z.pow_succ_r by lia. f_equal. lia.
    + change (nat_rect _ mrs (fun _ => shr_1) n) with (Nat.iter n shr_1 mrs).
      rewrite IH. apply Z.div_pos; lia.
Qed.

Lemma shr_record_of_loc_m (m : Z) l : shr_m (shr_record_of_loc m l) = m.
Proof. by destruct l as [|[]]. Qed.

(** [shr_fexp] brings the exponent to [fexp] of the magnitude and divides
    the mantissa accordingly. *)
Lemma shr_fexp_spec (m : Z) e l :
  0 <= m -> e <= fexp prec emax (Zdigits2 m + e) ->
  exists mrs,
    shr_fexp prec emax m e l = (mrs, fexp prec emax (Zdigits2 m + e)) /\
    shr_m mrs = m / 2 ^ (fexp prec emax (Zdigits2 m + e) - e).
Proof.
  intros Hm He. unfold shr_fexp, shr.
  destruct (fexp prec emax (Zdigits2 m + e) - e) as [|n|n] eqn:Hn; try lia.
  - eexists. split; [f_equal; lia|].
    by rewrite shr_record_of_loc_m, Z.div_1_r.
  - eexists. split; [f_equal; lia|].
    rewrite iter_pos_nat, iter_shr_1_m by (by rewrite shr_record_of_loc_m).
    by rewrite shr_record_of_loc_m, positive_nat_Z.
Qed.

Lemma Zdigits2_bounds (m : Z) :
  0 < m -> 2 ^ (Zdigits2 m - 1) <= m < 2 ^ Zdigits2 m.
Proof. destruct m as [|p|p]; try lia. intros _. apply digits2_pos_bounds. Qed.

Lemma Zdigits2_unique (m : Z) d :
  0 < m -> 2 ^ (d - 1) <= m < 2 ^ d -> Zdigits2 m = d.
Proof. destruct m as [|p|p]; try lia. intros _. apply digits2_pos_unique. Qed.

Lemma Zdigits2_pos (m : Z) : 0 < m -> 0 < Zdigits2 m.
Proof. destruct m as [|p|p]; simpl; lia. Qed.

Lemma Zdigits2_mono (m1 m2 : Z) : 0 < m1 <= m2 -> Zdigits2 m1 <= Zdigits2 m2.
Proof.
  intros [H1 H12].
  pose proof (Zdigits2_bounds m1 H1) as [Hlo _].
  pose proof (Zdigits2_bounds m2 ltac:(lia)) as [_ Hhi].
  pose proof (Zdigits2_pos m1 H1).
  destruct (Z.le_gt_cases (Zdigits2 m1) (Zdigits2 m2)) as [|Hgt]; [done|].
  assert (2 ^ Zdigits2 m2 <= 2 ^ (Zdigits2 m1 - 1)) by (apply Z.pow_le_mono_r; lia).
  lia.
Qed.

(** The mantissa shifted right by [n] has [n] digits less, or is 0. *)
Lemma Zdigits2_shift (m : Z) n :
  0 < m -> 0 <= n ->
  (n < Zdigits2 m /\ 0 < m / 2 ^ n /\ Zdigits2 (m / 2 ^ n) = Zdigits2 m - n) \/
  (Zdigits2 m <= n /\ m / 2 ^ n = 0).
Proof.
  intros Hm Hn. pose proof (Zdigits2_bounds m Hm) as [Hlo Hhi].
  pose proof (Zdigits2_pos m Hm) as Hd.
  assert (Hp : 0 < 2 ^ n) by (apply Z.pow_pos_nonneg; lia).
  destruct (Z.lt_ge_cases n (Zdigits2 m)) as [Hlt|Hge]; [left|right].
  - assert (Hq : 2 ^ (Zdigits2 m - n - 1) <= m / 2 ^ n < 2 ^ (Zdigits2 m - n)).
    { split.
      - apply Z.div_le_lower_bound; [done|].
        rewrite <- Z.pow_add_r by lia.
        replace (n + (Zdigits2 m - n - 1)) with (Zdigits2 m - 1) by lia. done.
      - apply Z.div_lt_upper_bound; [done|].
        rewrite <- Z.pow_add_r by lia.
        replace (n + (Zdigits2 m - n)) with (Zdigits2 m) by lia. done. }
    assert (0 < 2 ^ (Zdigits2 m - n - 1)) by (apply Z.pow_pos_nonneg; lia).
    split_and!; [done | lia |].
    apply Zdigits2_unique; [lia|]. by replace (Zdigits2 m - n - 1) with (Zdigits2 m - n - 1) by lia.
  - split; [done|]. apply Z.div_small. split; [lia|].
    assert (2 ^ Zdigits2 m <= 2 ^ n) by (apply Z.pow_le_mono_r; lia). lia.
Qed.

Lemma round_nearest_even_cases (m : Z) l :
  round_nearest_even m l = m \/ round_nearest_even m l = m + 1.
Proof. destruct l as [|[]]; simpl; auto. destruct (Z.even m); auto. Qed.

(** Rounding produces a valid double, provided the input is not coarser
    than the format. *)
Lemma binary_round_aux_valid sx (m : Z) e l :
  0 < m -> e <= fexp prec emax (Zdigits2 m + e) ->
  valid_binary prec emax (binary_round_aux prec emax sx m e l) = true.
Proof.
  intros Hm He. unfold binary_round_aux.
  destruct (shr_fexp_spec m e l ltac:(lia) He) as (mrs1 & -> & Hm1).
  set (e1 := fexp prec emax (Zdigits2 m + e)) in *.
  set (m2 := round_nearest_even (shr_m mrs1) (loc_of_shr_record mrs1)).
  assert (Hemin : -1074 <= e1) by (unfold e1; rewrite fexp_eq; lia).
  assert (H1 : 0 <= shr_m mrs1).
  { rewrite Hm1. apply Z.div_pos; [lia|]. apply Z.pow_pos_nonneg; lia. }
  assert (H2 : m2 = 0 \/ (0 < m2 /\ e1 <= fexp prec emax (Zdigits2 m2 + e1))).
  { destruct (Zdigits2_shift m (e1 - e) Hm ltac:(lia)) as [(Hlt & Hpos & Hdig)|[Hge Hz]].
    - right. rewrite <- Hm1 in Hpos, Hdig.
      assert (Hle : shr_m mrs1 <= m2).
      { unfold m2.
        destruct (round_nearest_even_cases (shr_m mrs1) (loc_of_shr_record mrs1))
          as [->| ->]; lia. }
      split; [lia|].
      pose proof (Zdigits2_mono (shr_m mrs1) m2 ltac:(lia)) as Hmono.
      rewrite !fexp_eq in *. unfold e1 in *. rewrite !fexp_eq in *. lia.
    - rewrite <- Hm1 in Hz.
      destruct (round_nearest_even_cases (shr_m mrs1) (loc_of_shr_record mrs1))
        as [Hr|Hr]; fold m2 in Hr; rewrite Hz in Hr; [by left|right].
      rewrite Hr. cbn [Zdigits2 digits2_pos]. split; [lia|].
      pose proof (Zdigits2_pos m Hm).
      unfold e1 in *. rewrite !fexp_eq in *. lia. }
  destruct H2 as [Hz|[Hpos He1]].
  - rewrite Hz. unfold shr_fexp. cbn [Zdigits2 shr_record_of_loc].
    rewrite fexp_eq.
    replace (shr _ e1 _) with ({| shr_m := 0; shr_r := false; shr_s := false |}, e1);
      [done|].
    unfold shr. destruct (Z.max (0 + e1 - 53) (-1074) - e1) eqn:Hn; try done. lia.
  - destruct (shr_fexp_spec m2 e1 loc_Exact ltac:(lia) He1) as (mrs3 & -> & Hm3).
    set (e3 := fexp prec emax (Zdigits2 m2 + e1)) in *.
    destruct (Zdigits2_shift m2 (e3 - e1) Hpos ltac:(lia)) as [(Hlt & Hp3 & Hdig)|[Hge Hz]].
    + rewrite <- Hm3 in Hp3, Hdig.
      destruct (shr_m mrs3) as [|m3|m3] eqn:Hs3; try lia.
      destruct (Z.leb_spec e3 (emax - prec)) as [Hle|Hgt]; [|done].
      unfold valid_binary, bounded, canonical_mantissa.
      apply andb_true_iff. split; [|by apply Z.leb_le].
      apply Z.eqb_eq. cbn [Zdigits2] in Hdig. rewrite Hdig.
      replace (Zdigits2 m2 - (e3 - e1) + e3) with (Zdigits2 m2 + e1) by lia. done.
    + rewrite <- Hm3 in Hz. by rewrite Hz.
Qed.

(** *** The operations a single value goes through *)

Lemma SFmul_square_valid (x : binary64) :
  valid_binary prec emax x = true ->
  valid_binary prec emax (SFmul prec emax x x) = true.
Proof.
  destruct x as [s|s| |s m e]; try done. intros Hb.
  pose proof (bounded_inv m e Hb) as [He Hcase].
  unfold SFmul. apply binary_round_aux_valid; [lia|].
  pose proof (digits2_pos_bounds m) as [Hlo Hhi].
  pose proof (Zdigits2_bounds (Z.pos (m * m)) ltac:(lia)) as [_ Hhi2].
  rewrite fexp_eq.
  destruct Hcase as [[Hd Hmin]|[Hd ->]]; [|lia].
  rewrite Hd in Hlo. change (53 - 1) with 52 in Hlo.
  assert (Hsq : 2 ^ 104 <= Z.pos (m * m)).
  { rewrite Pos2Z.inj_mul. change (2 ^ 104) with (2 ^ 52 * 2 ^ 52). nia. }
  assert (104 < Zdigits2 (Z.pos (m * m))).
  { destruct (Z.lt_ge_cases 104 (Zdigits2 (Z.pos (m * m)))) as [|Hge]; [done|].
    assert (2 ^ Zdigits2 (Z.pos (m * m)) <= 2 ^ 104) by (apply Z.pow_le_mono_r; lia).
    lia. }
  lia.
Qed.

Lemma digits2_pos_iter_xO m (d : positive) :
  Z.pos (digits2_pos (Pos.iter xO m d)) = Z.pos (digits2_pos m) + Z.pos d.
Proof.
  induction d as [|d IH] using Pos.peano_ind.
  - simpl. lia.
  - rewrite Pos.iter_succ. cbn [digits2_pos]. lia.
Qed.

Lemma d_of_int_valid (i : Z) : valid_binary prec emax (d_of_int i) = true.
Proof.
  assert (Hpos : forall s p, valid_binary prec emax (binary_round prec emax s p 0) = true).
  { intros s p. unfold binary_round, shl_align.
    destruct (fexp prec emax (Z.pos (digits2_pos p) + 0) - 0) as [|d|d] eqn:Hd.
    - apply binary_round_aux_valid; [lia|]. cbn [Zdigits2]. lia.
    - apply binary_round_aux_valid; [lia|]. cbn [Zdigits2]. lia.
    - apply binary_round_aux_valid; [lia|]. cbn [Zdigits2].
      rewrite digits2_pos_iter_xO, !fexp_eq in *. lia. }
  destruct i as [|p|p]; [done | apply Hpos | apply Hpos].
Qed.

Lemma SFsub_self s m e :
  SFsub prec emax (S754_finite s m e) (S754_finite s m e) = S754_zero false.
Proof.
  unfold SFsub, shl_align. rewrite Z.min_id, Z.sub_diag. cbn [fst].
  by destruct s.
Qed.

(** The population variance of a single value [x], as
    [calculate_variance_population] computes it from [sum = 0.0 + x] and
    [sum_sq = 0.0 + x * x]: it is 0.0 unless the square overflows. *)
Lemma single_value_variance (x : binary64) :
  valid_binary prec emax x = true ->
  is_finite (SFmul prec emax x x) = true ->
  SFsub prec emax
    (SFdiv prec emax (SFadd prec emax (S754_zero false) (SFmul prec emax x x)) one)
    (SFmul prec emax
       (SFdiv prec emax (SFadd prec emax (S754_zero false) x) one)
       (SFdiv prec emax (SFadd prec emax (S754_zero false) x) one))
  = S754_zero false.
Proof.
  intros Hx Hfin. pose proof (SFmul_square_valid x Hx) as Hy.
  destruct x as [s|s| |s m e]; try done.
  - by destruct s.
  - cbn [SFadd]. rewrite !SFdiv_one by done.
    destruct (SFmul prec emax (S754_finite s m e) (S754_finite s m e))
      as [s'|s'| |s' m' e'] eqn:Hmul; try done.
    + by destruct s'.
    + cbn [SFadd]. rewrite SFdiv_one by done. apply SFsub_self.
Qed.

End Binary64Facts.

(** The first value of a group in double precision: once the step has
    written it, the population variance is 0.0, unless its square
    overflows. *)
Lemma first_value_variance (h : host binary64) (v : sqlite3_value binary64)
    (agg' : option (StatsWindowContext binary64)) :
  stats_step h None ResultUnset [v] = (agg', ResultUnset) ->
  is_numeric v = true -> value_valid v = true ->
  is_finite (SFmul prec emax (sqlite3_value_double v) (sqlite3_value_double v)) = true ->
  buffered agg' = [sqlite3_value_double v] /\
  variance_pop_value agg' ResultUnset = ResultDouble (S754_zero false).
Proof.
  intros Hstep Hnum Hvalid Hfin.
  assert (Hx : valid_binary prec emax (sqlite3_value_double v) = true).
  { destruct v; try done. apply d_of_int_valid. }
  destruct (stats_step_inserted_view h None v agg' I Hnum Hstep) as (_ & Hq & _).
  split; [done|].
  destruct (stats_step_inserted h None v agg' I Hnum Hstep)
    as (ctx & g & Hinit & Hb & _ & Hsame & ->).
  pose proof (initialise_spec h None I) as Hspec. rewrite Hinit in Hspec.
  destruct Hspec as ((_ & Hs & Hsq) & Hn & _ & _ & _ & Hcap).
  simpl in Hs, Hsq, Hn. specialize (Hcap eq_refl).
  rewrite (Hsame ltac:(rewrite Hn, Hcap; done)).
  pose proof Hb as [(a & Ha & _) _ _ _ _].
  unfold variance_pop_value.
  rewrite stats_value_helper_initialised;
    [| by rewrite write_value_is_null, Ha | simpl; by rewrite Hn ].
  unfold calculate_variance_population. simpl. rewrite Hn, Hs, Hsq.
  change (Int.add 0 1) with 1. change (1 <? 1) with false. cbv iota.
  change (binary_normalize prec emax 1 0 false) with one.
  by rewrite single_value_variance.
Qed.



(** Also in double precision the running totals are rounded at every step
    and inverse: after 0.1 and 0.2 are inserted and 0.1 is evicted, one value
    is buffered and the population variance that is reported is -2^-57. *)
Lemma single_value_after_eviction :
  buffered (run None [Step binary64_host [SqlFloat (S754_finite false 7205759403792794 (-56))];
                      Step binary64_host [SqlFloat two_tenths];
                      Inverse [SqlFloat (S754_finite false 7205759403792794 (-56))]])
  = [two_tenths] /\
  variance_pop_value
    (run None [Step binary64_host [SqlFloat (S754_finite false 7205759403792794 (-56))];
               Step binary64_host [SqlFloat two_tenths];
               Inverse [SqlFloat (S754_finite false 7205759403792794 (-56))]])
    ResultUnset
  = ResultDouble (S754_finite true 4503599627370496 (-109)).
Proof. split; vm_compute; reflexivity. Qed.

(** The claim C3 as it is written fails in double precision: with the single
    value 2^600 buffered, the direct computation gives 0.0 (the deviation
    from the mean is 0), the query reports NULL ([sum_sq] has overflowed). *)
Lemma huge_value_variance_not_direct :
  buffered (run None [Step binary64_host [SqlFloat two_to_600]]) = [two_to_600] /\
  direct_variance_population
    (buffered (run None [Step binary64_host [SqlFloat two_to_600]]))
  = S754_zero false /\
  variance_pop_value (run None [Step binary64_host [SqlFloat two_to_600]]) ResultUnset
  = ResultNull.
Proof. split_and!; vm_compute; reflexivity. Qed.

(** ** Sanitization of the results, in double precision *)

Section Sanitization.

Implicit Types (ctx : WindowStatsData binary64).
Implicit Types (agg : option (StatsWindowContext binary64)).

Lemma calculate_few (s : statistic) ctx :
  count ctx < (match s with
               | StddevSample | VarianceSample => 2
               | StddevPopulation | VariancePopulation => 1
               end) ->
  calculate s ctx = S754_nan.
Proof.
  intros Hn.
  destruct s; simpl;
    unfold calculate_stddev_sample, calculate_stddev_population,
           calculate_variance_sample, calculate_variance_population.
  - by destruct (Z.ltb_spec (count ctx) 2); [|lia].
  - by destruct (Z.ltb_spec (count ctx) 1); [|lia].
  - by destruct (Z.ltb_spec (count ctx) 2); [|lia].
  - by destruct (Z.ltb_spec (count ctx) 1); [|lia].
Qed.

Lemma value_callback_helper (s : statistic) agg context :
  value_callback s agg context
  = stats_value_helper agg context (calculate s)
      (match s with
       | StddevSample | VarianceSample => 2
       | StddevPopulation | VariancePopulation => 1
       end).
Proof. by destruct s. Qed.

Lemma final_callback_helper (s : statistic) agg context :
  final_callback s agg context
  = stats_final_helper agg context (calculate s)
      (match s with
       | StddevSample | VarianceSample => 2
       | StddevPopulation | VariancePopulation => 1
       end).
Proof. by destruct s. Qed.

Lemma value_callback_initialised (s : statistic) ctx context :
  is_null (values ctx) = false ->
  value_callback s (Some ctx) context
  = if d_isnan (calculate s ctx) || d_isinf (calculate s ctx)
    then ResultNull else ResultDouble (calculate s ctx).
Proof.
  intros Hv. rewrite value_callback_helper.
  set (min_count := match s with
                    | StddevSample | VarianceSample => 2
                    | StddevPopulation | VariancePopulation => 1
                    end).
  destruct (Z.lt_ge_cases (count ctx) min_count) as [Hfew|Hmany].
  - rewrite (calculate_few s ctx Hfew). simpl.
    unfold stats_value_helper, sqlite3_aggregate_context. rewrite Hv.
    by destruct (Z.ltb_spec (count ctx) min_count); [|lia].
  - by rewrite stats_value_helper_initialised.
Qed.

(** A variance that comes out negative is a number like any other for
    [set_result]; its square root is NAN. *)
Lemma negative_variance ctx context (s s' : statistic) :
  is_null (values ctx) = false ->
  is_negative (calculate s ctx) = true ->
  calculate s' ctx
  = (if d_isnan (calculate s ctx) then d_nan else d_sqrt (calculate s ctx)) ->
  value_callback s (Some ctx) context = ResultDouble (calculate s ctx) /\
  value_callback s' (Some ctx) context = ResultNull.
Proof.
  intros Hv Hneg Hs'. rewrite !value_callback_initialised, Hs' by done.
  by destruct (calculate s ctx) as [| | |[] m e].
Qed.

End Sanitization.

(** C5: in double precision, each of the four statistics, as a value and as
    a final callback, reports NULL when there is no buffer; with a buffer it
    reports NULL when the statistic it computes is NAN or infinite, and
    otherwise reports that number. *)
Theorem result_sanitization (s : statistic)
    (agg : option (StatsWindowContext binary64)) (context : sqlite3_context binary64) :
  (final_callback s agg context).2 = value_callback s agg context /\
  match agg with
  | Some ctx =>
      if is_null (values ctx) then value_callback s agg context = ResultNull
      else value_callback s agg context
           = if d_isnan (calculate s ctx) || d_isinf (calculate s ctx)
             then ResultNull else ResultDouble (calculate s ctx)
  | None => value_callback s agg context = ResultNull
  end.
Proof.
  split.
  - rewrite final_callback_helper, value_callback_helper.
    apply stats_final_helper_result.
  - destruct agg as [ctx|]; [|by destruct s].
    destruct (is_null (values ctx)) eqn:Hv.
    + rewrite value_callback_helper.
      unfold stats_value_helper, sqlite3_aggregate_context. by rewrite Hv.
    + by apply value_callback_initialised.
Qed.

(** C6, as the code has it: in double precision, when the variance computed
    from the running totals is a negative number, the variance query reports
    that negative number, and the standard deviation query reports NULL. *)
Theorem negative_variance_reported
    (ctx : WindowStatsData binary64) (context : sqlite3_context binary64) :
  is_null (values ctx) = false ->
  (is_negative (calculate_variance_population ctx) = true ->
     variance_pop_value (Some ctx) context
     = ResultDouble (calculate_variance_population ctx) /\
     stddev_pop_value (Some ctx) context = ResultNull) /\
  (is_negative (calculate_variance_sample ctx) = true ->
     variance_samp_value (Some ctx) context
     = ResultDouble (calculate_variance_sample ctx) /\
     stddev_samp_value (Some ctx) context = ResultNull).
Proof.
  intros Hv. split; intros Hneg.
  - by apply (negative_variance ctx context VariancePopulation StddevPopulation).
  - by apply (negative_variance ctx context VarianceSample StddevSample).
Qed.

(** The claim C6 as it is written fails: 0.2 buffered three times makes the
    population variance -2^-57 and the sample variance -1.5 * 2^-57 (about
    -1.04e-17), and both queries report these numbers; and no buffer whose
    variance comes out negative makes a variance query report NULL. *)
Lemma negative_variance_is_not_null :
  buffered (run None [Step binary64_host [SqlFloat two_tenths];
                      Step binary64_host [SqlFloat two_tenths];
                      Step binary64_host [SqlFloat two_tenths]])
  = [two_tenths; two_tenths; two_tenths] /\
  variance_pop_value
    (run None [Step binary64_host [SqlFloat two_tenths];
               Step binary64_host [SqlFloat two_tenths];
               Step binary64_host [SqlFloat two_tenths]]) ResultUnset
  = ResultDouble (S754_finite true 4503599627370496 (-109)) /\
  variance_samp_value
    (run None [Step binary64_host [SqlFloat two_tenths];
               Step binary64_host [SqlFloat two_tenths];
               Step binary64_host [SqlFloat two_tenths]]) ResultUnset
  = ResultDouble (S754_finite true 6755399441055744 (-109)) /\
  ~ (exists (ctx : WindowStatsData binary64) (context : sqlite3_context binary64),
       is_null (values ctx) = false /\
       ((is_negative (calculate_variance_population ctx) = true /\
         variance_pop_value (Some ctx) context = ResultNull) \/
        (is_negative (calculate_variance_sample ctx) = true /\
         variance_samp_value (Some ctx) context = ResultNull))).
Proof.
  split; [vm_compute; reflexivity|].
  split; [vm_compute; reflexivity|].
  split; [vm_compute; reflexivity|].
  intros (ctx & context & Hv & [[Hneg Hnull]|[Hneg Hnull]]).
  - destruct (negative_variance ctx context VariancePopulation StddevPopulation
                Hv Hneg eq_refl) as [Hrep _].
    simpl in Hrep. congruence.
  - destruct (negative_variance ctx context VarianceSample StddevSample
                Hv Hneg eq_refl) as [Hrep _].
    simpl in Hrep. congruence.
Qed.

(** ** Sample runs in double precision *)

(** The sliding window of the specification: 1 to 5 are inserted and the
    oldest value is evicted; the population variance of 2, 3, 4, 5 is
    reported as 1.25. *)
Example sliding_window_scenario :
  variance_pop_value
    (run None [Step binary64_host [SqlInteger 1]; Step binary64_host [SqlInteger 2];
               Step binary64_host [SqlInteger 3]; Step binary64_host [SqlInteger 4];
               Step binary64_host [SqlInteger 5]; Inverse [SqlInteger 1]])
    ResultUnset
  = ResultDouble (S754_finite false 5629499534213120 (-52)).
Proof. vm_compute. reflexivity. Qed.

(** Order across wrap-around: the buffer is filled with 1 to 100, 1 is
    evicted and 101 is inserted in the slot it left; head and tail are both
    1, no growth has happened, and the buffer reads 2 to 101. *)
Example wrap_around_order :
  buffered (run None (inserts full_steps
                      ++ [Inverse [SqlInteger 1]; Step binary64_host [SqlInteger 101]]))
  = (fun i => d_of_int i) <$> seqZ 2 100 /\
  (fun ctx : WindowStatsData binary64 => (head ctx, tail ctx, count ctx, capacity ctx))
    <$> run None (inserts full_steps
                  ++ [Inverse [SqlInteger 1]; Step binary64_host [SqlInteger 101]])
  = Some (1, 1, 100, 100).
Proof. split; vm_compute; reflexivity. Qed.

(** ** The theorems at sample inputs *)

Lemma incremental_sums_witness :
  forallb call_exact window_calls = true /\
  (forallb is_exact (buffered (run None window_calls)) = true /\
   running_sum (run None window_calls) = sum_of (buffered (run None window_calls)) /\
   running_sum_sq (run None window_calls)
   = sum_sq_of (buffered (run None window_calls))).
Proof.
  split; [reflexivity | apply (incremental_sums window_calls); reflexivity].
Defined.

Lemma sample_variance_direct_witness :
  forallb call_exact window_calls = true /\
  2 <= buffered_count (run None window_calls) /\
  (variance_samp_value (run None window_calls) ResultUnset
   = ResultDouble (direct_variance_sample (buffered (run None window_calls))) /\
   is_exact (direct_variance_sample (buffered (run None window_calls))) = true).
Proof.
  split; [reflexivity|]. split; [by vm_compute|].
  apply (sample_variance_direct window_calls); [reflexivity | by vm_compute].
Defined.

Lemma fifo_window_variance_witness :
  forallb call_exact window_calls = true /\
  1 <= buffered_count (run None window_calls) /\
  (variance_pop_value (run None window_calls) ResultUnset
   = ResultDouble (direct_variance_population (buffered (run None window_calls))) /\
   is_exact (direct_variance_population (buffered (run None window_calls))) = true).
Proof.
  split; [reflexivity|]. split; [by vm_compute|].
  apply (proj2 fifo_window_variance window_calls); [reflexivity | by vm_compute].
Defined.


Lemma negative_variance_reported_witness :
  is_null (values three_two_tenths) = false /\
  is_negative (calculate_variance_population three_two_tenths) = true /\
  is_negative (calculate_variance_sample three_two_tenths) = true /\
  (variance_pop_value (Some three_two_tenths) ResultUnset
   = ResultDouble (calculate_variance_population three_two_tenths) /\
   stddev_pop_value (Some three_two_tenths) ResultUnset = ResultNull) /\
  (variance_samp_value (Some three_two_tenths) ResultUnset
   = ResultDouble (calculate_variance_sample three_two_tenths) /\
   stddev_samp_value (Some three_two_tenths) ResultUnset = ResultNull).
Proof.
  split; [reflexivity|]. split; [vm_compute; reflexivity|].
  split; [vm_compute; reflexivity|].
  split.
  - apply (proj1 (negative_variance_reported three_two_tenths ResultUnset eq_refl)).
    vm_compute; reflexivity.
  - apply (proj2 (negative_variance_reported three_two_tenths ResultUnset eq_refl)).
    vm_compute; reflexivity.
Defined.

Lemma growth_transparency_witness :
  run None (inserts full_steps) = Some full_buffer /\
  is_null (values full_buffer) = false /\
  count full_buffer = capacity full_buffer /\
  stats_step binary64_host (Some full_buffer) ResultUnset [SqlInteger 101]
  = ((stats_step binary64_host (Some full_buffer) ResultUnset [SqlInteger 101]).1,
     ResultUnset) /\
  (exists g,
     grow_stats_buffer binary64_host ResultUnset full_buffer
     = (SQLITE_OK, ResultUnset, g) /\
     capacity g = 2 * capacity full_buffer /\ count g = count full_buffer /\
     head g = 0 /\ tail g = count full_buffer /\
     sum g = sum full_buffer /\ sum_sq g = sum_sq full_buffer /\
     (forall i, 0 <= i < count full_buffer ->
        load (values g) i = peek_logical full_buffer i /\
        peek_logical g i = peek_logical full_buffer i) /\
     (stats_step binary64_host (Some full_buffer) ResultUnset [SqlInteger 101]).1
     = Some (write_value g (sqlite3_value_double (SqlInteger 101))) /\
     buffered (stats_step binary64_host (Some full_buffer) ResultUnset
                 [SqlInteger 101]).1
     = buffered_data full_buffer ++ [sqlite3_value_double (SqlInteger 101)] /\
     grew (Some full_buffer)
          (stats_step binary64_host (Some full_buffer) ResultUnset [SqlInteger 101]).1
     = true) /\
  Z.of_nat (length (full_steps ++ [(binary64_host, SqlInteger 101)]))
  = INITIAL_CAPACITY + 1 /\
  all_numeric (full_steps ++ [(binary64_host, SqlInteger 101)]) = true /\
  trace None (inserts (full_steps ++ [(binary64_host, SqlInteger 101)]))
  = replicate (length (full_steps ++ [(binary64_host, SqlInteger 101)])) ResultUnset /\
  (growth_events None (inserts (full_steps ++ [(binary64_host, SqlInteger 101)]))
   = 1%nat /\
   buffered (run None (inserts (full_steps ++ [(binary64_host, SqlInteger 101)])))
   = inserted_values (full_steps ++ [(binary64_host, SqlInteger 101)]) /\
   buffer_capacity (run None (inserts (full_steps ++ [(binary64_host, SqlInteger 101)])))
   = 2 * INITIAL_CAPACITY).
Proof.
  assert (Hrun : run None (inserts full_steps) = Some full_buffer)
    by (vm_compute; reflexivity).
  assert (Hstep :
    stats_step binary64_host (Some full_buffer) ResultUnset [SqlInteger 101]
    = ((stats_step binary64_host (Some full_buffer) ResultUnset [SqlInteger 101]).1,
       ResultUnset)) by (vm_compute; reflexivity).
  assert (Htrace :
    trace None (inserts (full_steps ++ [(binary64_host, SqlInteger 101)]))
    = replicate (length (full_steps ++ [(binary64_host, SqlInteger 101)])) ResultUnset)
    by (vm_compute; reflexivity).
  split; [exact Hrun|]. split; [vm_compute; reflexivity|].
  split; [vm_compute; reflexivity|]. split; [exact Hstep|].
  split.
  - apply (proj1 (growth_transparency (F := binary64))
             (inserts full_steps) binary64_host (SqlInteger 101) full_buffer _
             Hrun); [vm_compute; reflexivity .. | exact Hstep].
  - split; [vm_compute; reflexivity|]. split; [vm_compute; reflexivity|].
    split; [exact Htrace|].
    apply (proj2 (growth_transparency (F := binary64))
             (full_steps ++ [(binary64_host, SqlInteger 101)]));
      [vm_compute; reflexivity | vm_compute; reflexivity | exact Htrace].
Defined.

Lemma growth_failure_atomic_witness :
  is_null (values full_buffer) = false /\
  is_numeric (SqlInteger 101 : sqlite3_value binary64) = true /\
  capacity full_buffer <= count full_buffer /\
  malloc failing_host
    (Int.size_mul
       (Int.to_size (Int.mul (capacity full_buffer) CAPACITY_GROWTH_FACTOR))
       sizeof_double) = None /\
  (grow_stats_buffer failing_host
     ResultUnset full_buffer = (SQLITE_NOMEM, ResultNomem, full_buffer) /\
   stats_step failing_host
     (Some full_buffer) ResultUnset [SqlInteger 101]
   = (Some full_buffer, ResultNomem)).
Proof.
  split; [vm_compute; reflexivity|]. split; [reflexivity|].
  split; [by vm_compute|]. split; [vm_compute; reflexivity|].
  apply (growth_failure_atomic failing_host
           full_buffer (SqlInteger 101) ResultUnset);
    [vm_compute; reflexivity | reflexivity | by vm_compute | vm_compute; reflexivity].
Defined.


(** * Further properties of the code *)

(** ** Upper-case names *)

Lemma upper_char_spec (c : ascii) :
  is_lower (upper_char c) = false /\
  (is_lower c = false -> upper_char c = c) /\
  (is_lower c = true -> N_of_ascii (upper_char c) = (N_of_ascii c - 32)%N).
Proof. by destruct c as [[] [] [] [] [] [] [] []]. Qed.

(** X1: the upper-case copy of a name has the same length; its character at
    each position is the upper case of the original one, where a letter from
    a to z moves down by 32 and every other character stays; no letter from a
    to z is left, and converting again changes nothing. *)
Theorem upper_name_spec (name : string) :
  String.length (upper_name name) = String.length name /\
  (forall i c, String.get i name = Some c ->
     String.get i (upper_name name) = Some (upper_char c) /\
     is_lower (upper_char c) = false /\
     (is_lower c = false -> upper_char c = c) /\
     (is_lower c = true -> N_of_ascii (upper_char c) = (N_of_ascii c - 32)%N)) /\
  upper_name (upper_name name) = upper_name name.
Proof.
  split_and!.
  - induction name as [|c name IH]; simpl; [done | by rewrite IH].
  - induction name as [|c name IH]; intros i d Hget; [done|].
    destruct i as [|i]; simpl in *.
    + injection Hget as <-. split; [done | apply upper_char_spec].
    + by apply IH.
  - induction name as [|c name IH]; simpl; [done|]. rewrite IH. f_equal.
    apply (proj1 (proj2 (upper_char_spec (upper_char c)))).
    apply upper_char_spec.
Qed.

(** ** One name *)

Section Registration.

Implicit Types (h : registrar) (db : sqlite3) (name : string).
Implicit Types (xF xV : callback).

(** What one call of [register_unified_stats_function] can do. *)
Lemma register_unified_cases h db name xF xV :
  let lower := lower_registration name xF xV in
  let upper := upper_registration name xF xV in
  let rc1 := create_window_function_rc h db lower in
  let rc2 := create_window_function_rc h (db ++ [(lower, rc1)]) upper in
  register_unified_stats_function h db name xF xV
  = if negb (rc1 =? RC_OK) then (rc1, db ++ [(lower, rc1)])
    else if negb (malloc_name_ok h (db ++ [(lower, rc1)])
                    (Z.of_nat (String.length name) + 1))
    then (RC_NOMEM, db ++ [(lower, rc1)])
    else (rc2, db ++ [(lower, rc1); (upper, rc2)]).
Proof.
  cbv zeta. unfold register_unified_stats_function, sqlite3_create_window_function.
  fold (lower_registration name xF xV). fold (upper_registration name xF xV).
  destruct (negb _); [done|]. destruct (negb _); [done|].
  f_equal. by rewrite <- app_assoc.
Qed.

End Registration.


(** ** All names *)

Section RegistrationLoops.

Implicit Types (h : registrar) (db made : sqlite3) (full : list registration).

Lemma calls_of_app made1 made2 :
  calls_of (made1 ++ made2) = calls_of made1 ++ calls_of made2.
Proof. apply fmap_app. Qed.

Lemma codes_of_app made1 made2 :
  codes_of (made1 ++ made2) = codes_of made1 ++ codes_of made2.
Proof. apply fmap_app. Qed.

Lemma registration_outcome_nil full : registration_outcome RC_OK [] full <-> full = [].
Proof.
  unfold registration_outcome. simpl. split.
  - intros (_ & _ & [Hok _] & _). by destruct (Hok eq_refl).
  - intros ->. split_and!; try done; (split; [done | by intros _]).
Qed.

(** A part that stopped early stops the whole. *)
Lemma registration_outcome_stop rc made full1 full2 :
  rc <> RC_OK -> registration_outcome rc made full1 ->
  registration_outcome rc made (full1 ++ full2).
Proof.
  intros Hrc (Hpre & Hall & Hok & Hlast). split_and!; try done.
  - by apply prefix_app_r.
  - split; [done|]. intros [Hcalls Hcodes]. apply Hok. split; [|done].
    destruct Hpre as [k Hk]. rewrite Hk in Hcalls.
    rewrite <- (assoc_L (++)) in Hcalls.
    rewrite <- (app_nil_r (calls_of made)) in Hcalls at 1.
    apply app_inv_head in Hcalls. symmetry in Hcalls.
    apply app_eq_nil in Hcalls as [-> _]. by rewrite app_nil_r in Hk.
Qed.

(** A part that completed is followed by the next. *)
Lemma registration_outcome_continue rc made1 made2 full1 full2 :
  registration_outcome RC_OK made1 full1 ->
  registration_outcome rc made2 full2 ->
  registration_outcome rc (made1 ++ made2) (full1 ++ full2).
Proof.
  intros (_ & _ & [Hok1 _] & _) (Hpre & Hall & Hok & Hlast).
  destruct (Hok1 eq_refl) as [Hcalls1 Hcodes1].
  unfold registration_outcome. rewrite calls_of_app, codes_of_app, Hcalls1.
  split_and!.
  - by apply prefix_app.
  - destruct made2 as [|c made2].
    + rewrite !app_nil_r. by apply Forall_take.
    + rewrite length_app. cbn [length].
      replace (length made1 + S (length made2) - 1)%nat
        with (length (codes_of made1) + length made2)%nat
        by (unfold codes_of; rewrite length_fmap; lia).
      rewrite take_app_add. apply Forall_app. split; [done|].
      cbn [length] in Hall. by rewrite Nat.sub_1_r in Hall.
  - rewrite Hok. split.
    + intros [-> Hcodes]. split; [done | by apply Forall_app].
    + intros [Hcalls Hcodes]. apply app_inv_head in Hcalls.
      by apply Forall_app in Hcodes as [_ ?].
  - intros Hrc. destruct (Hlast Hrc) as [Hl|[-> Hl]]; [left|right; split; [done|]].
    all: destruct (codes_of made2) as [|c cs] eqn:Hc; [done|].
    all: by rewrite last_app, Hl.
Qed.

Lemma register_unified_stats_function_outcome h db name xF xV :
  exists made,
    (register_unified_stats_function h db name xF xV).2 = db ++ made /\
    registration_outcome (register_unified_stats_function h db name xF xV).1
      made (registrations_of name xF xV).
Proof.
  rewrite register_unified_cases. cbv zeta.
  set (lower := lower_registration name xF xV).
  set (upper := upper_registration name xF xV).
  set (rc1 := create_window_function_rc h db lower).
  set (rc2 := create_window_function_rc h (db ++ [(lower, rc1)]) upper).
  unfold registration_outcome, registrations_of. fold lower upper.
  destruct (Z.eqb_spec rc1 RC_OK) as [Hrc1|Hrc1]; cbn [negb].
  - destruct (malloc_name_ok h _ _); cbn [negb].
    + exists [(lower, rc1); (upper, rc2)]. cbn [fst snd]. rewrite Hrc1.
      split_and!; try done.
      * by repeat constructor.
      * split; [intros ->; split; [done | by repeat constructor]|].
        intros [_ Hc]. by inversion Hc as [|? ? _ Hc']; inversion Hc'.
      * intros _. by left.
    + exists [(lower, rc1)]. cbn [fst snd]. rewrite Hrc1.
      split_and!; try done.
      * by exists [upper].
      * split; [done | by intros [? _]].
      * intros _. by right.
  - exists [(lower, rc1)]. cbn [fst snd].
    split_and!; try done.
    + by exists [upper].
    + split; [done|]. by intros [? _].
    + intros _. by left.
Qed.

Lemma register_names_outcome h db (ns : list string) xF xV :
  exists made,
    (register_names h db ns xF xV).2 = db ++ made /\
    registration_outcome (register_names h db ns xF xV).1 made
      (ns ≫= (fun name => registrations_of name xF xV)).
Proof.
  revert db. induction ns as [|name ns IH]; intros db.
  - exists []. split; [by rewrite app_nil_r | by apply registration_outcome_nil].
  - cbn [register_names]. rewrite bind_cons.
    destruct (register_unified_stats_function_outcome h db name xF xV)
      as (made1 & Hdb1 & Hout1).
    destruct (register_unified_stats_function h db name xF xV) as [rc1 db1].
    cbn [fst snd] in *. subst db1.
    destruct (Z.eqb_spec rc1 RC_OK) as [->|Hrc1]; cbn [negb].
    + destruct (IH (db ++ made1)) as (made2 & Hdb2 & Hout2).
      exists (made1 ++ made2). split; [by rewrite Hdb2, (assoc_L (++))|].
      by apply registration_outcome_continue.
    + exists made1. split; [done|]. by apply registration_outcome_stop.
Qed.

Lemma register_groups_outcome h db (groups : list StatsFunctionGroup) :
  exists made,
    (register_groups h db groups).2 = db ++ made /\
    registration_outcome (register_groups h db groups).1 made
      (groups ≫= (fun group =>
         take (Z.to_nat (name_count group)) (names group) ≫=
           (fun name => registrations_of name (xFinal group) (xValue group)))).
Proof.
  revert db. induction groups as [|group groups IH]; intros db.
  - exists []. split; [by rewrite app_nil_r | by apply registration_outcome_nil].
  - cbn [register_groups]. rewrite bind_cons.
    destruct (register_names_outcome h db
                (take (Z.to_nat (name_count group)) (names group))
                (xFinal group) (xValue group)) as (made1 & Hdb1 & Hout1).
    destruct (register_names h db _ _ _) as [rc1 db1].
    cbn [fst snd] in *. subst db1.
    destruct (Z.eqb_spec rc1 RC_OK) as [->|Hrc1]; cbn [negb].
    + destruct (IH (db ++ made1)) as (made2 & Hdb2 & Hout2).
      exists (made1 ++ made2). split; [by rewrite Hdb2, (assoc_L (++))|].
      by apply registration_outcome_continue.
    + exists made1. split; [done|]. by apply registration_outcome_stop.
Qed.

End RegistrationLoops.

(** X3: whatever the host answers, [sqlite3_extension_init] makes the calls
    of the complete registration in their order and stops at the first
    failure: the calls made are an initial part of the complete list, all
    but the last were accepted, and SQLITE_OK is returned exactly when every
    call was made and accepted; otherwise the code returned is that of the
    last call, or SQLITE_NOMEM after an accepted call. *)
Theorem extension_init_outcome (h : registrar) (db : sqlite3) :
  exists made,
    (sqlite3_extension_init h db).2 = db ++ made /\
    calls_of made `prefix_of` all_registrations /\
    Forall (fun c => c = RC_OK) (take (length made - 1) (codes_of made)) /\
    ((sqlite3_extension_init h db).1 = RC_OK <->
     calls_of made = all_registrations /\
     Forall (fun c => c = RC_OK) (codes_of made)) /\
    ((sqlite3_extension_init h db).1 <> RC_OK ->
     last (codes_of made) = Some (sqlite3_extension_init h db).1 \/
     ((sqlite3_extension_init h db).1 = RC_NOMEM /\
      last (codes_of made) = Some RC_OK)).
Proof.
  destruct (register_groups_outcome h db functions_to_register)
    as (made & Hdb & Hout).
  exists made. split; [done|]. exact Hout.
Qed.

Section Accepted.

Variable h : registrar.
Hypothesis accepted : forall db r, create_window_function_rc h db r = RC_OK.
Hypothesis room : forall db size, malloc_name_ok h db size = true.

Lemma register_unified_accepted db name xF xV :
  register_unified_stats_function h db name xF xV =
  (RC_OK, db ++ accepted_calls (registrations_of name xF xV)).
Proof.
  rewrite register_unified_cases. cbv zeta.
  rewrite !accepted, room. cbn [negb Z.eqb RC_OK].
  reflexivity.
Qed.

Lemma register_names_accepted db ns xF xV :
  register_names h db ns xF xV =
  (RC_OK, db ++ accepted_calls (ns ≫= (fun name => registrations_of name xF xV))).
Proof.
  revert db. induction ns as [|name ns IH]; intros db.
  - cbn. by rewrite app_nil_r.
  - cbn [register_names]. rewrite register_unified_accepted.
    cbn [negb Z.eqb RC_OK]. rewrite IH, bind_cons.
    unfold accepted_calls. by rewrite fmap_app, (assoc_L (++)).
Qed.

Lemma register_groups_accepted db groups :
  register_groups h db groups =
  (RC_OK, db ++ accepted_calls (groups ≫= (fun group =>
         take (Z.to_nat (name_count group)) (names group) ≫=
           (fun name => registrations_of name (xFinal group) (xValue group))))).
Proof.
  revert db. induction groups as [|group groups IH]; intros db.
  - cbn. by rewrite app_nil_r.
  - cbn [register_groups]. rewrite register_names_accepted.
    cbn [negb Z.eqb RC_OK]. rewrite IH, bind_cons.
    unfold accepted_calls. by rewrite fmap_app, (assoc_L (++)).
Qed.

End Accepted.

(** X4: when the host accepts every registration and has room for every
    name, [sqlite3_extension_init] returns SQLITE_OK after making exactly
    the calls of the complete registration, in order, each accepted: for
    every alias of every group the name as written and then its upper
    case. *)
Theorem extension_init_complete (h : registrar) (db : sqlite3) :
  (forall db r, create_window_function_rc h db r = RC_OK) ->
  (forall db size, malloc_name_ok h db size = true) ->
  sqlite3_extension_init h db = (RC_OK, db ++ accepted_calls all_registrations).
Proof.
  intros Hacc Hroom. unfold sqlite3_extension_init.
  by rewrite register_groups_accepted.
Qed.

Lemma extension_init_complete_witness :
  sqlite3_extension_init accepting [] = (RC_OK, [] ++ accepted_calls all_registrations).
Proof. apply (extension_init_complete accepting []); reflexivity. Defined.

(** X5: the table of names is consistent.  Every call of the complete
    registration is for one argument, with [stats_step] and [stats_inverse]
    and with the value and final functions of one and the same statistic;
    the flags are those of UTF8 and DETERMINISTIC, with INNOCUOUS exactly on
    the names that hold no lower-case letter; and two calls whose names
    differ at most in letter case register the same functions, so that no
    alias hides a different statistic. *)
Theorem registered_names_consistent :
  Forall (fun r =>
    reg_nArg r = 1 /\ reg_xStep r = Ptr_stats_step /\
    reg_xInverse r = Ptr_stats_inverse /\
    (exists s, reg_xValue r = Ptr_value s /\ reg_xFinal r = Ptr_final s) /\
    reg_eTextRep r =
      (if bool_decide (upper_name (reg_zName r) = reg_zName r)
       then SQLITE_UTF8 + SQLITE_DETERMINISTIC + SQLITE_INNOCUOUS
       else SQLITE_UTF8 + SQLITE_DETERMINISTIC)) all_registrations /\
  (forall r1 r2, r1 ∈ all_registrations -> r2 ∈ all_registrations ->
     same_function_name (reg_zName r1) (reg_zName r2) ->
     reg_xValue r1 = reg_xValue r2 /\ reg_xFinal r1 = reg_xFinal r2).
Proof.
  split.
  - set (l := all_registrations). vm_compute in l. subst l.
    repeat (constructor;
      [split_and!;
         [reflexivity | reflexivity | reflexivity
         | eexists; split; reflexivity | vm_compute; reflexivity]|]).
    constructor.
  - assert (Hall : Forall (fun r1 => Forall (fun r2 =>
        same_function_name (reg_zName r1) (reg_zName r2) ->
        reg_xValue r1 = reg_xValue r2 /\ reg_xFinal r1 = reg_xFinal r2)
        all_registrations) all_registrations).
    { unfold same_function_name. apply (bool_decide_unpack _). vm_compute. exact I. }
    intros r1 r2 H1 H2. rewrite Forall_forall in Hall.
    specialize (Hall r1 H1). rewrite Forall_forall in Hall. exact (Hall r2 H2).
Qed.

Lemma registered_names_consistent_witness :
  reg_xValue (lower_registration "var" (Ptr_final VarianceSample) (Ptr_value VarianceSample)) =
  reg_xValue (upper_registration "var" (Ptr_final VarianceSample) (Ptr_value VarianceSample)) /\
  reg_xFinal (lower_registration "var" (Ptr_final VarianceSample) (Ptr_value VarianceSample)) =
  reg_xFinal (upper_registration "var" (Ptr_final VarianceSample) (Ptr_value VarianceSample)).
Proof.
  apply (proj2 registered_names_consistent).
  - apply (list_elem_of_lookup_2 _ 34%nat). reflexivity.
  - apply (list_elem_of_lookup_2 _ 35%nat). reflexivity.
  - reflexivity.
Defined.

(** ** The buffer over a run *)

Section RunFacts.

Context {F : Type} `{Double F}.
Implicit Types (data ctx : WindowStatsData F) (agg : option (StatsWindowContext F)).
Implicit Types (arg : sqlite3_value F) (h : host F) (c : call F).

Lemma grew_refl agg : grew agg agg = false.
Proof.
  destruct agg as [ctx|]; [|done]. simpl.
  by rewrite Z.eqb_refl, andb_false_r.
Qed.

Lemma grew_uninitialised agg agg' : initialised agg = false -> grew agg agg' = false.
Proof.
  destruct agg as [ctx|]; [|done]. destruct agg' as [ctx'|]; [|done]. simpl.
  by intros ->.
Qed.

Lemma buffer_capacity_uninitialised agg :
  initialised agg = false -> buffer_capacity agg = INITIAL_CAPACITY.
Proof.
  destruct agg as [ctx|]; [|done]. simpl.
  by destruct (is_null (values ctx)).
Qed.

Lemma buffer_ok_is_null ctx : buffer_ok ctx -> is_null (values ctx) = false.
Proof. by intros [(a & -> & _) _ _ _ _]. Qed.

Lemma store_is_null (p : option (list F)) i v : is_null (store p i v) = is_null p.
Proof. destruct p; [|done]. simpl. by destruct (0 <=? i). Qed.

Lemma context_ok_uninitialised agg :
  context_ok agg -> initialised agg = false -> buffered_count agg = 0.
Proof.
  destruct agg as [ctx|]; [|done]. simpl.
  destruct (values ctx); [done|]. by intros (? & _).
Qed.

Lemma buffer_capacity_written ctx v :
  buffer_ok ctx ->
  buffer_capacity (Some (write_value ctx v)) = capacity ctx.
Proof.
  intros Hb. cbn [buffer_capacity write_value add_to_circular_buffer values capacity].
  by rewrite store_is_null, buffer_ok_is_null.
Qed.

(** What [stats_inverse] does, case by case. *)
Lemma stats_inverse_cases agg (context : sqlite3_context F) argv :
  stats_inverse agg context argv
  = match agg, argv with
    | Some ctx, arg :: _ =>
        if is_null (values ctx) || (count ctx <=? 0) || is_sql_null arg
        then (agg, context)
        else (Some {| values := values ctx;
                      count := Int.sub (count ctx) 1;
                      capacity := capacity ctx;
                      head := Int.rem (Int.add (head ctx) 1) (capacity ctx);
                      tail := tail ctx;
                      sum := d_sub (sum ctx) (load (values ctx) (head ctx));
                      sum_sq := d_sub (sum_sq ctx)
                                  (d_mul (load (values ctx) (head ctx))
                                         (load (values ctx) (head ctx))) |},
              context)
    | _, _ => (agg, context)
    end.
Proof.
  unfold stats_inverse, sqlite3_aggregate_context.
  destruct agg as [ctx|]; [|done].
  destruct (is_null (values ctx)); [by destruct argv|].
  destruct (Z.leb_spec (count ctx) 0) as [Hn|Hn]; [by destruct argv|].
  destruct argv as [|arg rest]; [done|]. cbn [orb].
  unfold is_sql_null. destruct (sqlite3_value_type arg); try done.
  all: unfold remove_from_circular_buffer.
  all: by destruct (Z.eqb_spec (count ctx) 0); [lia|].
Qed.

(** A step that passes the initialisation and does not write leaves the
    capacity as it was. *)
Lemma initialise_capacity h agg context ctx :
  context_ok agg ->
  initialise h agg = Some (SQLITE_OK, context, ctx) ->
  buffer_ok ctx /\ buffer_capacity agg = capacity ctx /\
  grew agg (Some ctx) = false /\
  (initialised agg = true -> agg = Some ctx) /\
  (initialised agg = false -> count ctx = 0 /\ capacity ctx = INITIAL_CAPACITY).
Proof.
  intros Hok Hi. pose proof (initialise_spec h agg Hok) as Hs. rewrite Hi in Hs.
  destruct Hs as (_ & Hcount & _ & Hb & Hinit & Hfresh). split; [done|].
  destruct (initialised agg) eqn:Hin.
  - rewrite (Hinit eq_refl). rewrite grew_refl. cbn [buffer_capacity].
    by rewrite buffer_ok_is_null.
  - rewrite grew_uninitialised, buffer_capacity_uninitialised by done.
    rewrite Hcount, context_ok_uninitialised by done.
    by rewrite Hfresh.
Qed.

(** One call either keeps the capacity or, when it grew the buffer, doubles
    it. *)
Lemma stats_step_capacity h agg argv :
  context_ok agg ->
  buffer_capacity (stats_step h agg ResultUnset argv).1
  = if grew agg (stats_step h agg ResultUnset argv).1
    then 2 * buffer_capacity agg else buffer_capacity agg.
Proof.
  intros Hok.
  destruct argv as [|arg [|arg' argv]];
    [by cbn; rewrite grew_refl| |by cbn; rewrite grew_refl].
  rewrite stats_step_unfold. pose proof (initialise_spec h agg Hok) as Hs.
  destruct (initialise h agg) as [[[rc context] ctx]|] eqn:Hi;
    [|by cbn; rewrite grew_refl].
  destruct rc.
  - destruct (initialise_capacity h agg context ctx Hok Hi)
      as (Hb & Hcap & Hg & Hinit & Hfresh).
    assert (Hkeep : buffer_capacity (Some ctx)
              = if grew agg (Some ctx) then 2 * buffer_capacity agg
                else buffer_capacity agg).
    { rewrite Hg, Hcap. cbn [buffer_capacity]. by rewrite buffer_ok_is_null. }
    assert (Hnum : forall context,
      buffer_capacity
        (let '(rc, context, ctx) :=
           if capacity ctx <=? count ctx then grow_stats_buffer h context ctx
           else (SQLITE_OK, context, ctx) in
         match rc with
         | SQLITE_NOMEM => (Some ctx, context)
         | SQLITE_OK => (Some (write_value ctx (sqlite3_value_double arg)), context)
         end).1
      = if grew agg
             (let '(rc, context, ctx) :=
                if capacity ctx <=? count ctx then grow_stats_buffer h context ctx
                else (SQLITE_OK, context, ctx) in
              match rc with
              | SQLITE_NOMEM => (Some ctx, context)
              | SQLITE_OK => (Some (write_value ctx (sqlite3_value_double arg)), context)
              end).1
        then 2 * buffer_capacity agg else buffer_capacity agg).
    { intros context0.
      destruct (Z.leb_spec (capacity ctx) (count ctx)) as [Hfull|Hroom].
      - destruct (grow_stats_buffer h context0 ctx) as [[rc' context'] g] eqn:Hgrow.
        destruct rc'.
        + apply grow_stats_buffer_OK in Hgrow as (_ & Hbg & Hcg & _); [|done].
          cbn [fst]. rewrite buffer_capacity_written by done.
          destruct (initialised agg) eqn:Hin.
          * rewrite (Hinit eq_refl) in *.
            cbn [grew write_value add_to_circular_buffer values capacity].
            rewrite buffer_ok_is_null by done. cbn [negb andb].
            pose proof Hb as [_ ? _ _ _].
            destruct (Z.eqb_spec (capacity g) (capacity ctx)); [lia|].
            cbn [negb buffer_capacity].
            rewrite buffer_ok_is_null by done. lia.
          * destruct (Hfresh eq_refl) as [H0 H1]. rewrite H0, H1 in Hfull.
            by vm_compute in Hfull.
        + apply grow_stats_buffer_NOMEM in Hgrow as [_ ->]. by cbn [fst].
      - cbn [fst]. rewrite buffer_capacity_written by done.
        destruct (initialised agg) eqn:Hin.
        + rewrite (Hinit eq_refl) in *.
          cbn [grew write_value add_to_circular_buffer values capacity].
          rewrite Z.eqb_refl, andb_false_r. by rewrite Hcap.
        + rewrite grew_uninitialised by done. by rewrite Hcap. }
    destruct (sqlite3_value_type arg); cbn [fst]; try exact Hkeep. all: exact (Hnum _).
  - destruct Hs as (_ & _ & _ & Hin & _ & Hv). cbn [fst].
    rewrite grew_uninitialised, (buffer_capacity_uninitialised agg) by done.
    cbn [buffer_capacity]. by rewrite Hv.
Qed.

Lemma exec_capacity agg c :
  context_ok agg ->
  buffer_capacity (exec agg c).1
  = if grew agg (exec agg c).1 then 2 * buffer_capacity agg else buffer_capacity agg.
Proof.
  intros Hok. destruct c as [h argv|argv]; cbn [exec].
  - by apply stats_step_capacity.
  - rewrite stats_inverse_cases. destruct agg as [ctx|]; [|done].
    destruct argv as [|arg rest]; [by rewrite grew_refl|].
    destruct (_ || _); cbn [fst]; [by rewrite grew_refl|].
    cbn [grew buffer_capacity values capacity].
    by rewrite Z.eqb_refl, andb_false_r.
Qed.

Lemma run_capacity agg (calls : list (call F)) :
  context_ok agg ->
  buffer_capacity (run agg calls)
  = buffer_capacity agg * 2 ^ Z.of_nat (growth_events agg calls).
Proof.
  revert agg. induction calls as [|c calls IH]; intros agg Hok.
  - cbn. lia.
  - change (run agg (c :: calls)) with (run (exec agg c).1 calls).
    cbn [growth_events].
    rewrite IH by (by apply exec_effect). rewrite exec_capacity by done.
    destruct (grew agg (exec agg c).1).
    + rewrite Nat2Z.inj_add, Z.pow_add_r by lia. change (2 ^ Z.of_nat 1) with 2. lia.
    + by rewrite Nat.add_0_l.
Qed.

End RunFacts.

Section Reports.

Context {F : Type} `{Double F}.
Implicit Types (data ctx : WindowStatsData F) (agg : option (StatsWindowContext F)).
Implicit Types (arg : sqlite3_value F) (h : host F) (c : call F).

(** What a step with one argument can report. *)
Lemma stats_step_reports h agg arg :
  context_ok agg ->
  (stats_step h agg ResultUnset [arg]).2 = ResultUnset \/
  (stats_step h agg ResultUnset [arg]).2 = ResultNomem \/
  (stats_step h agg ResultUnset [arg]).2 = InvalidInput.
Proof.
  intros Hok. rewrite stats_step_unfold.
  pose proof (initialise_spec h agg Hok) as Hs.
  destruct (initialise h agg) as [[[rc context] ctx]|]; [|by right; left].
  destruct Hs as (_ & _ & Hs). destruct rc.
  - destruct Hs as (-> & Hb & _).
    assert (Hnum :
      (let '(rc, context, ctx) :=
         if capacity ctx <=? count ctx then grow_stats_buffer h ResultUnset ctx
         else (SQLITE_OK, ResultUnset, ctx) in
       match rc with
       | SQLITE_NOMEM => (Some ctx, context)
       | SQLITE_OK =>
           (Some (write_value ctx (sqlite3_value_double arg)), context)
       end).2 = ResultUnset \/
      (let '(rc, context, ctx) :=
         if capacity ctx <=? count ctx then grow_stats_buffer h ResultUnset ctx
         else (SQLITE_OK, ResultUnset, ctx) in
       match rc with
       | SQLITE_NOMEM => (Some ctx, context)
       | SQLITE_OK =>
           (Some (write_value ctx (sqlite3_value_double arg)), context)
       end).2 = ResultNomem).
    { destruct (capacity ctx <=? count ctx); [|by left].
      destruct (grow_stats_buffer h ResultUnset ctx) as [[rc' context'] g] eqn:Hgrow.
      destruct rc'.
      - apply grow_stats_buffer_OK in Hgrow as (-> & _); [by left | done].
      - apply grow_stats_buffer_NOMEM in Hgrow as [-> _]. by right. }
    destruct (sqlite3_value_type arg); cbn [snd];
      try (by left); try (by right; right).
    all: destruct Hnum as [Hn|Hn]; [left | right; left]; exact Hn.
  - destruct Hs as (-> & _). by right; left.
Qed.

Lemma stats_inverse_context agg (context : sqlite3_context F) argv :
  stats_inverse agg context argv = ((stats_inverse agg ResultUnset argv).1, context).
Proof.
  rewrite !stats_inverse_cases. destruct agg as [ctx|]; [|done].
  destruct argv as [|arg rest]; [done|]. by destruct (_ || _).
Qed.

End Reports.

(** X6: the layout of the buffer in every state the callbacks can reach from
    a new group.  A context without a buffer counts nothing and has zero
    totals.  A buffer is a block of exactly [capacity] slots, with
    [0 < capacity], [0 <= count <= capacity], [head] and [tail] inside the
    block, and [tail] always [count] slots after [head] around the ring. *)
Theorem reachable_layout {F : Type} `{Double F} (calls : list (call F)) :
  match run None calls with
  | None => True
  | Some ctx =>
      match values ctx with
      | None => count ctx = 0 /\ sum ctx = d_zero /\ sum_sq ctx = d_zero
      | Some a =>
          Z.of_nat (length a) = capacity ctx /\
          0 < capacity ctx <= Int.INT_MAX /\
          0 <= count ctx <= capacity ctx /\
          0 <= head ctx < capacity ctx /\
          0 <= tail ctx < capacity ctx /\
          tail ctx = (head ctx + count ctx) mod capacity ctx
      end
  end.
Proof.
  pose proof (run_context_ok None calls I) as Hok.
  destruct (run None calls) as [ctx|]; [|done]. cbn [context_ok] in Hok.
  destruct (values ctx) as [a|] eqn:Hv; [|done].
  destruct Hok as [(a' & Ha & Hlen) Hcap Hcount Hhead Htail].
  rewrite Hv in Ha. injection Ha as <-.
  split_and!; try done; try lia.
  all: rewrite Htail; apply Z.mod_pos_bound; lia.
Qed.

(** X7: the capacity of a group is [INITIAL_CAPACITY] doubled once for each
    growth event of its run, whatever the calls were and whichever
    allocations failed; it never shrinks, and the number of buffered values
    never exceeds it. *)
Theorem capacity_doubles {F : Type} `{Double F} (calls : list (call F)) :
  buffer_capacity (run None calls)
  = INITIAL_CAPACITY * 2 ^ Z.of_nat (growth_events None calls) /\
  0 <= buffered_count (run None calls) <= buffer_capacity (run None calls) /\
  (forall more : list (call F),
     buffer_capacity (run None calls) <= buffer_capacity (run None (calls ++ more))).
Proof.
  split; [|split].
  - by rewrite run_capacity.
  - pose proof (run_context_ok None calls I) as Hok.
    destruct (run None calls) as [ctx|];
      [|cbn; unfold INITIAL_CAPACITY; lia].
    cbn [context_ok buffered_count buffer_capacity] in *.
    destruct (values ctx) as [a|] eqn:Hv; cbn [is_null].
    + destruct Hok as [_ ? ? _ _]. lia.
    + destruct Hok as (-> & _). unfold INITIAL_CAPACITY. lia.
  - intros more. rewrite run_app.
    rewrite (run_capacity (run None calls)) by (by apply run_context_ok).
    assert (0 < buffer_capacity (run None calls)).
    { rewrite run_capacity by done. cbn [buffer_capacity].
      apply Z.mul_pos_pos; [done | apply Z.pow_pos_nonneg; lia]. }
    assert (1 <= 2 ^ Z.of_nat (growth_events (run None calls) more))
      by (apply Z.lt_pred_le, Z.pow_pos_nonneg; lia).
    nia.
Qed.

(** X8: what a call can report, and what it leaves when it does.  An inverse
    call never reports anything; a step reports nothing, out of memory, an
    invalid data type, or a wrong number of arguments, and never a result.
    A call that reports an error leaves the buffered values, their number
    and both running totals as they were; the wrong number of arguments is
    reported exactly for a step without exactly one argument, which then
    leaves the group untouched, without even allocating its context. *)
Theorem reports_keep_state {F : Type} `{Double F}
    (calls : list (call F)) (c : call F) :
  let agg := run None calls in
  let agg' := (exec agg c).1 in
  let r := (exec agg c).2 in
  (r = ResultUnset \/ r = ResultNomem \/ r = InvalidInput \/ r = WrongArgumentCount) /\
  (r <> ResultUnset ->
     (exists h argv, c = Step h argv) /\
     kept agg agg' /\ buffered_count agg' = buffered_count agg) /\
  (r = WrongArgumentCount <->
     exists h argv, c = Step h argv /\ length argv <> 1%nat) /\
  (r = WrongArgumentCount -> agg' = agg).
Proof.
  intros agg agg' r.
  assert (Hok : context_ok agg) by (by apply run_context_ok).
  destruct (exec_effect agg c Hok) as [Hok' Heff].
  fold agg' r in Hok', Heff.
  assert (Hkept : kept agg agg' -> buffered_count agg' = buffered_count agg).
  { intros (Hb & _). by rewrite !context_ok_count, Hb. }
  destruct c as [h argv|argv].
  - destruct argv as [|arg [|arg' argv]].
    + split_and!; try done.
      * by do 3 right.
      * intros _. split; [by eexists _, _|]. split; [apply kept_refl | done].
      * split; [intros _; by exists h, [] | done].
    + pose proof (stats_step_reports h agg arg Hok) as Hr.
      change ((stats_step h agg ResultUnset [arg]).2) with r in Hr.
      split_and!.
      * destruct Hr as [Hr|[Hr|Hr]]; rewrite Hr; auto.
      * intros Hne. split; [by eexists _, _|].
        assert (kept agg agg'); [|by auto].
        cbn [effect] in Heff. destruct r; try done.
      * split.
        -- intros Hw. by destruct Hr as [Hr|[Hr|Hr]]; rewrite Hr in Hw.
        -- intros (h' & argv' & [= <- <-] & Hlen). done.
      * intros Hw. by destruct Hr as [Hr|[Hr|Hr]]; rewrite Hr in Hw.
    + split_and!; try done.
      * by do 3 right.
      * intros _. split; [by eexists _, _|]. split; [apply kept_refl | done].
      * split; [intros _; by exists h, (arg :: arg' :: argv) | done].
  - assert (Hr : r = ResultUnset).
    { unfold r. cbn [exec]. by rewrite stats_inverse_context. }
    rewrite Hr. split_and!; try done.
    + by left.
    + split; [done|]. by intros (h & argv' & ? & _).
Qed.

(** X9: [stats_inverse] on any state a group can reach.  It never reports
    and never touches the capacity or the block.  With a NULL argument, or
    with nothing buffered (also when the group has no context or no buffer
    yet), it changes nothing at all.  Otherwise it removes exactly the
    oldest buffered value: the count goes down by one and the value is
    subtracted from both running totals. *)
Theorem inverse_contract {F : Type} `{Double F}
    (calls : list (call F)) (context : sqlite3_context F)
    (argv : list (sqlite3_value F)) :
  let agg := run None calls in
  let agg' := (stats_inverse agg context argv).1 in
  (stats_inverse agg context argv).2 = context /\
  buffer_capacity agg' = buffer_capacity agg /\
  initialised agg' = initialised agg /\
  match argv, buffered agg with
  | v :: _, x :: q =>
      if is_sql_null v then agg' = agg
      else buffered agg' = q /\
           buffered_count agg' = buffered_count agg - 1 /\
           running_sum agg' = d_sub (running_sum agg) x /\
           running_sum_sq agg' = d_sub (running_sum_sq agg) (d_mul x x)
  | _, _ => agg' = agg
  end.
Proof.
  intros agg agg'.
  assert (Hok : context_ok agg) by (by apply run_context_ok).
  unfold agg'. clearbody agg. clear agg'.
  rewrite stats_inverse_cases.
  destruct agg as [ctx|]; [|by destruct argv].
  destruct argv as [|v rest]; [done|].
  cbn [context_ok buffered] in *.
  destruct (values ctx) as [a|] eqn:Hv; cbn [is_null orb].
  - destruct (Z.leb_spec (count ctx) 0) as [Hn|Hn]; cbn [orb].
    + pose proof Hok as [_ _ ? _ _].
      assert (count ctx = 0) as H0 by lia.
      unfold buffered_data. by rewrite H0.
    + pose proof (remove_from_circular_buffer_buffered ctx Hok Hn) as Hq.
      unfold remove_from_circular_buffer in Hq.
      destruct (Z.eqb_spec (count ctx) 0); [lia|]. cbn [fst snd] in Hq.
      rewrite Hq. destruct (is_sql_null v); [done|]. cbn [fst snd].
      rewrite Hv in *.
      split_and!; try done.
      * cbn [buffer_capacity values capacity is_null]. by rewrite Hv.
      * cbn [initialised values]. by rewrite Hv.
      * cbn [buffered_count count]. pose proof Hok as [_ ? ? _ _].
        unfold Int.sub. apply wrap_small. unfold Int.INT_MIN, Int.INT_MAX in *. lia.
  - destruct Hok as (H0 & _). unfold buffered_data. by rewrite H0.
Qed.

Section FinalFacts.

Context {F : Type} `{Double F}.
Implicit Types (ctx : WindowStatsData F) (agg : option (StatsWindowContext F)).

Lemma stats_final_helper_released agg context func min_count :
  initialised (stats_final_helper agg context func min_count).1 = false /\
  ((stats_final_helper agg context func min_count).1 = None <-> agg = None) /\
  (initialised agg = false ->
   (stats_final_helper agg context func min_count).1 = agg).
Proof.
  unfold stats_final_helper, sqlite3_aggregate_context.
  destruct agg as [ctx|]; [|done].
  destruct (is_null (values ctx)) eqn:Hv; cbn [negb andb fst initialised values is_null];
    rewrite ?Hv; by split_and!.
Qed.

Lemma stats_value_helper_uninitialised agg context func min_count :
  initialised agg = false ->
  stats_value_helper agg context func min_count = ResultNull.
Proof.
  unfold stats_value_helper, sqlite3_aggregate_context.
  destruct agg as [ctx|]; [|done]. cbn [initialised].
  by destruct (is_null (values ctx)).
Qed.

Lemma stats_inverse_uninitialised agg context argv :
  initialised agg = false -> stats_inverse agg context argv = (agg, context).
Proof.
  rewrite stats_inverse_cases.
  destruct agg as [ctx|]; [|done]. cbn [initialised].
  destruct (is_null (values ctx)); [|done]. by destruct argv.
Qed.

Context `{DoubleSqrt F}.

Lemma value_callback_cases (s : statistic) agg context :
  value_callback s agg context
  = stats_value_helper agg context (calculate s)
      (match s with
       | StddevSample | VarianceSample => 2
       | StddevPopulation | VariancePopulation => 1
       end).
Proof. by destruct s. Qed.

Lemma final_callback_cases (s : statistic) agg context :
  final_callback s agg context
  = stats_final_helper agg context (calculate s)
      (match s with
       | StddevSample | VarianceSample => 2
       | StddevPopulation | VariancePopulation => 1
       end).
Proof. by destruct s. Qed.

End FinalFacts.

(** X10: the final callbacks clean up.  Each of the four reports what its
    value callback reports on the same state, and leaves the group without a
    buffer; it never allocates or drops the context itself.  Afterwards
    every value callback reports NULL, a second final callback reports NULL
    and changes nothing, and an inverse call changes nothing. *)
Theorem final_releases_buffer {F : Type} `{Double F} `{DoubleSqrt F}
    (s : statistic) (agg : option (StatsWindowContext F))
    (context : sqlite3_context F) :
  let agg' := (final_callback s agg context).1 in
  (final_callback s agg context).2 = value_callback s agg context /\
  initialised agg' = false /\
  (agg' = None <-> agg = None) /\
  (forall s' context', value_callback s' agg' context' = ResultNull) /\
  (forall s' context', final_callback s' agg' context' = (agg', ResultNull)) /\
  (forall context' argv, stats_inverse agg' context' argv = (agg', context')).
Proof.
  intros agg'. unfold agg'. clear agg'.
  rewrite final_callback_cases, value_callback_cases.
  set (min_count := match s with
                    | StddevSample | VarianceSample => 2
                    | StddevPopulation | VariancePopulation => 1
                    end).
  destruct (stats_final_helper_released agg context (calculate s) min_count)
    as (Hinit & Hnone & _).
  split_and!; try done.
  - apply stats_final_helper_result.
  - intros s' context'. rewrite value_callback_cases.
    by apply stats_value_helper_uninitialised.
  - intros s' context'. rewrite final_callback_cases.
    apply injective_projections; cbn [fst snd].
    + by apply stats_final_helper_released.
    + rewrite stats_final_helper_result.
      by apply stats_value_helper_uninitialised.
  - intros context' argv. by apply stats_inverse_uninitialised.
Qed.

Section FirstStep.

Context {F : Type} `{Double F}.
Implicit Types (ctx : WindowStatsData F) (agg : option (StatsWindowContext F)).
Implicit Types (arg : sqlite3_value F) (h : host F).

(** The first value written into a buffer that [init_window_stats_data] has
    just set up. *)
Lemma first_write h ctx context data v :
  init_window_stats_data h ResultUnset ctx = (SQLITE_OK, context, data) ->
  context = ResultUnset /\ (capacity data <=? count data) = false /\
  buffered_data (write_value data v) = [v] /\
  count (write_value data v) = 1 /\
  sum (write_value data v) = d_add d_zero v /\
  sum_sq (write_value data v) = d_add d_zero (d_mul v v) /\
  buffer_capacity (Some (write_value data v)) = INITIAL_CAPACITY.
Proof.
  intros Hinit.
  apply init_window_stats_data_OK in Hinit as (-> & Hb & Hcap & Hcount & Hsum & Hsq).
  assert (Hroom : count data < capacity data)
    by (rewrite Hcap, Hcount; by vm_compute).
  split; [done|]. split; [apply Z.leb_gt; lia|].
  split_and!.
  - change (buffered_data (write_value data v))
      with (buffered_data (add_to_circular_buffer data v)).
    rewrite add_to_circular_buffer_buffered by done.
    unfold buffered_data. by rewrite Hcount.
  - cbn [write_value add_to_circular_buffer count]. by rewrite Hcount.
  - cbn [write_value add_to_circular_buffer sum]. by rewrite Hsum.
  - cbn [write_value add_to_circular_buffer sum_sq]. by rewrite Hsq.
  - by rewrite buffer_capacity_written.
Qed.

End FirstStep.

(** X11: the first accepted value of a group starts from nothing.  When the
    group has no buffer (it is new, an earlier allocation failed, or a final
    callback has released the buffer) and a step with a numeric argument
    reports nothing, then afterwards exactly that value is buffered, the
    count is 1, the running totals are 0.0 plus the value and 0.0 plus its
    square, and the capacity is [INITIAL_CAPACITY]: nothing of what the
    context held before is carried over. *)
Theorem first_step_resets {F : Type} `{Double F}
    (h : host F) (agg : option (StatsWindowContext F)) (arg : sqlite3_value F) :
  initialised agg = false -> is_numeric arg = true ->
  (stats_step h agg ResultUnset [arg]).2 = ResultUnset ->
  buffered (stats_step h agg ResultUnset [arg]).1 = [sqlite3_value_double arg] /\
  buffered_count (stats_step h agg ResultUnset [arg]).1 = 1 /\
  running_sum (stats_step h agg ResultUnset [arg]).1
  = d_add d_zero (sqlite3_value_double arg) /\
  running_sum_sq (stats_step h agg ResultUnset [arg]).1
  = d_add d_zero (d_mul (sqlite3_value_double arg) (sqlite3_value_double arg)) /\
  buffer_capacity (stats_step h agg ResultUnset [arg]).1 = INITIAL_CAPACITY.
Proof.
  intros Hin Hnum. rewrite stats_step_unfold.
  assert (Hctx : exists ctx,
            initialise h agg = None \/
            initialise h agg = Some (init_window_stats_data h ResultUnset ctx)).
  { unfold initialise, sqlite3_aggregate_context.
    destruct agg as [ctx|].
    - exists ctx. right. cbn [initialised] in Hin. by destruct (is_null (values ctx)).
    - exists zeroed. destruct (_ && _); [by right | by left]. }
  destruct Hctx as (ctx & [-> | ->]); [done|].
  destruct (init_window_stats_data h ResultUnset ctx) as [[rc context] data] eqn:Hinit.
  destruct rc.
  - destruct (first_write h ctx context data (sqlite3_value_double arg) Hinit)
      as (-> & Hroom & Hfirst).
    unfold is_numeric in Hnum.
    destruct (sqlite3_value_type arg); try done; rewrite Hroom; intros _; exact Hfirst.
  - by apply init_window_stats_data_NOMEM in Hinit as (-> & _).
Qed.

Lemma first_step_resets_witness :
  buffered (stats_step binary64_host None ResultUnset [SqlInteger 7]).1
  = [sqlite3_value_double (SqlInteger 7)] /\
  buffered_count (stats_step binary64_host None ResultUnset [SqlInteger 7]).1 = 1 /\
  running_sum (stats_step binary64_host None ResultUnset [SqlInteger 7]).1
  = d_add d_zero (sqlite3_value_double (SqlInteger 7)) /\
  running_sum_sq (stats_step binary64_host None ResultUnset [SqlInteger 7]).1
  = d_add d_zero (d_mul (sqlite3_value_double (SqlInteger 7))
                        (sqlite3_value_double (SqlInteger 7))) /\
  buffer_capacity (stats_step binary64_host None ResultUnset [SqlInteger 7]).1
  = INITIAL_CAPACITY.
Proof.
  apply (first_step_resets binary64_host None (SqlInteger 7)); reflexivity.
Defined.

(** ** Exact arithmetic: the sign of the variance *)

Section ExactSign.

Implicit Types (qs : list Qc) (c : Qc).

Lemma Qcsquare_nonneg (a : Qc) : (0 <= a * a)%Qc.
Proof.
  destruct (Qclt_le_dec a 0) as [Hneg|Hpos].
  - replace (a * a)%Qc with ((- a) * (- a))%Qc by ring.
    assert (0 <= - a)%Qc as Hn.
    { apply Qclt_le_weak in Hneg. apply Qcopp_le_compat in Hneg.
      by replace (- 0)%Qc with 0%Qc in Hneg by ring. }
    replace 0%Qc with (0 * - a)%Qc by ring.
    by apply Qcmult_le_compat_r.
  - replace 0%Qc with (0 * a)%Qc by ring.
    by apply Qcmult_le_compat_r.
Qed.

Lemma Qcplus_nonneg (a b : Qc) : (0 <= a -> 0 <= b -> 0 <= a + b)%Qc.
Proof.
  intros Ha Hb. replace 0%Qc with (0 + 0)%Qc by ring.
  by apply Qcplus_le_compat.
Qed.

Lemma Qcplus_zero (a b : Qc) :
  (0 <= a)%Qc -> (0 <= b)%Qc -> (a + b = 0)%Qc -> a = 0%Qc /\ b = 0%Qc.
Proof.
  intros Ha Hb Hab.
  assert (a <= 0)%Qc as Ha'.
  { rewrite <- Hab. replace a with (a + 0)%Qc at 1 by ring.
    apply Qcplus_le_compat; [apply Qcle_refl | done]. }
  assert (a = 0%Qc) as -> by (by apply Qcle_antisym).
  split; [done|]. rewrite <- Hab. ring.
Qed.

Lemma Qsum_squares_nonneg qs c :
  (0 <= Qsum ((fun q => (q - c) * (q - c)) <$> qs))%Qc.
Proof.
  induction qs as [|q qs IH]; [apply Qcle_refl|].
  rewrite fmap_cons. cbn [Qsum foldr].
  apply Qcplus_nonneg; [apply Qcsquare_nonneg | exact IH].
Qed.

Lemma Qsum_squares_zero qs c :
  Qsum ((fun q => (q - c) * (q - c))%Qc <$> qs) = 0%Qc <-> Forall (fun q => q = c) qs.
Proof.
  induction qs as [|q qs IH]; [by split|].
  rewrite fmap_cons. cbn [Qsum foldr]. fold (Qsum ((fun q => (q - c) * (q - c))%Qc <$> qs)).
  rewrite Forall_cons, <- IH. split.
  - intros H0. apply Qcplus_zero in H0 as [Hq Hrest];
      [|apply Qcsquare_nonneg|apply Qsum_squares_nonneg].
    split; [|done]. apply Qcmult_integral in Hq.
    assert (q - c = 0)%Qc as Hd by (by destruct Hq).
    replace q with (q - c + c)%Qc by ring. rewrite Hd. ring.
  - intros [-> ->]. ring.
Qed.

Lemma Qsum_constant qs c :
  Forall (fun q => q = c) qs -> Qsum qs = (Qn (length qs) * c)%Qc.
Proof.
  induction 1 as [|q qs -> _ IH]; cbn [Qsum foldr length].
  - change (Qn 0) with 0%Qc. ring.
  - fold (Qsum qs). rewrite IH, Qn_S. ring.
Qed.

Lemma Qn_positive n : (0 < n)%nat -> (0 < Qn n)%Qc.
Proof.
  intros Hn. unfold Qclt, Qn. cbn [this Q2Qc]. rewrite !Qred_correct.
  unfold Qlt. simpl. lia.
Qed.

Lemma deviations_value qs :
  (1 <= length qs)%nat ->
  (Qsum_sq qs - Qsum qs * Qsum qs / Qn (length qs))%Qc
  = Qsum ((fun q => (q - Qsum qs / Qn (length qs))
                    * (q - Qsum qs / Qn (length qs)))%Qc <$> qs).
Proof.
  intros Hn. rewrite Qsum_deviations. field. apply Qn_pos. lia.
Qed.

Lemma direct_variance_population_value qs :
  (1 <= length qs)%nat ->
  direct_variance_population (Exact <$> qs)
  = Exact ((Qsum_sq qs - Qsum qs * Qsum qs / Qn (length qs)) / Qn (length qs))%Qc.
Proof.
  intros Hn. pose proof (Qn_pos (length qs) ltac:(lia)) as HN.
  unfold direct_variance_population.
  rewrite squared_deviations_exact, length_fmap, d_of_int_exact by lia.
  by rewrite exact_div_nonzero.
Qed.

Lemma direct_variance_sample_value qs :
  (2 <= length qs)%nat ->
  direct_variance_sample (Exact <$> qs)
  = Exact ((Qsum_sq qs - Qsum qs * Qsum qs / Qn (length qs))
           / Qn (length qs - 1))%Qc.
Proof.
  intros Hn. pose proof (Qn_pos (length qs - 1) ltac:(lia)) as HN.
  unfold direct_variance_sample.
  rewrite squared_deviations_exact, length_fmap by lia.
  replace (Z.of_nat (length qs) - 1) with (Z.of_nat (length qs - 1)) by lia.
  rewrite d_of_int_exact. by rewrite exact_div_nonzero.
Qed.

(** The sign of the two variances of a list of rationals. *)
Lemma variance_sign qs :
  (1 <= length qs)%nat ->
  let D := (Qsum_sq qs - Qsum qs * Qsum qs / Qn (length qs))%Qc in
  (0 <= D / Qn (length qs))%Qc /\
  ((D / Qn (length qs))%Qc = 0%Qc <-> exists c, Forall (fun q => q = c) qs) /\
  ((2 <= length qs)%nat ->
   (D / Qn (length qs) <= D / Qn (length qs - 1))%Qc /\
   (D / Qn (length qs - 1) * Qn (length qs - 1) = D / Qn (length qs) * Qn (length qs))%Qc).
Proof.
  intros Hn D.
  pose proof (Qn_pos (length qs) ltac:(lia)) as HN.
  pose proof (Qn_positive (length qs) ltac:(lia)) as HP.
  assert (HS : (0 <= D)%Qc).
  { unfold D. rewrite deviations_value by done. apply Qsum_squares_nonneg. }
  assert (Hvp : (0 <= D / Qn (length qs))%Qc).
  { apply (Qcmult_lt_0_le_reg_r _ _ (Qn (length qs))); [done|].
    replace (0 * Qn (length qs))%Qc with 0%Qc by ring.
    replace (D / Qn (length qs) * Qn (length qs))%Qc with D by (by field).
    done. }
  split; [done|]. split.
  - split.
    + intros H0. exists (Qsum qs / Qn (length qs))%Qc.
      apply Qsum_squares_zero. rewrite <- deviations_value by done.
      fold D. replace D with (D / Qn (length qs) * Qn (length qs))%Qc by (by field).
      rewrite H0. ring.
    + intros (c & Hc).
      assert (Hmean : (Qsum qs / Qn (length qs))%Qc = c).
      { rewrite (Qsum_constant qs c Hc). by field. }
      assert (D = 0%Qc) as ->.
      { unfold D. rewrite deviations_value, Hmean by done.
        by apply Qsum_squares_zero. }
      by field.
  - intros Hn2.
    pose proof (Qn_pos (length qs - 1) ltac:(lia)) as HN1.
    pose proof (Qn_positive (length qs - 1) ltac:(lia)) as HP1.
    assert (Hbessel :
      (D / Qn (length qs - 1) * Qn (length qs - 1)
       = D / Qn (length qs) * Qn (length qs))%Qc) by (by field).
    split; [|done].
    apply (Qcmult_lt_0_le_reg_r _ _ (Qn (length qs - 1))); [done|].
    rewrite Hbessel.
    assert (HQ : Qn (length qs) = (Qn (length qs - 1) + 1)%Qc).
    { rewrite <- Qn_S. f_equal. lia. }
    set (v := (D / Qn (length qs))%Qc) in *. clearbody v.
    rewrite HQ.
    replace (v * (Qn (length qs - 1) + 1))%Qc
      with (v * Qn (length qs - 1) + v)%Qc by ring.
    replace (v * Qn (length qs - 1))%Qc
      with (v * Qn (length qs - 1) + 0)%Qc at 1 by ring.
    apply Qcplus_le_compat; [apply Qcle_refl | done].
Qed.

End ExactSign.

(** X12: in exact arithmetic the variances have the right sign.  With at
    least one value buffered, the population variance query reports a
    number that is never negative, and that is zero exactly when all
    buffered values are equal; with at least two values, the sample variance
    query reports a number that is at least the population variance, and the
    two are related by Bessel's factor: sample times [n - 1] is population
    times [n]. *)
Theorem exact_variance_sign (calls : list (call exact)) :
  forallb call_exact calls = true ->
  1 <= buffered_count (run None calls) ->
  exists vp : Qc,
    variance_pop_value (run None calls) ResultUnset = ResultDouble (Exact vp) /\
    (0 <= vp)%Qc /\
    (vp = 0%Qc <->
     forall x y, x ∈ buffered (run None calls) -> y ∈ buffered (run None calls) ->
                 x = y) /\
    (2 <= buffered_count (run None calls) ->
     exists vs : Qc,
       variance_samp_value (run None calls) ResultUnset = ResultDouble (Exact vs) /\
       (vp <= vs)%Qc /\
       (vs * Qn (length (buffered (run None calls)) - 1)
        = vp * Qn (length (buffered (run None calls))))%Qc).
Proof.
  intros Hc Hn.
  destruct (reachable_nonempty calls Hc Hn)
    as (ctx & qs & Hrun & Hv & Hq & Hcount & Hmax & Hs & Hsq).
  rewrite Hrun in *. cbn [buffered_count buffered] in *. rewrite Hq, length_fmap.
  assert (Hlen : (1 <= length qs)%nat) by lia.
  destruct (variance_sign qs Hlen) as (Hpos & Hzero & Hsamp).
  eexists. split_and!.
  - destruct (calculate_variance_population_exact ctx qs) as [Hvar _]; try done.
    unfold variance_pop_value. rewrite stats_value_helper_initialised by (done || lia).
    rewrite Hvar, direct_variance_population_value by done. reflexivity.
  - exact Hpos.
  - rewrite Hzero. split.
    + intros (c & Hall) x y Hx Hy.
      apply list_elem_of_fmap in Hx as (qx & -> & Hx).
      apply list_elem_of_fmap in Hy as (qy & -> & Hy).
      rewrite Forall_forall in Hall. by rewrite (Hall qx Hx), (Hall qy Hy).
    + intros Hall. destruct qs as [|q0 qs']; [cbn in Hlen; lia|].
      exists q0. apply Forall_forall. intros q Hq0.
      assert (Exact q = Exact q0) as [= ->]; [|done].
      apply Hall; [by apply list_elem_of_fmap_2|].
      rewrite fmap_cons. apply list_elem_of_here.
  - intros Hn2. assert (Hlen2 : (2 <= length qs)%nat) by lia.
    destruct (Hsamp Hlen2) as [Hle Hbessel].
    eexists. split_and!.
    + destruct (calculate_variance_sample_exact ctx qs) as [Hvar _]; try done.
      unfold variance_samp_value. rewrite stats_value_helper_initialised by (done || lia).
      rewrite Hvar, direct_variance_sample_value by done. reflexivity.
    + exact Hle.
    + exact Hbessel.
Qed.

Lemma exact_variance_sign_witness :
  exists vp : Qc,
    variance_pop_value (run None window_calls) ResultUnset = ResultDouble (Exact vp) /\
    (0 <= vp)%Qc /\
    (vp = 0%Qc <->
     forall x y, x ∈ buffered (run None window_calls) ->
                 y ∈ buffered (run None window_calls) -> x = y) /\
    (2 <= buffered_count (run None window_calls) ->
     exists vs : Qc,
       variance_samp_value (run None window_calls) ResultUnset
       = ResultDouble (Exact vs) /\
       (vp <= vs)%Qc /\
       (vs * Qn (length (buffered (run None window_calls)) - 1)
        = vp * Qn (length (buffered (run None window_calls))))%Qc).
Proof.
  apply (exact_variance_sign window_calls); [reflexivity | by vm_compute].
Defined.

(** ** Fresh blocks are never read *)

Section Similar.

Context {F : Type} `{Double F}.
Implicit Types (x y ctx : WindowStatsData F) (a b agg : option (StatsWindowContext F)).
Implicit Types (arg : sqlite3_value F) (h : host F).

Lemma shape_fields x y :
  shape x = shape y ->
  is_null (values x) = is_null (values y) /\ count x = count y /\
  capacity x = capacity y /\ head x = head y /\ tail x = tail y /\
  sum x = sum y /\ sum_sq x = sum_sq y /\ buffered_data x = buffered_data y.
Proof. unfold shape. intros [= ]. by split_and!. Qed.

Lemma shape_some x y : shape <$> Some x = shape <$> Some y -> shape x = shape y.
Proof. intros Hxy. by apply (inj Some) in Hxy. Qed.

Lemma context_ok_initialised ctx :
  context_ok (Some ctx) -> is_null (values ctx) = false -> buffer_ok ctx.
Proof. cbn [context_ok]. by destruct (values ctx). Qed.

Lemma malloc_same h1 h2 size :
  allocates h1 = allocates h2 ->
  is_null (malloc h1 size) = is_null (malloc h2 size).
Proof.
  unfold allocates, malloc. destruct (size <=? Int.PTRDIFF_MAX); [|done].
  by destruct (malloc_block h1), (malloc_block h2).
Qed.

Lemma init_window_stats_data_similar h1 h2 context x y :
  allocates h1 = allocates h2 -> shape x = shape y ->
  (init_window_stats_data h1 context x).1 = (init_window_stats_data h2 context y).1 /\
  shape (init_window_stats_data h1 context x).2
  = shape (init_window_stats_data h2 context y).2.
Proof.
  intros Hal (Hv & Hc & Hcap & Hh & Ht & Hs & Hsq & Hb)%shape_fields.
  unfold init_window_stats_data.
  pose proof (malloc_same h1 h2
    (Int.size_mul (Int.to_size INITIAL_CAPACITY) sizeof_double) Hal) as Hm.
  destruct (malloc h1 _), (malloc h2 _); try done; cbn [fst snd]; split; try done.
  unfold shape, buffered_data, peek_logical. cbn [values count capacity head tail sum sum_sq is_null load].
  by rewrite Hc, Hh, Ht, Hs, Hsq.
Qed.

Lemma initialise_similar h1 h2 a b :
  same_allocations h1 h2 -> shape <$> a = shape <$> b ->
  match initialise h1 a, initialise h2 b with
  | None, None => a = None /\ b = None
  | Some (rc1, c1, x), Some (rc2, c2, y) => rc1 = rc2 /\ c1 = c2 /\ shape x = shape y
  | _, _ => False
  end.
Proof.
  intros [Hctx Hal] Hab. unfold initialise, sqlite3_aggregate_context.
  destruct a as [x|], b as [y|]; try done.
  - apply shape_some in Hab as Hxy. pose proof (shape_fields x y Hxy) as (Hv & _).
    rewrite <- Hv. destruct (is_null (values x)); [|done].
    destruct (init_window_stats_data_similar h1 h2 ResultUnset x y Hal Hxy) as [H1 H2].
    destruct (init_window_stats_data h1 ResultUnset x) as [[rc1 c1] x'],
             (init_window_stats_data h2 ResultUnset y) as [[rc2 c2] y'].
    cbn [fst snd] in *. by injection H1 as -> ->.
  - rewrite <- Hctx. destruct (_ && _); [|done]. cbn [zeroed values is_null].
    destruct (init_window_stats_data_similar h1 h2 ResultUnset zeroed zeroed Hal eq_refl)
      as [H1 H2].
    fold (@zeroed F _).
    destruct (init_window_stats_data h1 ResultUnset zeroed) as [[rc1 c1] x'],
             (init_window_stats_data h2 ResultUnset zeroed) as [[rc2 c2] y'].
    cbn [fst snd] in *. by injection H1 as -> ->.
Qed.

Lemma grow_stats_buffer_rc h context x :
  (grow_stats_buffer h context x).1.1
  = if is_null (malloc h (Int.size_mul
                            (Int.to_size (Int.mul (capacity x) CAPACITY_GROWTH_FACTOR))
                            sizeof_double))
    then SQLITE_NOMEM else SQLITE_OK.
Proof. unfold grow_stats_buffer. by destruct (malloc h _). Qed.

Lemma grow_stats_buffer_similar h1 h2 context x y :
  allocates h1 = allocates h2 -> buffer_ok x -> buffer_ok y -> shape x = shape y ->
  (grow_stats_buffer h1 context x).1 = (grow_stats_buffer h2 context y).1 /\
  shape (grow_stats_buffer h1 context x).2 = shape (grow_stats_buffer h2 context y).2.
Proof.
  intros Hal Hx Hy Hxy.
  pose proof (shape_fields x y Hxy) as (Hv & Hc & Hcap & Hh & Ht & Hs & Hsq & Hb).
  pose proof (grow_stats_buffer_rc h1 context x) as R1.
  pose proof (grow_stats_buffer_rc h2 context y) as R2.
  rewrite <- Hcap, <- (malloc_same h1 h2 _ Hal) in R2.
  destruct (grow_stats_buffer h1 context x) as [[rc1 c1] g1] eqn:E1,
           (grow_stats_buffer h2 context y) as [[rc2 c2] g2] eqn:E2.
  cbn [fst snd] in *. rewrite <- R1 in R2. subst rc2.
  destruct rc1.
  - apply grow_stats_buffer_OK in E1
      as (-> & Hg1 & Hcap1 & Hc1 & Hh1 & Ht1 & Hs1 & Hsq1 & _ & Hb1); [|done].
    apply grow_stats_buffer_OK in E2
      as (-> & Hg2 & Hcap2 & Hc2 & Hh2 & Ht2 & Hs2 & Hsq2 & _ & Hb2); [|done].
    split; [done|]. unfold shape.
    rewrite !buffer_ok_is_null by done.
    by rewrite Hcap1, Hcap2, Hc1, Hc2, Hh1, Hh2, Ht1, Ht2, Hs1, Hs2, Hsq1, Hsq2,
      Hb1, Hb2, Hcap, Hc, Hs, Hsq, Hb.
  - apply grow_stats_buffer_NOMEM in E1 as [-> ->].
    apply grow_stats_buffer_NOMEM in E2 as [-> ->]. done.
Qed.

Lemma write_value_similar x y v :
  buffer_ok x -> buffer_ok y -> count x < capacity x -> shape x = shape y ->
  shape (write_value x v) = shape (write_value y v).
Proof.
  intros Hx Hy Hroom Hxy.
  pose proof (shape_fields x y Hxy) as (Hv & Hc & Hcap & Hh & Ht & Hs & Hsq & Hb).
  unfold shape.
  change (buffered_data (write_value x v))
    with (buffered_data (add_to_circular_buffer x v)).
  change (buffered_data (write_value y v))
    with (buffered_data (add_to_circular_buffer y v)).
  rewrite !add_to_circular_buffer_buffered by (done || lia).
  cbn [write_value add_to_circular_buffer values count capacity head tail sum sum_sq].
  by rewrite !store_is_null, Hv, Hc, Hcap, Hh, Ht, Hs, Hsq, Hb.
Qed.

Lemma stats_step_similar h1 h2 a b argv :
  context_ok a -> context_ok b -> same_allocations h1 h2 ->
  shape <$> a = shape <$> b ->
  shape <$> (stats_step h1 a ResultUnset argv).1
  = shape <$> (stats_step h2 b ResultUnset argv).1 /\
  (stats_step h1 a ResultUnset argv).2 = (stats_step h2 b ResultUnset argv).2.
Proof.
  intros Ha Hb Hh Hab.
  destruct argv as [|arg [|arg' argv]]; [done| |done].
  rewrite !stats_step_unfold.
  pose proof (initialise_spec h1 a Ha) as S1.
  pose proof (initialise_spec h2 b Hb) as S2.
  pose proof (initialise_similar h1 h2 a b Hh Hab) as Hi.
  destruct (initialise h1 a) as [[[rc1 c1] x]|], (initialise h2 b) as [[[rc2 c2] y]|];
    try done.
  destruct Hi as (<- & <- & Hxy).
  assert (Hsome : shape <$> Some x = shape <$> Some y) by (by cbn; rewrite Hxy).
  destruct rc1; [|done].
  destruct S1 as (_ & _ & -> & Hx & _), S2 as (_ & _ & _ & Hy & _).
  pose proof (shape_fields x y Hxy) as (Hv & Hc & Hcap & _).
  assert (Hnum :
    let r1 :=
      (let '(rc, context, ctx) :=
         if capacity x <=? count x then grow_stats_buffer h1 ResultUnset x
         else (SQLITE_OK, ResultUnset, x) in
       match rc with
       | SQLITE_NOMEM => (Some ctx, context)
       | SQLITE_OK => (Some (write_value ctx (sqlite3_value_double arg)), context)
       end) in
    let r2 :=
      (let '(rc, context, ctx) :=
         if capacity y <=? count y then grow_stats_buffer h2 ResultUnset y
         else (SQLITE_OK, ResultUnset, y) in
       match rc with
       | SQLITE_NOMEM => (Some ctx, context)
       | SQLITE_OK => (Some (write_value ctx (sqlite3_value_double arg)), context)
       end) in
    shape <$> r1.1 = shape <$> r2.1 /\ r1.2 = r2.2).
  { cbv zeta. rewrite <- Hcap, <- Hc.
    destruct (Z.leb_spec (capacity x) (count x)) as [Hfull|Hroom].
    - destruct (grow_stats_buffer_similar h1 h2 ResultUnset x y (proj2 Hh) Hx Hy Hxy)
        as [G1 G2].
      destruct (grow_stats_buffer h1 ResultUnset x) as [[rc1 c1] g1] eqn:E1,
               (grow_stats_buffer h2 ResultUnset y) as [[rc2 c2] g2] eqn:E2.
      cbn [fst snd] in G1, G2. injection G1 as <- <-.
      destruct rc1; cbn [fst snd];
        [|by cbn [fmap option_fmap option_map]; rewrite G2].
      apply grow_stats_buffer_OK in E1 as (_ & Hg1 & Hcap1 & Hc1 & _); [|done].
      apply grow_stats_buffer_OK in E2 as (_ & Hg2 & _); [|done].
      split; [|done]. cbn [fmap option_fmap option_map]. f_equal.
      apply write_value_similar; try done.
      pose proof Hx as [_ ? ? _ _]. lia.
    - cbn [fst snd]. split; [|done]. cbn [fmap option_fmap option_map]. f_equal.
      by apply write_value_similar. }
  destruct (sqlite3_value_type arg); cbn [fst snd]; try done; exact Hnum.
Qed.

Lemma stats_inverse_similar a b (context : sqlite3_context F) argv :
  context_ok a -> context_ok b -> shape <$> a = shape <$> b ->
  shape <$> (stats_inverse a context argv).1
  = shape <$> (stats_inverse b context argv).1 /\
  (stats_inverse a context argv).2 = (stats_inverse b context argv).2.
Proof.
  intros Ha Hb Hab. rewrite !stats_inverse_cases.
  destruct a as [x|], b as [y|]; try done.
  destruct argv as [|arg rest]; [done|].
  apply shape_some in Hab as Hxy.
  pose proof (shape_fields x y Hxy) as (Hv & Hc & Hcap & Hh & Ht & Hs & Hsq & Hq).
  rewrite <- Hv, <- Hc.
  destruct (is_null (values x)) eqn:Hnx; cbn [orb];
    [by cbn [fst fmap option_fmap option_map]; rewrite Hxy|].
  destruct (Z.leb_spec (count x) 0) as [Hn|Hn]; cbn [orb];
    [by cbn [fst fmap option_fmap option_map]; rewrite Hxy|].
  destruct (is_sql_null arg);
    [by cbn [fst fmap option_fmap option_map]; rewrite Hxy|].
  cbn [fst snd]. split; [|done]. cbn [fmap option_fmap option_map]. f_equal.
  apply context_ok_initialised in Ha; [|done].
  apply context_ok_initialised in Hb; [|by rewrite <- Hv].
  pose proof (remove_from_circular_buffer_buffered x Ha Hn) as Rx.
  pose proof (remove_from_circular_buffer_buffered y Hb ltac:(lia)) as Ry.
  unfold remove_from_circular_buffer in Rx, Ry.
  destruct (Z.eqb_spec (count x) 0); [lia|].
  destruct (Z.eqb_spec (count y) 0); [lia|].
  cbn [fst snd] in Rx, Ry.
  remember (load (values x) (head x)) as lx.
  remember (load (values y) (head y)) as ly.
  rewrite Rx, Ry in Hq. injection Hq as Hfirst Hrest.
  unfold shape. unfold buffered_data, peek_logical in *.
  cbn [values count capacity head tail sum sum_sq] in *.
  by rewrite Hnx, Hrest, <- Hv, Hfirst, Hc, Hcap, Hh, Ht, Hs, Hsq.
Qed.

Lemma exec_similar a b (c1 c2 : call F) :
  context_ok a -> context_ok b -> shape <$> a = shape <$> b -> same_call c1 c2 ->
  shape <$> (exec a c1).1 = shape <$> (exec b c2).1 /\
  (exec a c1).2 = (exec b c2).2.
Proof.
  intros Ha Hb Hab Hc. destruct c1 as [h1 argv1|argv1], c2 as [h2 argv2|argv2];
    try done; cbn [same_call exec] in *.
  - destruct Hc as [Hh <-]. by apply stats_step_similar.
  - subst argv2. by apply stats_inverse_similar.
Qed.

Lemma run_similar a b (calls1 calls2 : list (call F)) :
  context_ok a -> context_ok b -> shape <$> a = shape <$> b ->
  Forall2 same_call calls1 calls2 ->
  shape <$> run a calls1 = shape <$> run b calls2 /\
  trace a calls1 = trace b calls2.
Proof.
  intros Ha Hb Hab Hcalls. revert a b Ha Hb Hab.
  induction Hcalls as [|c1 c2 calls1 calls2 Hc _ IH]; intros a b Ha Hb Hab; [done|].
  change (run a (c1 :: calls1)) with (run (exec a c1).1 calls1).
  change (run b (c2 :: calls2)) with (run (exec b c2).1 calls2).
  cbn [trace].
  destruct (exec_similar a b c1 c2 Ha Hb Hab Hc) as [Hs Hr].
  destruct (IH (exec a c1).1 (exec b c2).1) as [IH1 IH2];
    [by apply exec_effect | by apply exec_effect | done |].
  by rewrite Hr, IH2.
Qed.

Context `{DoubleSqrt F}.

Lemma calculate_similar (s : statistic) x y :
  shape x = shape y -> calculate s x = calculate s y.
Proof.
  intros (_ & Hc & _ & _ & _ & Hs & Hsq & _)%shape_fields.
  destruct s; cbn [calculate];
    unfold calculate_stddev_sample, calculate_stddev_population,
           calculate_variance_sample, calculate_variance_population;
    by rewrite Hc, Hs, Hsq.
Qed.

Lemma value_callback_similar (s : statistic) a b context :
  shape <$> a = shape <$> b -> value_callback s a context = value_callback s b context.
Proof.
  intros Hab. rewrite !value_callback_cases.
  unfold stats_value_helper, sqlite3_aggregate_context.
  destruct a as [x|], b as [y|]; try done. apply shape_some in Hab as Hxy.
  pose proof (shape_fields x y Hxy) as (Hv & Hc & _).
  by rewrite (calculate_similar s x y Hxy), Hv, Hc.
Qed.

End Similar.

(** X13: a fresh block is never read before it is written.  Two runs of the
    same calls, with allocations that succeed and fail alike but return
    blocks of different contents, report the same at every call, buffer the
    same values, and end with the same count, capacity, head, tail and
    running totals; every statistic then answers the same on both. *)
Theorem fresh_blocks_unobserved {F : Type} `{Double F} `{DoubleSqrt F}
    (calls1 calls2 : list (call F)) :
  Forall2 same_call calls1 calls2 ->
  trace None calls1 = trace None calls2 /\
  shape <$> run None calls1 = shape <$> run None calls2 /\
  buffered (run None calls1) = buffered (run None calls2) /\
  (forall s context,
     value_callback s (run None calls1) context
     = value_callback s (run None calls2) context /\
     (final_callback s (run None calls1) context).2
     = (final_callback s (run None calls2) context).2).
Proof.
  intros Hcalls.
  destruct (run_similar None None calls1 calls2 I I eq_refl Hcalls) as [Hs Ht].
  split_and!; try done.
  - destruct (run None calls1) as [x|], (run None calls2) as [y|]; try done.
    apply shape_some in Hs as Hxy.
    by apply shape_fields in Hxy as (_ & _ & _ & _ & _ & _ & _ & ?).
  - intros s context.
    rewrite !final_callback_cases, !stats_final_helper_result, <- !value_callback_cases.
    split; by apply value_callback_similar.
Qed.

Lemma fresh_blocks_unobserved_witness :
  trace None [Step binary64_host [SqlInteger 7]; Inverse [SqlInteger 7]]
  = trace None [Step zero_host [SqlInteger 7]; Inverse [SqlInteger 7]] /\
  shape <$> run None [Step binary64_host [SqlInteger 7]; Inverse [SqlInteger 7]]
  = shape <$> run None [Step zero_host [SqlInteger 7]; Inverse [SqlInteger 7]] /\
  buffered (run None [Step binary64_host [SqlInteger 7]; Inverse [SqlInteger 7]])
  = buffered (run None [Step zero_host [SqlInteger 7]; Inverse [SqlInteger 7]]) /\
  (forall s context,
     value_callback s
       (run None [Step binary64_host [SqlInteger 7]; Inverse [SqlInteger 7]]) context
     = value_callback s
         (run None [Step zero_host [SqlInteger 7]; Inverse [SqlInteger 7]]) context /\
     (final_callback s
        (run None [Step binary64_host [SqlInteger 7]; Inverse [SqlInteger 7]]) context).2
     = (final_callback s
          (run None [Step zero_host [SqlInteger 7]; Inverse [SqlInteger 7]]) context).2).
Proof.
  apply (fresh_blocks_unobserved
           [Step binary64_host [SqlInteger 7]; Inverse [SqlInteger 7]]
           [Step zero_host [SqlInteger 7]; Inverse [SqlInteger 7]]).
  repeat constructor.
Defined.

(** X14: [get_circular_value] reads the buffered values in their order.  In
    every state a group can reach, for a logical index [i] below the count,
    and as long as [head + i] does not leave the range of [int], the value
    read is the [i]-th oldest buffered value. *)
Theorem circular_read {F : Type} `{Double F}
    (calls : list (call F)) (ctx : WindowStatsData F) (i : Z) :
  run None calls = Some ctx -> is_null (values ctx) = false ->
  0 <= i < count ctx -> head ctx + i <= Int.INT_MAX ->
  buffered (Some ctx) !! Z.to_nat i = Some (get_circular_value ctx i).
Proof.
  intros Hrun Hv Hi Hmax.
  pose proof (run_context_ok None calls I) as Hok. rewrite Hrun in Hok.
  apply context_ok_initialised in Hok; [|done].
  pose proof Hok as [_ Hcap Hcount Hhead _].
  cbn [buffered]. unfold buffered_data.
  rewrite list_lookup_fmap, (lookup_seqZ_lt _ _ (Z.to_nat i)) by lia.
  cbn [fmap option_fmap option_map]. f_equal.
  unfold get_circular_value, peek_logical, Int.add.
  rewrite wrap_small by (unfold Int.INT_MIN; lia).
  rewrite rem_nonneg by lia. do 2 f_equal. lia.
Qed.

Lemma circular_read_witness :
  buffered (Some full_buffer) !! Z.to_nat 99
  = Some (get_circular_value full_buffer 99).
Proof.
  apply (circular_read (inserts full_steps) full_buffer 99);
    by vm_compute.
Defined.

Section StddevFacts.

Implicit Types (ctx : WindowStatsData binary64).
Implicit Types (agg : option (StatsWindowContext binary64)).

(** The square root is NAN, or has the sign bit clear, or is the zero it was
    given. *)
Lemma SFsqrt_sign (x : binary64) :
  is_negative (SFsqrt prec emax x) = false.
Proof.
  destruct x as [[]|[]| |[] m e]; try done.
  unfold SFsqrt. destruct (SFsqrt_core_binary prec emax (Z.pos m) e) as [[mz ez] lz].
  unfold binary_round_aux.
  destruct (shr_fexp prec emax mz ez lz) as [mrs' e'].
  destruct (shr_fexp prec emax _ e' loc_Exact) as [mrs'' e''].
  destruct (shr_m mrs''); try done.
  by destruct (e'' <=? emax - prec).
Qed.

(** What the standard deviation reports, from what the variance reports. *)
Lemma stddev_result (v : binary64) context :
  match set_result context v with
  | ResultDouble v' =>
      set_result context (if d_isnan v then d_nan else d_sqrt v)
      = set_result context (d_sqrt v')
  | _ => set_result context (if d_isnan v then d_nan else d_sqrt v) = ResultNull
  end.
Proof. by destruct v as [[]|[]| |[] m e]. Qed.

Lemma stats_value_helper_stddev agg context (f : stats_func) min_count :
  match stats_value_helper agg context f min_count with
  | ResultDouble v =>
      stats_value_helper agg context
        (fun data => if d_isnan (f data) then d_nan else d_sqrt (f data)) min_count
      = set_result context (d_sqrt v)
  | _ =>
      stats_value_helper agg context
        (fun data => if d_isnan (f data) then d_nan else d_sqrt (f data)) min_count
      = ResultNull
  end.
Proof.
  unfold stats_value_helper, sqlite3_aggregate_context.
  destruct agg as [ctx|]; [|done].
  destruct (is_null (values ctx) || (count ctx <? min_count)); [done|].
  apply stddev_result.
Qed.

Lemma stats_value_helper_reported agg context (f : stats_func) min_count r :
  stats_value_helper agg context f min_count = ResultDouble r ->
  exists ctx, agg = Some ctx /\ r = f ctx.
Proof.
  unfold stats_value_helper, sqlite3_aggregate_context.
  destruct agg as [ctx|]; [|done].
  destruct (is_null (values ctx) || (count ctx <? min_count)); [done|].
  unfold set_result. destruct (_ || _); [done|].
  intros [= <-]. by exists ctx.
Qed.

End StddevFacts.

(** X15: in double precision the standard deviation follows the variance.
    When a variance query reports NULL, the standard deviation query of the
    same kind reports NULL; when it reports a number [v], the standard
    deviation query reports the square root of [v] as [set_result] passes it
    on, which is NULL for a negative [v].  A standard deviation that is
    reported is never a negative number. *)
Theorem stddev_follows_variance
    (agg : option (StatsWindowContext binary64)) (context : sqlite3_context binary64) :
  match variance_samp_value agg context with
  | ResultDouble v =>
      stddev_samp_value agg context = set_result context (SFsqrt prec emax v)
  | _ => stddev_samp_value agg context = ResultNull
  end /\
  match variance_pop_value agg context with
  | ResultDouble v =>
      stddev_pop_value agg context = set_result context (SFsqrt prec emax v)
  | _ => stddev_pop_value agg context = ResultNull
  end /\
  (forall r,
     stddev_samp_value agg context = ResultDouble r \/
     stddev_pop_value agg context = ResultDouble r ->
     is_negative r = false).
Proof.
  split_and!.
  - apply (stats_value_helper_stddev agg context calculate_variance_sample 2).
  - apply (stats_value_helper_stddev agg context calculate_variance_population 1).
  - intros r [Hr|Hr]; apply stats_value_helper_reported in Hr as (ctx & _ & ->).
    + unfold calculate_stddev_sample.
      destruct (d_isnan (calculate_variance_sample ctx)); [done | apply SFsqrt_sign].
    + unfold calculate_stddev_population.
      destruct (d_isnan (calculate_variance_population ctx)); [done | apply SFsqrt_sign].
Qed.

(** ** Aggregate mode *)

Section Aggregate.

Context {F : Type} `{Double F}.
Implicit Types (ctx : WindowStatsData F) (agg : option (StatsWindowContext F)).
Implicit Types (arg : sqlite3_value F) (h : host F).
Implicit Types (steps : list (host F * sqlite3_value F)).

Lemma context_ok_room agg :
  context_ok agg -> 0 <= buffered_count agg <= buffer_capacity agg.
Proof.
  destruct agg as [ctx|]; [|by intros _; cbn; unfold INITIAL_CAPACITY; lia].
  cbn [context_ok buffered_count buffer_capacity].
  destruct (values ctx) as [a|]; cbn [is_null].
  - intros [_ ? ? _ _]. lia.
  - intros (-> & _). unfold INITIAL_CAPACITY. lia.
Qed.

(** A step that reports nothing was given a number or NULL; NULL changes
    neither what is buffered nor the capacity. *)
Lemma stats_step_silent h agg arg :
  context_ok agg ->
  (stats_step h agg ResultUnset [arg]).2 = ResultUnset ->
  is_numeric arg = true \/
  (is_sql_null arg = true /\
   buffered (stats_step h agg ResultUnset [arg]).1 = buffered agg /\
   buffered_count (stats_step h agg ResultUnset [arg]).1 = buffered_count agg /\
   buffer_capacity (stats_step h agg ResultUnset [arg]).1 = buffer_capacity agg).
Proof.
  intros Hok. rewrite stats_step_unfold.
  pose proof (initialise_spec h agg Hok) as Hs.
  destruct (initialise h agg) as [[[rc context] ctx]|] eqn:Hi; [|done].
  destruct rc.
  - destruct (initialise_capacity h agg context ctx Hok Hi) as (Hb & Hcap & _).
    destruct Hs as ((Hq & _) & Hcount & _).
    unfold is_numeric, is_sql_null.
    destruct (sqlite3_value_type arg); cbn [fst snd]; try done; try by left.
    intros _. right. split_and!; try done.
    cbn [buffer_capacity]. by rewrite buffer_ok_is_null.
  - by destruct Hs as (_ & _ & -> & _).
Qed.

Lemma aggregate_run steps :
  trace None (inserts steps) = replicate (length steps) ResultUnset ->
  context_ok (run None (inserts steps)) /\
  buffered (run None (inserts steps)) = numeric_arguments steps /\
  Forall (fun p => is_numeric p.2 = true \/ is_sql_null p.2 = true) steps /\
  (buffer_capacity (run None (inserts steps)) = INITIAL_CAPACITY \/
   buffer_capacity (run None (inserts steps))
   < 2 * buffered_count (run None (inserts steps))).
Proof.
  induction steps as [|[h v] steps IH] using rev_ind.
  - intros _. split_and!; try done. by left.
  - unfold inserts. rewrite fmap_app, length_app, replicate_add.
    fold (inserts steps). cbn [fmap list_fmap length replicate fst snd].
    rewrite trace_app, run_app. intros Ht.
    apply app_inj_1 in Ht as [Ht Hlast];
      [|by rewrite trace_length, length_replicate; unfold inserts; rewrite length_fmap].
    destruct (IH Ht) as (Hok & Hq & Hall & Hcap). clear IH.
    set (agg := run None (inserts steps)) in *.
    cbn [trace exec] in Hlast. injection Hlast as Hr.
    change (run agg [Step h [v]]) with (stats_step h agg ResultUnset [v]).1.
    assert (Hok' : context_ok (stats_step h agg ResultUnset [v]).1)
      by (by apply stats_step_effect).
    unfold numeric_arguments. rewrite fmap_app, filter_app, fmap_app.
    fold (numeric_arguments steps). cbn [fmap list_fmap snd].
    split; [done|].
    destruct (is_numeric v) eqn:Hnum.
    + destruct (stats_step_inserted_view h agg v _ Hok Hnum
                  (step_reported h agg v _ Hr))
        as (_ & Hq' & Hc' & Hroom & Hfull).
      rewrite filter_cons_True, filter_nil by done.
      split_and!.
      * by rewrite Hq', Hq.
      * apply Forall_app. split; [done|]. constructor; [by left | done].
      * rewrite Hc'.
        pose proof (context_ok_room agg Hok) as Hn.
        destruct (Z.lt_ge_cases (buffered_count agg) (buffer_capacity agg)) as [Hlt|Hge].
        -- destruct (Hroom Hlt) as [-> _].
           destruct Hcap as [->|?]; [by left | right; lia].
        -- destruct (Hfull ltac:(lia)) as [-> _]. right. lia.
    + destruct (stats_step_silent h agg v Hok Hr) as [?|(Hnull & Hq' & Hc' & Hcap')];
        [congruence|].
      rewrite filter_cons_False, filter_nil by (by rewrite Hnum).
      split_and!.
      * by rewrite Hq', Hq, app_nil_r.
      * apply Forall_app. split; [done|]. constructor; [by right | done].
      * by rewrite Hcap', Hc'.
Qed.

End Aggregate.

(** X16: aggregate mode.  When every row of a group went through
    [stats_step] and none of the calls reported anything, then every
    argument was a number or NULL, the buffer holds exactly the numbers, in
    the order of the rows, with the NULLs left out, however many they are
    and however often the buffer grew; and the buffer is never more than
    twice as large as needed: its capacity is [INITIAL_CAPACITY], or less
    than twice the number of buffered values. *)
Theorem aggregate_mode {F : Type} `{Double F}
    (steps : list (host F * sqlite3_value F)) :
  trace None (inserts steps) = replicate (length steps) ResultUnset ->
  buffered (run None (inserts steps)) = numeric_arguments steps /\
  buffered_count (run None (inserts steps))
  = Z.of_nat (length (numeric_arguments steps)) /\
  Forall (fun p => is_numeric p.2 = true \/ is_sql_null p.2 = true) steps /\
  (buffer_capacity (run None (inserts steps)) = INITIAL_CAPACITY \/
   buffer_capacity (run None (inserts steps))
   < 2 * buffered_count (run None (inserts steps))).
Proof.
  intros Ht. destruct (aggregate_run steps Ht) as (Hok & Hq & Hall & Hcap).
  split_and!; try done.
  by rewrite context_ok_count, Hq.
Qed.

Lemma aggregate_mode_witness :
  buffered (run None (inserts rows_with_null)) = numeric_arguments rows_with_null /\
  buffered_count (run None (inserts rows_with_null))
  = Z.of_nat (length (numeric_arguments rows_with_null)) /\
  Forall (fun p : host binary64 * sqlite3_value binary64 =>
            is_numeric p.2 = true \/ is_sql_null p.2 = true) rows_with_null /\
  (buffer_capacity (run None (inserts rows_with_null)) = INITIAL_CAPACITY \/
   buffer_capacity (run None (inserts rows_with_null))
   < 2 * buffered_count (run None (inserts rows_with_null))).
Proof. apply (aggregate_mode rows_with_null). reflexivity. Defined.
